(** * SlideSmith deck-generation pipeline: a shallow embedding

    Sources embedded here:
    - [src/lib/deck-generator.ts]: [cleanJSONResponse], [generateOutline],
      [generateSlide], [generateUnsplashUrl], [generateVisual],
      [parseDocuments] and the stub helpers;
    - [src/app/api/generate-deck/route.ts]: the request schema and [POST];
    - the LLM client module: [checkRateLimit] and its module-level map.

    Modelling conventions.
    - A JavaScript string is the sequence of its code units; the code units
      are those below 256, so a string is a Rocq [string].
    - A length, an index, a clock reading or the rate limiter's counter is
      an integer ([Z]).  The requested slide count is any number the request
      may carry: a JavaScript number is modelled by its value, a rational
      ([Q]), and the arithmetic on it is exact; the builtins that read a
      number as a length or an index ([Array.from], [slice]) truncate it as
      the language specifies.
    - [await]ed LLM calls are replies of an oracle; a reply records whether
      the call threw, whether the [Promise.race] timer won, or what
      [JSON.parse] produced.  Fields that the code itself guards against
      being absent ([?.], [|| 0], [!x]) are [option]s; the other fields
      follow the declared TypeScript types.
    - [try { ... } catch] is a match on a [result]. *)

From Stdlib Require Import ZArith QArith Qround Qminmax Lqa.
From Stdlib Require Import Ascii String DecimalString.
From stdpp Require Import base tactics option list strings gmap.

Local Open Scope Z_scope.

(** ** Errors *)

Inductive failure :=
| LlmError        (* the LLM call, the cleaning or [JSON.parse] threw *)
| TypeError       (* property access on [undefined] or [null] *)
| TimedOut.       (* the timer of a [Promise.race] rejected first *)

Inductive result (A : Type) :=
| Ok (a : A)
| Throw (e : failure).
Arguments Ok {A} a.
Arguments Throw {A} e.

(** [result] is a monad; stdpp's [x ← r; k] sequences fallible steps. *)
#[global] Instance result_ret : MRet result := fun A a => Ok a.
#[global] Instance result_bind : MBind result := fun A B k r =>
  match r with
  | Ok a => k a
  | Throw e => Throw e
  end.

(** ** JavaScript numbers *)

Module JsNumber.

(** [a < b] and [a > b] on numbers. *)
Definition ltb (a b : Q) : bool := negb (Qle_bool b a).
Definition gtb (a b : Q) : bool := ltb b a.

(** [ToIntegerOrInfinity]: the fraction is dropped, towards zero. *)
Definition ToIntegerOrInfinity (x : Q) : Z :=
  if Qle_bool 0 x then Qfloor x else Qceiling x.

(** [ToLength], the length [Array.from] reads from [{ length: x }]: the
    integer part, and 0 for a negative number. *)
Definition ToLength (x : Q) : nat := Z.to_nat (ToIntegerOrInfinity x).

(** How often the body of [for (let i = 0; i < bound; i++)] runs: once for
    every [i = 0, 1, ...] below [bound]. *)
Definition iterations (bound : Q) : nat := Z.to_nat (Qceiling bound).

End JsNumber.

(** ** JavaScript string primitives *)

Module JsString.

Definition LF : ascii := "010".
Definition DQUOTE : ascii := "034".
Definition BACKSLASH : ascii := "092".
Definition QUOTE : ascii := "039".

Definition code (c : ascii) : N := N_of_ascii c.

Definition in_range (lo hi : N) (c : ascii) : bool :=
  ((lo <=? code c) && (code c <=? hi))%N.

(** [WhiteSpace] and [LineTerminator]: what [trim] removes and [\s] matches. *)
Definition is_space (c : ascii) : bool :=
  (in_range 9 13 c || (code c =? 32) || (code c =? 160))%N.

Definition is_digit : ascii -> bool := in_range 48 57.
Definition is_upper : ascii -> bool := in_range 65 90.
Definition is_lower : ascii -> bool := in_range 97 122.

(** [\w] *)
Definition is_word (c : ascii) : bool :=
  is_digit c || is_upper c || is_lower c || (code c =? 95)%N.

(** Case folding of the [/i] flag, which relates only ASCII letters to
    ASCII letters. *)
Definition lower (c : ascii) : ascii :=
  if is_upper c then ascii_of_N (code c + 32) else c.

Definition is_empty (s : string) : bool :=
  match s with
  | EmptyString => true
  | String _ _ => false
  end.

Fixpoint trimStart (s : string) : string :=
  match s with
  | EmptyString => EmptyString
  | String c r => if is_space c then trimStart r else s
  end.

Fixpoint trimEnd (s : string) : string :=
  match s with
  | EmptyString => EmptyString
  | String c r =>
      let r' := trimEnd r in
      if is_empty r' && is_space c then EmptyString else String c r'
  end.

Definition trim (s : string) : string := trimEnd (trimStart s).

(** [s.replace(/^p/, '')] for a literal [p]. *)
Fixpoint strip_prefix (p s : string) : option string :=
  match p, s with
  | EmptyString, _ => Some s
  | String a p', String c s' =>
      if Ascii.eqb a c then strip_prefix p' s' else None
  | String _ _, EmptyString => None
  end.

Definition startsWith (p s : string) : bool :=
  match strip_prefix p s with
  | Some _ => true
  | None => false
  end.

Definition remove_prefix (p s : string) : string :=
  match strip_prefix p s with
  | Some r => r
  | None => s
  end.

(** [s.replace(/p$/, '')] for a literal [p]: the search tries every start
    position from the left; with [$] the match is the rest of the string. *)
Fixpoint remove_suffix (p s : string) : string :=
  if String.eqb s p then EmptyString
  else match s with
       | EmptyString => EmptyString
       | String c r => String c (remove_suffix p r)
       end.

(** Prefix test under [/i]; [p] is given in lower case. *)
Fixpoint strip_prefix_ci (p s : string) : option string :=
  match p, s with
  | EmptyString, _ => Some s
  | String a p', String c s' =>
      if Ascii.eqb a (lower c) then strip_prefix_ci p' s' else None
  | String _ _, EmptyString => None
  end.

(** [s.replace(/ab/g, rep)] for a two-unit pattern. *)
Fixpoint replace2 (a b : ascii) (rep : string) (s : string) : string :=
  match s with
  | EmptyString => EmptyString
  | String c r =>
      match r with
      | String d r' =>
          if Ascii.eqb c a && Ascii.eqb d b then rep +:+ replace2 a b rep r'
          else String c (replace2 a b rep r)
      | EmptyString => s
      end
  end.

(** [s.replace(/[^\w\s]/g, '')] *)
Fixpoint keep_word_space (s : string) : string :=
  match s with
  | EmptyString => EmptyString
  | String c r =>
      if is_word c || is_space c then String c (keep_word_space r)
      else keep_word_space r
  end.

(** [s.split(sep)] for a one-unit separator: the current piece is
    accumulated in [cur]; the result always has at least one piece. *)
Fixpoint split_from (sep : ascii) (cur : string) (s : string) : list string :=
  match s with
  | EmptyString => [cur]
  | String c r =>
      if Ascii.eqb c sep then cur :: split_from sep EmptyString r
      else split_from sep (cur +:+ String c EmptyString) r
  end.

Definition split (sep : ascii) (s : string) : list string :=
  split_from sep EmptyString s.

(** [l.join(sep)] *)
Fixpoint join (sep : string) (l : list string) : string :=
  match l with
  | [] => EmptyString
  | [x] => x
  | x :: r => x +:+ sep +:+ join sep r
  end.

(** Decimal rendering of a number inside a template literal. *)
Definition show_nat (n : nat) : string :=
  NilEmpty.string_of_uint (Nat.to_uint n).

Definition show_Z (z : Z) : string :=
  NilEmpty.string_of_int (Z.to_int z).

End JsString.

(** ** [JSON.parse] as a recogniser

    [JSON.parse(text)] throws exactly when [text] is not a JSON text.  The
    grammar is read one code unit at a time by a pushdown automaton: the
    mode says what may come next, the stack which arrays and objects are
    open. *)

Module Json.
Import JsString.

Inductive ctx := InArr | InObj.

Inductive mode :=
| Value                      (* a value must start *)
| ValueOrClose               (* just after an opening bracket *)
| KeyOrClose                 (* just after an opening brace *)
| Key                        (* after a comma inside an object *)
| Colon                      (* after a member name *)
| After                      (* after a complete value *)
| Str (key : bool)           (* inside a string *)
| Esc (key : bool)           (* after a backslash inside a string *)
| Hex (key : bool) (n : nat) (* inside a \u escape, [S n] digits to come *)
| Minus | Zero | Int | Dot | Frac | Exp | ExpSign | ExpDigits
| Lit (rest : string).       (* inside true, false or null *)

Definition json_ws (c : ascii) : bool :=
  ((code c =? 32) || (code c =? 9) || (code c =? 10) || (code c =? 13))%N.

Definition is_hex (c : ascii) : bool :=
  is_digit c || in_range 65 70 c || in_range 97 102 c.

Definition is_escape (c : ascii) : bool :=
  existsb (Ascii.eqb c) [DQUOTE; BACKSLASH; "/"; "b"; "f"; "n"; "r"; "t"]%char.

Definition is_exp (c : ascii) : bool :=
  Ascii.eqb c "e" || Ascii.eqb c "E".

Definition start_value (c : ascii) (stk : list ctx) : option (mode * list ctx) :=
  if Ascii.eqb c "{" then Some (KeyOrClose, InObj :: stk)
  else if Ascii.eqb c "[" then Some (ValueOrClose, InArr :: stk)
  else if Ascii.eqb c DQUOTE then Some (Str false, stk)
  else if Ascii.eqb c "-" then Some (Minus, stk)
  else if Ascii.eqb c "0" then Some (Zero, stk)
  else if is_digit c then Some (Int, stk)
  else if Ascii.eqb c "t" then Some (Lit "rue", stk)
  else if Ascii.eqb c "f" then Some (Lit "alse", stk)
  else if Ascii.eqb c "n" then Some (Lit "ull", stk)
  else None.

Definition close (k : ctx) (stk : list ctx) : option (mode * list ctx) :=
  match k, stk with
  | InArr, InArr :: r => Some (After, r)
  | InObj, InObj :: r => Some (After, r)
  | _, _ => None
  end.

Definition after_value (c : ascii) (stk : list ctx) : option (mode * list ctx) :=
  if json_ws c then Some (After, stk)
  else if Ascii.eqb c "," then
    match stk with
    | InArr :: _ => Some (Value, stk)
    | InObj :: _ => Some (Key, stk)
    | [] => None
    end
  else if Ascii.eqb c "]" then close InArr stk
  else if Ascii.eqb c "}" then close InObj stk
  else None.

Definition end_string (key : bool) : mode := if key then Colon else After.

Definition step (m : mode) (stk : list ctx) (c : ascii) : option (mode * list ctx) :=
  match m with
  | Value => if json_ws c then Some (Value, stk) else start_value c stk
  | ValueOrClose =>
      if json_ws c then Some (ValueOrClose, stk)
      else if Ascii.eqb c "]" then close InArr stk
      else start_value c stk
  | KeyOrClose =>
      if json_ws c then Some (KeyOrClose, stk)
      else if Ascii.eqb c "}" then close InObj stk
      else if Ascii.eqb c DQUOTE then Some (Str true, stk)
      else None
  | Key =>
      if json_ws c then Some (Key, stk)
      else if Ascii.eqb c DQUOTE then Some (Str true, stk)
      else None
  | Colon =>
      if json_ws c then Some (Colon, stk)
      else if Ascii.eqb c ":" then Some (Value, stk)
      else None
  | After => after_value c stk
  | Str k =>
      if Ascii.eqb c DQUOTE then Some (end_string k, stk)
      else if Ascii.eqb c BACKSLASH then Some (Esc k, stk)
      else if (code c <? 32)%N then None
      else Some (Str k, stk)
  | Esc k =>
      if is_escape c then Some (Str k, stk)
      else if Ascii.eqb c "u" then Some (Hex k 3, stk)
      else None
  | Hex k n =>
      if is_hex c then
        match n with
        | O => Some (Str k, stk)
        | S n' => Some (Hex k n', stk)
        end
      else None
  | Minus =>
      if Ascii.eqb c "0" then Some (Zero, stk)
      else if is_digit c then Some (Int, stk)
      else None
  | Zero =>
      if Ascii.eqb c "." then Some (Dot, stk)
      else if is_exp c then Some (Exp, stk)
      else after_value c stk
  | Int =>
      if is_digit c then Some (Int, stk)
      else if Ascii.eqb c "." then Some (Dot, stk)
      else if is_exp c then Some (Exp, stk)
      else after_value c stk
  | Dot => if is_digit c then Some (Frac, stk) else None
  | Frac =>
      if is_digit c then Some (Frac, stk)
      else if is_exp c then Some (Exp, stk)
      else after_value c stk
  | Exp =>
      if Ascii.eqb c "+" || Ascii.eqb c "-" then Some (ExpSign, stk)
      else if is_digit c then Some (ExpDigits, stk)
      else None
  | ExpSign => if is_digit c then Some (ExpDigits, stk) else None
  | ExpDigits =>
      if is_digit c then Some (ExpDigits, stk) else after_value c stk
  | Lit rest =>
      match rest with
      | String x rest' =>
          if Ascii.eqb c x then
            Some (if is_empty rest' then After else Lit rest', stk)
          else None
      | EmptyString => None
      end
  end.

Definition accepting (m : mode) (stk : list ctx) : bool :=
  match stk, m with
  | [], (After | Zero | Int | Frac | ExpDigits) => true
  | _, _ => false
  end.

Fixpoint run (m : mode) (stk : list ctx) (s : string) : bool :=
  match s with
  | EmptyString => accepting m stk
  | String c r =>
      match step m stk c with
      | Some (m', stk') => run m' stk' r
      | None => false
      end
  end.

(** [json_valid s] holds when [JSON.parse(s)] returns. *)
Definition json_valid (s : string) : bool := run Value [] s.

End Json.

(** ** [src/lib/deck-generator.ts] *)

Module DeckGenerator.
Import JsString JsNumber.

Definition FENCE : string := "```".
Definition FENCE_JSON : string := "```json".
Definition NL : string := String LF EmptyString.

(** The alternatives of the conversational-prefix pattern, in the order the
    pattern lists them. *)
Definition conversational : list string :=
  ["okay"; "sure"; "here"; "certainly"; "here's"; "here is"].

Fixpoint first_alternative (alts : list string) (s : string) : option string :=
  match alts with
  | [] => None
  | a :: alts' =>
      match strip_prefix_ci a s with
      | Some r => Some r
      | None => first_alternative alts' s
      end
  end.

Definition optional_punct (s : string) : string :=
  match s with
  | String c r => if Ascii.eqb c "," || Ascii.eqb c ":" then r else s
  | EmptyString => s
  end.

(** [s.replace(/^(Okay|Sure|Here|Certainly|Here's|Here is)[,:]?\s*/i, '')]:
    once an alternative matches, the optional punctuation and the
    whitespace run cannot fail, so the first matching alternative wins. *)
Definition strip_conversational (s : string) : string :=
  match first_alternative conversational s with
  | Some r => trimStart (optional_punct r)
  | None => s
  end.

Definition strip_fences (cleaned : string) : string :=
  if startsWith FENCE_JSON cleaned then
    remove_suffix (NL +:+ FENCE) (remove_prefix (FENCE_JSON +:+ NL) cleaned)
  else if startsWith FENCE cleaned then
    remove_suffix (NL +:+ FENCE) (remove_prefix (FENCE +:+ NL) cleaned)
  else cleaned.

Definition fix_escapes (cleaned : string) : string :=
  replace2 BACKSLASH QUOTE (String QUOTE EmptyString)
    (replace2 BACKSLASH DQUOTE (String DQUOTE EmptyString)
      (replace2 BACKSLASH BACKSLASH (String BACKSLASH EmptyString)
        (replace2 BACKSLASH "n" " " cleaned))).

Definition cleanJSONResponse (response : string) : string :=
  let cleaned := trim response in
  let cleaned := strip_fences cleaned in
  let cleaned := strip_conversational cleaned in
  if Json.json_valid cleaned then cleaned
  else trim (fix_escapes cleaned).

(** *** Outlines *)

Record Slot := {
  slot_title : string;
  slot_layout : string;
  slot_section : string
}.

(** A section as parsed: the code reads [section.slides?.length || 0], so
    [slides] may be absent. *)
Record Section := {
  name : string;
  slides : option (list Slot)
}.

(** What [JSON.parse] yields for the outline reply: the code reads
    [parsed.sections?.reduce(...)], so [sections] may be absent. *)
Record ParsedOutline := {
  parsed_title : string;
  parsed_sections : option (list Section)
}.

(** What [generateOutline] returns. *)
Record Outline := {
  outline_title : string;
  sections : list Section
}.

Record OutlineParams := {
  slide_count : Q;
  audience : string;
  tone : string;
  topic_or_prompt_or_instructions : string;
  doc_summary_or_empty : string
}.

(** Reading a property of [undefined] throws. *)
Definition defined {A} (o : option A) : result A :=
  match o with
  | Some a => Ok a
  | None => Throw TypeError
  end.

(** [section.slides?.length || 0] *)
Definition slides_length (sec : Section) : Z :=
  match slides sec with
  | Some l => Z.of_nat (length l)
  | None => 0
  end.

(** [sections.reduce((sum, section) => sum + (section.slides?.length || 0), 0)] *)
Definition count_slides (ss : list Section) : Z :=
  fold_left (fun sum sec => sum + slides_length sec) ss 0.

(** [parsed.sections?.reduce(...) || 0] *)
Definition totalSlides (o : ParsedOutline) : Z :=
  match parsed_sections o with
  | Some ss => count_slides ss
  | None => 0
  end.

(** [a[a.length - 1]] together with the elements before it. *)
Fixpoint split_last {A} (l : list A) : option (list A * A) :=
  match l with
  | [] => None
  | x :: r =>
      match split_last r with
      | None => Some ([], x)
      | Some (init, y) => Some (x :: init, y)
      end
  end.

(** [a.slice(0, e)]: [e] is read as an integer, and a negative one counts
    from the end. *)
Definition slice0 {A} (l : list A) (e : Q) : list A :=
  let len := Z.of_nat (length l) in
  let relativeEnd := ToIntegerOrInfinity e in
  let k := if relativeEnd <? 0 then Z.max (len + relativeEnd) 0
           else Z.min relativeEnd len in
  take (Z.to_nat k) l.

Definition additional (section_name : string) (i : nat) : Slot :=
  {| slot_title := "Additional Key Point " +:+ show_nat (i + 1);
     slot_layout := "title_bullets";
     slot_section := section_name |}.

(** [for (let i = 0; i < needed; i++) lastSection.slides.push(...)]:
    [fuel] iterations remain and [i] is the loop counter; the loop is
    entered with [iterations needed] as its fuel. *)
Fixpoint push_additional (section_name : string) (i fuel : nat)
    (acc : list Slot) : list Slot :=
  match fuel with
  | O => acc
  | S fuel' =>
      push_additional section_name (S i) fuel' (acc ++ [additional section_name i])
  end.

(** The adjustment block shared, word for word, by [generateOutline]
    (lines 160-176) and by the route handler (lines 152-168). *)
Definition adjust_last (slide_count : Q) (total : Z) (ss : list Section)
    : result (list Section) :=
  if ltb (inject_Z total) slide_count then
    '(init, lastSection) ← defined (split_last ss);
    let needed := (slide_count - inject_Z total)%Q in
    l ← defined (slides lastSection);
    Ok (init ++ [ {| name := name lastSection;
                     slides := Some (push_additional (name lastSection) 0
                                       (iterations needed) l) |} ])
  else if gtb (inject_Z total) slide_count then
    '(init, lastSection) ← defined (split_last ss);
    let toRemove := (inject_Z total - slide_count)%Q in
    l ← defined (slides lastSection);
    Ok (init ++ [ {| name := name lastSection;
                     slides := Some (slice0 l (inject_Z (Z.of_nat (length l))
                                               - toRemove)%Q) |} ])
  else Ok ss.

(** [Array.from({ length: n }, (_, i) => f i)] *)
Definition array_from {A} (n : Q) (f : nat -> A) : list A :=
  map f (seq 0 (ToLength n)).

Definition fallback_outline (p : OutlineParams) : Outline :=
  let topic := topic_or_prompt_or_instructions p in
  let slideCount := slide_count p in
  let remaining := slideCount in
  let openingSlides := Qmin 2 remaining in
  let opening :=
    {| name := "Opening";
       slides := Some (array_from openingSlides (fun i =>
         {| slot_title := if Nat.eqb i 0
                          then "**" +:+ topic +:+ "**: What You Need to Know"
                          else "Current State & Trends";
            slot_layout := "title_bullets";
            slot_section := "Opening" |})) |} in
  let remaining := (remaining - openingSlides)%Q in
  let analysisSlides := Qmax 1 (remaining - 2) in
  let analysis :=
    {| name := "Analysis";
       slides := Some (array_from analysisSlides (fun i =>
         {| slot_title := if Nat.eqb i 0 then "Key Challenges & Opportunities"
                          else if Nat.eqb i 1 then "Data-Driven Insights"
                          else "Key Point " +:+ show_nat (i + 1);
            slot_layout := if Nat.eqb i 1 && gtb analysisSlides 1
                           then "chart" else "title_bullets";
            slot_section := "Analysis" |})) |} in
  let remaining := (remaining - analysisSlides)%Q in
  let conclusion :=
    {| name := "Conclusion";
       slides := Some (array_from remaining (fun i =>
         {| slot_title := if Nat.eqb i 0 then "Impact & Results"
                          else "Next Steps & Takeaways";
            slot_layout := "title_bullets";
            slot_section := "Conclusion" |})) |} in
  {| outline_title := "**" +:+ topic +:+ "**: Key Insights & Analysis";
     sections := [opening; analysis] ++
                 (if gtb remaining 0 then [conclusion] else []) |}.

(** The [try] block of [generateOutline].  [reply] is what lines 149-151
    yield: the parsed reply, [Ok None] when it parses to [null], or the
    error thrown by the LLM call, by the cleaning or by [JSON.parse]. *)
Definition generateOutline_try (p : OutlineParams)
    (reply : result (option ParsedOutline)) : result Outline :=
  parsed ← reply;
  parsed ← defined parsed;
  let total := totalSlides parsed in
  adjusted ←
    (if negb (Qeq_bool (inject_Z total) (slide_count p)) then
       ss ← defined (parsed_sections parsed);
       ss' ← adjust_last (slide_count p) total ss;
       Ok (Some ss')
     else Ok (parsed_sections parsed));
  (* final validation: [parsed.sections.reduce(...)] *)
  ss ← defined adjusted;
  Ok {| outline_title := parsed_title parsed; sections := ss |}.

Definition generateOutline (p : OutlineParams)
    (reply : result (option ParsedOutline)) : Outline :=
  match generateOutline_try p reply with
  | Ok o => o
  | Throw _ => fallback_outline p
  end.

(** *** Slides *)

Record ChartSpec := {
  chart_type : string;
  caption : option string
}.

(** The [image] member as parsed: the code tests [!parsed.image.source]. *)
Record ParsedImage := {
  parsed_prompt : string;
  parsed_alt : string;
  parsed_source : option string
}.

Record Image := {
  prompt : string;
  alt : string;
  source : string
}.

(** What [JSON.parse] yields for a slide reply. *)
Record ParsedDraft := {
  parsed_draft_title : string;
  parsed_bullets : list string;
  parsed_notes : string;
  parsed_chart_spec : option ChartSpec;
  parsed_citations : option (list string);
  parsed_image : option ParsedImage
}.

(** What [generateSlide] returns. *)
Record Draft := {
  title : string;
  bullets : list string;
  notes : string;
  chart_spec : option ChartSpec;
  citations : option (list string);
  image : option Image
}.

Record SlideParams := {
  slide_context : Slot;
  per_slide_extracted_text_or_empty : string
}.

(** [x || d] on strings: the empty string is falsy. *)
Definition or_else (x d : string) : string :=
  if is_empty x then d else x.

Definition hex_digit (n : N) : ascii :=
  if (n <? 10)%N then ascii_of_N (48 + n) else ascii_of_N (55 + n).

Definition percent (byte : N) : string :=
  String "%" (String (hex_digit (byte / 16)) (String (hex_digit (byte mod 16)) EmptyString)).

(** The characters [encodeURIComponent] leaves alone. *)
Definition is_unreserved (c : ascii) : bool :=
  is_word c || existsb (Ascii.eqb c) ["-"; "."; "!"; "~"; "*"; QUOTE; "("; ")"]%char.

(** A reserved code unit becomes the percent-escapes of its UTF-8 bytes:
    one byte below 128, two bytes from 128 to 255. *)
Definition encode_unit (c : ascii) : string :=
  if is_unreserved c then String c EmptyString
  else if (code c <? 128)%N then percent (code c)
  else percent (192 + code c / 64) +:+ percent (128 + code c mod 64).

Fixpoint encodeURIComponent (s : string) : string :=
  match s with
  | EmptyString => EmptyString
  | String c r => encode_unit c +:+ encodeURIComponent r
  end.

Definition UNSPLASH : string := "https://source.unsplash.com/800x600/?".
Definition FALLBACK_KEYWORDS : string := "business,presentation,professional".

(** The keyword list of [generateUnsplashUrl], before [join]. *)
Definition keywords (topic : string) : list string :=
  take 3 (filter (fun word => 3 < String.length word)%nat
            (split " " (keep_word_space topic))).

Definition generateUnsplashUrl (topic : string) : string :=
  let keywords := join "," (keywords topic) in
  let searchTerm := or_else keywords FALLBACK_KEYWORDS in
  UNSPLASH +:+ encodeURIComponent searchTerm.

(** [year] is [new Date().getFullYear()]. *)
Definition generateCitations (year : Z) (topic : string) : list string :=
  [ "Industry research on " +:+ topic +:+ ", " +:+ show_Z year;
    "Market analysis and trends, " +:+ show_Z (year - 1) +:+ "-" +:+ show_Z year ].

Definition falsy (o : option string) : bool :=
  match o with
  | None => true
  | Some s => is_empty s
  end.

(** Lines 317-326: an image is made or its source replaced. *)
Definition ensure_image (slide_title : string) (img : option ParsedImage) : Image :=
  match img with
  | None =>
      {| prompt := "Professional " +:+ slide_title +:+ " diagram with modern, clean design";
         alt := "Visual representation of " +:+ slide_title;
         source := generateUnsplashUrl slide_title |}
  | Some i =>
      if falsy (parsed_source i) || bool_decide (parsed_source i = Some "placeholder")
      then {| prompt := parsed_prompt i; alt := parsed_alt i;
              source := generateUnsplashUrl slide_title |}
      else {| prompt := parsed_prompt i; alt := parsed_alt i;
              source := default EmptyString (parsed_source i) |}
  end.

(** The [try] block of [generateSlide].  [reply] is what lines 312-314
    yield; [Ok None] is a reply that parses to [null]. *)
Definition generateSlide_try (params : SlideParams)
    (reply : result (option ParsedDraft)) : result Draft :=
  parsed ← reply;
  d ← defined parsed;
  Ok {| title := parsed_draft_title d;
        bullets := parsed_bullets d;
        notes := parsed_notes d;
        chart_spec := parsed_chart_spec d;
        citations := parsed_citations d;
        image := Some (ensure_image (slot_title (slide_context params)) (parsed_image d)) |}.

Definition fallback_slide (year : Z) (params : SlideParams) : Draft :=
  let topic := or_else (slot_title (slide_context params)) "Key Concepts" in
  {| title := "**" +:+ topic +:+ "**: Overview";
     bullets := [ "**Core Concept**: " +:+ topic +:+ " fundamentals";
                  "**Key Metrics**: Measurable outcomes";
                  "**Innovation**: Latest developments" ];
     notes := EmptyString;
     chart_spec := None;
     citations := Some (generateCitations year topic);
     image := Some
       {| prompt := "Modern infographic showing " +:+ topic +:+
                    " with icons, arrows, and data visualizations in a clean, professional style";
          alt := topic +:+ " concept diagram";
          source := generateUnsplashUrl topic |} |}.

Definition generateSlide (year : Z) (params : SlideParams)
    (reply : result (option ParsedDraft)) : Draft :=
  match generateSlide_try params reply with
  | Ok d => d
  | Throw _ => fallback_slide year params
  end.

(** *** Visuals *)

Record Visual := {
  visual_prompt : string;
  visual_alt : string
}.

Record VisualParams := {
  visual_title : string;
  visual_bullets : list string;
  theme_style : string
}.

(** [generateVisual] returns whatever the reply parses to, [null]
    ([None]) included; the fallback stands in only for a thrown error. *)
Definition generateVisual (params : VisualParams)
    (reply : result (option Visual)) : option Visual :=
  match reply with
  | Ok parsed => parsed
  | Throw _ =>
      Some {| visual_prompt := "Minimalist illustration of " +:+ visual_title params;
              visual_alt := "Visual representation of " +:+ visual_title params |}
  end.

(** *** Helper stubs *)

Definition harvestFactsForSlide (docSummary slide_title : string) : string := EmptyString.
Definition tableMatchesTitle (docSummary slide_title : string) : bool := false.
Definition tableForTitle (docSummary slide_title : string) : option ChartSpec := None.
Definition attachChartSpec (draft : Draft) (table : option ChartSpec) : Draft := draft.

(** *** Documents *)

(** [name.replace(/\.[^.]+$/, '')]: the search tries every start position
    from the left; a match is a dot followed, up to the end, by one or more
    units that are not dots. *)
Fixpoint no_dot (s : string) : bool :=
  match s with
  | EmptyString => true
  | String c r => negb (Ascii.eqb c ".") && no_dot r
  end.

Fixpoint remove_extension (s : string) : string :=
  match s with
  | EmptyString => EmptyString
  | String c r =>
      if Ascii.eqb c "." && negb (is_empty r) && no_dot r then EmptyString
      else String c (remove_extension r)
  end.

(** [url.split('/').pop() || 'document'] and the extension's removal. *)
Definition file_name (url : string) : string :=
  let name := or_else (List.last (split "/" url) EmptyString) "document" in
  remove_extension name.

Definition ADVICE : string :=
  ". " +:+ NL +:+ "  " +:+ NL +:+
  "Note: Document parsing is currently in development. For best results:" +:+ NL +:+
  "- Provide a detailed prompt describing the document content" +:+ NL +:+
  "- Include key topics, data, and insights you want in the presentation" +:+ NL +:+
  "- Specify the document structure if relevant (e.g., " +:+ String DQUOTE
  "The document contains market analysis, competitor data, and growth projections" +:+
  String DQUOTE ")".

(** [docUrls] is [None] when the argument is [undefined] or [null]. *)
Definition parseDocuments (docUrls : option (list string)) : string :=
  match docUrls with
  | None | Some [] => EmptyString
  | Some urls =>
      let fileNames := map file_name urls in
      "Documents uploaded: " +:+ join ", " fileNames +:+ ADVICE
  end.

End DeckGenerator.

(** ** [src/app/api/generate-deck/route.ts] *)

Module Route.
Import JsString JsNumber.

(** *** The request body

    [request.json()] yields a JSON value; an object is a finite map from
    member names to values, and a number is any rational (a literal too
    large for a double, which [JSON.parse] reads as [Infinity] and the
    schema refuses as too big, is not among the values). *)

#[warnings="-register-all"]
Inductive jsval :=
| JNull
| JBool (b : bool)
| JNum (n : Q)
| JStr (s : string)
| JArr (items : list jsval)
| JObj (members : gmap string jsval).

(** *** The schema

    A zod schema parses an optional input (absent members are [undefined])
    at a path and either returns the parsed value or reports issues; an
    object schema gathers the issues of all its members. *)

Inductive issue_code := invalid_type | invalid_enum_value | too_small | too_big.

Record issue := {
  path : list string;
  issue_kind : issue_code
}.

Definition parsed (A : Type) : Type := A + list issue.

Definition schema (A : Type) : Type := list string -> option jsval -> parsed A.

Definition fail {A} (p : list string) (c : issue_code) : parsed A :=
  inr [ {| path := p; issue_kind := c |} ].

(** Apply a parsed constructor to a parsed member, keeping every issue. *)
Definition ap {A B} (f : parsed (A -> B)) (a : parsed A) : parsed B :=
  match f, a with
  | inl g, inl x => inl (g x)
  | inl _, inr e => inr e
  | inr e, inl _ => inr e
  | inr e1, inr e2 => inr (e1 ++ e2)
  end.

Infix "<*>" := ap (at level 50, left associativity).

Definition z_string : schema string := fun p v =>
  match v with
  | Some (JStr s) => inl s
  | _ => fail p invalid_type
  end.

Definition z_boolean : schema bool := fun p v =>
  match v with
  | Some (JBool b) => inl b
  | _ => fail p invalid_type
  end.

Definition z_enum (values : list string) : schema string := fun p v =>
  match v with
  | Some (JStr s) => if bool_decide (s ∈ values) then inl s else fail p invalid_enum_value
  | _ => fail p invalid_type
  end.

(** [z.number().min(lo).max(hi)]: every number from [lo] to [hi] passes,
    whole or not. *)
Definition z_number (lo hi : Q) : schema Q := fun p v =>
  match v with
  | Some (JNum n) =>
      if ltb n lo then fail p too_small
      else if gtb n hi then fail p too_big
      else inl n
  | _ => fail p invalid_type
  end.

Definition optional {A} (s : schema A) : schema (option A) := fun p v =>
  match v with
  | None => inl None
  | Some _ =>
      match s p v with
      | inl a => inl (Some a)
      | inr e => inr e
      end
  end.

Definition with_default {A} (s : schema A) (d : A) : schema A := fun p v =>
  match v with
  | None => inl d
  | Some _ => s p v
  end.

Fixpoint z_items {A} (s : schema A) (p : list string) (i : nat)
    (items : list jsval) : parsed (list A) :=
  match items with
  | [] => inl []
  | x :: r => inl cons <*> s (p ++ [show_nat i]) (Some x) <*> z_items s p (S i) r
  end.

Definition z_array {A} (s : schema A) : schema (list A) := fun p v =>
  match v with
  | Some (JArr items) => z_items s p 0 items
  | _ => fail p invalid_type
  end.

(** The member [k] of an object schema's input. *)
Definition member {A} (s : schema A) (p : list string) (k : string)
    (m : gmap string jsval) : parsed A :=
  s (p ++ [k]) (m !! k).

Record Assets := {
  doc_urls : option (list string);
  image_urls : option (list string);
  xlsx_urls : option (list string)
}.

Record GenerateDeckRequest := {
  mode : string;
  topic_or_prompt : option string;
  instructions : option string;
  tone : string;
  audience : string;
  slide_count : Q;
  theme : string;
  live_widgets : bool;
  assets : option Assets
}.

Definition MODES : list string := ["quick_prompt"; "doc_to_deck"].
Definition TONES : list string := ["professional"; "casual"; "academic"; "persuasive"].
Definition AUDIENCES : list string := ["general"; "executives"; "technical"; "students"].
Definition THEMES : list string := ["deep_space"; "ultra_violet"; "minimal"; "corporate"].

Definition AssetsSchema : schema Assets := fun p v =>
  match v with
  | Some (JObj m) =>
      inl Build_Assets
        <*> member (optional (z_array z_string)) p "doc_urls" m
        <*> member (optional (z_array z_string)) p "image_urls" m
        <*> member (optional (z_array z_string)) p "xlsx_urls" m
  | _ => fail p invalid_type
  end.

Definition GenerateDeckRequestSchema (body : jsval) : parsed GenerateDeckRequest :=
  match body with
  | JObj m =>
      inl Build_GenerateDeckRequest
        <*> member (z_enum MODES) [] "mode" m
        <*> member (optional z_string) [] "topic_or_prompt" m
        <*> member (optional z_string) [] "instructions" m
        <*> member (with_default (z_enum TONES) "professional") [] "tone" m
        <*> member (with_default (z_enum AUDIENCES) "general") [] "audience" m
        <*> member (with_default (z_number 3 50) 10%Q) [] "slide_count" m
        <*> member (with_default (z_enum THEMES) "deep_space") [] "theme" m
        <*> member (with_default z_boolean false) [] "live_widgets" m
        <*> member (optional AssetsSchema) [] "assets" m
  | _ => fail [] invalid_type
  end.

(** *** Response types *)

Record SlideImage := {
  image_prompt : string;
  image_alt : string;
  image_source : string
}.

Record Slide := {
  layout : string;
  title : string;
  bullets : list string;
  notes : string;
  chart_spec : option DeckGenerator.ChartSpec;
  image : SlideImage;
  citations : list string
}.

Record Deck := {
  deck_title : string;
  deck_theme : string;
  slides : list Slide
}.

Record Exports := {
  pptx_url : string;
  pdf_url : string;
  json_url : string
}.

Record GenerateDeckResponse := {
  deck : Deck;
  exports : Exports
}.

(** The three ways the handler answers.  The text of a status-500 body is
    derived from the error's message and is not modelled. *)
Inductive Response :=
| Json200 (body : GenerateDeckResponse)
| Json400 (error : string) (details : list (string * issue_code))
| Json500 (cause : failure).

Definition status (r : Response) : Z :=
  match r with
  | Json200 _ => 200
  | Json400 _ _ => 400
  | Json500 _ => 500
  end.

(** [themes[theme].image_style] *)
Definition image_style (theme : string) : option string :=
  if String.eqb theme "deep_space" then Some "dark, subtle starfield, soft glow, high contrast"
  else if String.eqb theme "ultra_violet" then Some "vibrant violet gradients, glassmorphism, soft blur"
  else if String.eqb theme "minimal" then Some "clean, minimalist, high contrast, geometric"
  else if String.eqb theme "corporate" then Some "professional, clean, corporate blue accents"
  else None.

(** *** The environment

    The LLM's replies, as [JSON.parse] leaves them, for the outline call and
    for the slide and visual calls of the slide numbered [currentSlide];
    for each call, whether the timer it is raced against rejects first; the
    successive readings of [Date.now()] and the current year. *)

Record Env := {
  outline_reply : result (option DeckGenerator.ParsedOutline);
  outline_late : bool;
  slide_reply : nat -> result (option DeckGenerator.ParsedDraft);
  slide_late : nat -> bool;
  visual_reply : nat -> result (option DeckGenerator.Visual);
  visual_late : nat -> bool;
  now : nat -> Z;
  year : Z
}.

(** The LLM calls issued, in order. *)
Inductive call :=
| OutlineCall
| SlideCall (currentSlide : nat)
| VisualCall (currentSlide : nat).

(** [await Promise.race([p, timer])] *)
Definition race {A} (late : bool) (p : A) : result A :=
  if late then Throw TimedOut else Ok p.

(** [outline.sections.reduce((sum, section) => sum + section.slides.length, 0)] *)
Fixpoint sum_slides (sum : Z) (ss : list DeckGenerator.Section) : result Z :=
  match ss with
  | [] => Ok sum
  | sec :: r =>
      l ← DeckGenerator.defined (DeckGenerator.slides sec);
      sum_slides (sum + Z.of_nat (length l)) r
  end.

(** The [try] block of one iteration: the calls it issued and its outcome. *)
Definition slide_try (env : Env) (docSummary theme : string)
    (currentSlide : nat) (slot : DeckGenerator.Slot) : list call * result Slide :=
  let perSlideFacts :=
    if is_empty docSummary then EmptyString
    else DeckGenerator.harvestFactsForSlide docSummary (DeckGenerator.slot_title slot) in
  match race (slide_late env currentSlide)
          (DeckGenerator.generateSlide (year env)
             {| DeckGenerator.slide_context := slot;
                DeckGenerator.per_slide_extracted_text_or_empty := perSlideFacts |}
             (slide_reply env currentSlide)) with
  | Throw e => ([SlideCall currentSlide], Throw e)
  | Ok draft =>
      let withChart :=
        if negb (bool_decide (is_Some (DeckGenerator.chart_spec draft)))
           && DeckGenerator.tableMatchesTitle docSummary (DeckGenerator.slot_title slot)
        then DeckGenerator.attachChartSpec draft
               (DeckGenerator.tableForTitle docSummary (DeckGenerator.slot_title slot))
        else draft in
      match DeckGenerator.defined (image_style theme) with
      | Throw e => ([SlideCall currentSlide], Throw e)
      | Ok style =>
          ([SlideCall currentSlide; VisualCall currentSlide],
           visual ← race (visual_late env currentSlide)
                      (DeckGenerator.generateVisual
                         {| DeckGenerator.visual_title := DeckGenerator.title draft;
                            DeckGenerator.visual_bullets := DeckGenerator.bullets draft;
                            DeckGenerator.theme_style := style |}
                         (visual_reply env currentSlide));
           v ← DeckGenerator.defined visual;
           Ok {| layout := DeckGenerator.slot_layout slot;
                 title := DeckGenerator.title draft;
                 bullets := DeckGenerator.bullets draft;
                 notes := DeckGenerator.notes draft;
                 chart_spec := DeckGenerator.chart_spec withChart;
                 image := {| image_prompt := DeckGenerator.visual_prompt v;
                             image_alt := DeckGenerator.visual_alt v;
                             image_source := "generated" |};
                 citations := default [] (DeckGenerator.citations draft) |})
      end
  end.

(** The slide pushed by the [catch] of an iteration. *)
Definition placeholder (slot : DeckGenerator.Slot) : Slide :=
  {| layout := DeckGenerator.slot_layout slot;
     title := DeckGenerator.slot_title slot;
     bullets := ["Content generation in progress..."];
     notes := "This slide content is being generated.";
     chart_spec := None;
     image := {| image_prompt := "Visual for " +:+ DeckGenerator.slot_title slot;
                 image_alt := DeckGenerator.slot_title slot;
                 image_source := "generated" |};
     citations := [] |}.

(** The loop's variables: the [slides] array, [currentSlide], the calls
    issued so far, and the error that left the loop, if any. *)
Record LoopState := {
  loop_slides : list Slide;
  currentSlide : nat;
  calls : list call;
  thrown : option failure
}.

(** One iteration of the inner loop. *)
Definition slot_step (env : Env) (docSummary theme : string)
    (st : LoopState) (slot : DeckGenerator.Slot) : LoopState :=
  let n := S (currentSlide st) in
  let '(issued, outcome) := slide_try env docSummary theme n slot in
  {| loop_slides := loop_slides st ++
                    [match outcome with
                     | Ok slide => slide
                     | Throw _ => placeholder slot
                     end];
     currentSlide := n;
     calls := calls st ++ issued;
     thrown := thrown st |}.

(** One iteration of the outer loop; [for (const slot of section.slides)]
    throws when [slides] is absent, and a thrown error ends the loops. *)
Definition section_step (env : Env) (docSummary theme : string)
    (st : LoopState) (sec : DeckGenerator.Section) : LoopState :=
  match thrown st with
  | Some _ => st
  | None =>
      match DeckGenerator.slides sec with
      | Some l => fold_left (slot_step env docSummary theme) l st
      | None => {| loop_slides := loop_slides st; currentSlide := currentSlide st;
                   calls := calls st; thrown := Some TypeError |}
      end
  end.

(** [for (const section of outline.sections)] *)
Definition slide_loop (env : Env) (docSummary theme : string)
    (ss : list DeckGenerator.Section) (st : LoopState) : LoopState :=
  fold_left (section_step env docSummary theme) ss st.

(** Lines 147-169: the handler's own reconciliation. *)
Definition reconcile (slide_count : Q) (ss : list DeckGenerator.Section)
    : result (list DeckGenerator.Section) :=
  totalSlidesInOutline ← sum_slides 0 ss;
  if negb (Qeq_bool (inject_Z totalSlidesInOutline) slide_count)
  then DeckGenerator.adjust_last slide_count totalSlidesInOutline ss
  else Ok ss.

(** The body of the handler's [try] after validation: the calls issued and
    the outcome. *)
Definition generate (env : Env) (validatedData : GenerateDeckRequest)
    : list call * result GenerateDeckResponse :=
  let docSummary :=
    match assets validatedData with
    | Some a =>
        match doc_urls a with
        | Some urls =>
            if String.eqb (mode validatedData) "doc_to_deck"
            then DeckGenerator.parseDocuments (Some urls) else EmptyString
        | None => EmptyString
        end
    | None => EmptyString
    end in
  let params :=
    {| DeckGenerator.slide_count := slide_count validatedData;
       DeckGenerator.audience := audience validatedData;
       DeckGenerator.tone := tone validatedData;
       DeckGenerator.topic_or_prompt_or_instructions :=
         DeckGenerator.or_else (default EmptyString (topic_or_prompt validatedData))
           (DeckGenerator.or_else (default EmptyString (instructions validatedData)) EmptyString);
       DeckGenerator.doc_summary_or_empty := docSummary |} in
  match race (outline_late env)
          (DeckGenerator.generateOutline params (outline_reply env)) with
  | Throw e => ([OutlineCall], Throw e)
  | Ok outline =>
      match reconcile (slide_count validatedData) (DeckGenerator.sections outline) with
      | Throw e => ([OutlineCall], Throw e)
      | Ok ss =>
          (* line 173: the total is computed once more, for the log *)
          match sum_slides 0 ss with
          | Throw e => ([OutlineCall], Throw e)
          | Ok _ =>
              let st := slide_loop env docSummary (theme validatedData) ss
                          {| loop_slides := []; currentSlide := 0;
                             calls := [OutlineCall]; thrown := None |} in
              match thrown st with
              | Some e => (calls st, Throw e)
              | None =>
                  (calls st,
                   Ok {| deck := {| deck_title := DeckGenerator.outline_title outline;
                                    deck_theme := theme validatedData;
                                    slides := loop_slides st |};
                         exports :=
                           {| pptx_url := "export://deck-" +:+ show_Z (now env 0) +:+ ".pptx";
                              pdf_url := "export://deck-" +:+ show_Z (now env 1) +:+ ".pdf";
                              json_url := "export://deck-" +:+ show_Z (now env 2) +:+ ".json" |} |})
              end
          end
      end
  end.

(** [details: error.errors.map(e => ({ field: e.path.join('.'), ... }))] *)
Definition details_of (issues : list issue) : list (string * issue_code) :=
  map (fun e => (join "." (path e), issue_kind e)) issues.

(** The handler, from the parsed request body to the response, with the
    LLM calls it issued. *)
Definition POST (env : Env) (body : jsval) : list call * Response :=
  match GenerateDeckRequestSchema body with
  | inr issues => ([], Json400 "Invalid request data" (details_of issues))
  | inl validatedData =>
      match generate env validatedData with
      | (issued, Ok response) => (issued, Json200 response)
      | (issued, Throw e) => (issued, Json500 e)
      end
  end.

End Route.

(** ** The LLM client module: rate limiting *)

Module Llm.

Record RateEntry := {
  count : Z;
  resetTime : Z
}.

(** [checkRateLimit(ip, limit = 20, windowMs = 3600000)].  The module-level
    [rateLimitMap] is threaded through; [now] is [Date.now()]; an omitted
    argument is [None]. *)
Definition checkRateLimit (rateLimitMap : gmap string RateEntry) (now : Z)
    (ip : string) (limit windowMs : option Z) : bool * gmap string RateEntry :=
  let limit := default 20 limit in
  let windowMs := default 3600000 windowMs in
  let key := ip in
  let fresh := <[key := {| count := 1; resetTime := now + windowMs |}]> rateLimitMap in
  match rateLimitMap !! key with
  | None => (true, fresh)
  | Some current =>
      if now >? resetTime current then (true, fresh)
      else if count current >=? limit then (false, rateLimitMap)
      else (true, <[key := {| count := count current + 1;
                              resetTime := resetTime current |}]> rateLimitMap)
  end.

(** [n] successive calls with the same arguments at the same clock reading:
    the map they leave behind. *)
Fixpoint after_calls (n : nat) (rateLimitMap : gmap string RateEntry) (now : Z)
    (ip : string) (limit windowMs : option Z) : gmap string RateEntry :=
  match n with
  | O => rateLimitMap
  | S n' =>
      (checkRateLimit (after_calls n' rateLimitMap now ip limit windowMs)
         now ip limit windowMs).2
  end.

End Llm.

(** ** Vocabulary of the properties *)

Module Props.
Import JsString.

(** The first letters, under [/i], of the conversational prefixes. *)
Definition conversational_head (c : ascii) : bool :=
  existsb (Ascii.eqb (lower c)) ["o"; "s"; "h"; "c"]%char.

(** [s] has no code unit [c]. *)
Fixpoint free_of (c : ascii) (s : string) : bool :=
  match s with
  | EmptyString => true
  | String x r => negb (Ascii.eqb x c) && free_of c r
  end.

(** How the reconciliation may change the last section's slides [l] into
    [l']: a prefix is kept when there were too many slides, the
    ['Additional Key Point'] slides are appended when there were too few. *)
Definition patched (slide_count : Q) (total : Z) (section_name : string)
    (l l' : list DeckGenerator.Slot) : Prop :=
  ((slide_count < inject_Z total)%Q -> exists k, l' = take k l) /\
  ((inject_Z total < slide_count)%Q ->
   l' = l ++ map (DeckGenerator.additional section_name)
               (seq 0 (JsNumber.iterations (slide_count - inject_Z total)))).

(** The replies on which the [try] block of [generateOutline] throws: the
    LLM call, the cleaning or [JSON.parse] threw; the reply parsed to
    [null]; it has no [sections]; or the total differs from the requested
    count and there is no last section, or the last section has no slide
    list, for the adjustment to work on. *)
Inductive throws (slide_count : Q)
    : result (option DeckGenerator.ParsedOutline) -> Prop :=
| call_threw e : throws slide_count (Throw e)
| parsed_null : throws slide_count (Ok None)
| no_sections parsed :
    DeckGenerator.parsed_sections parsed = None ->
    throws slide_count (Ok (Some parsed))
| no_last_section parsed :
    DeckGenerator.parsed_sections parsed = Some [] ->
    ~ (inject_Z (DeckGenerator.totalSlides parsed) == slide_count)%Q ->
    throws slide_count (Ok (Some parsed))
| no_slides parsed init lastSection :
    DeckGenerator.parsed_sections parsed = Some (init ++ [lastSection]) ->
    DeckGenerator.slides lastSection = None ->
    ~ (inject_Z (DeckGenerator.totalSlides parsed) == slide_count)%Q ->
    throws slide_count (Ok (Some parsed)).

(** The section [sec] with its slides replaced by [l']. *)
Definition with_slides (sec : DeckGenerator.Section)
    (l' : list DeckGenerator.Slot) : DeckGenerator.Section :=
  {| DeckGenerator.name := DeckGenerator.name sec;
     DeckGenerator.slides := Some l' |}.

(** A sample slide request and a sample reply without an image. *)
Definition sample_slide_params : DeckGenerator.SlideParams :=
  {| DeckGenerator.slide_context :=
       {| DeckGenerator.slot_title := "Market Growth: 2024 Outlook";
          DeckGenerator.slot_layout := "title_bullets";
          DeckGenerator.slot_section := "Opening" |};
     DeckGenerator.per_slide_extracted_text_or_empty := EmptyString |}.

Definition sample_draft : DeckGenerator.ParsedDraft :=
  {| DeckGenerator.parsed_draft_title := "Market Growth";
     DeckGenerator.parsed_bullets := ["Revenue up"];
     DeckGenerator.parsed_notes := EmptyString;
     DeckGenerator.parsed_chart_spec := None;
     DeckGenerator.parsed_citations := None;
     DeckGenerator.parsed_image := None |}.

Definition sample_outline_params (n : Q) : DeckGenerator.OutlineParams :=
  {| DeckGenerator.slide_count := n;
     DeckGenerator.audience := "general";
     DeckGenerator.tone := "professional";
     DeckGenerator.topic_or_prompt_or_instructions := "Solar power";
     DeckGenerator.doc_summary_or_empty := EmptyString |}.

Definition sample_slot (t : string) : DeckGenerator.Slot :=
  {| DeckGenerator.slot_title := t;
     DeckGenerator.slot_layout := "title_bullets";
     DeckGenerator.slot_section := "Body" |}.

(** An outline reply with eleven slides, ten of them before the last
    section, for a request of three slides. *)
Definition long_outline : DeckGenerator.ParsedOutline :=
  {| DeckGenerator.parsed_title := "Solar power";
     DeckGenerator.parsed_sections := Some
       [ {| DeckGenerator.name := "Body";
            DeckGenerator.slides := Some (map sample_slot
              ["b1"; "b2"; "b3"; "b4"; "b5"; "b6"; "b7"; "b8"; "b9"; "b10"]) |};
         {| DeckGenerator.name := "Wrap-up";
            DeckGenerator.slides := Some [sample_slot "w1"] |} ] |}.

Definition long_outline_env : Route.Env :=
  {| Route.outline_reply := Ok (Some long_outline);
     Route.outline_late := false;
     Route.slide_reply := fun _ => Throw LlmError;
     Route.slide_late := fun _ => false;
     Route.visual_reply := fun _ => Throw LlmError;
     Route.visual_late := fun _ => false;
     Route.now := fun _ => 1700000000000;
     Route.year := 2025 |}.

Definition three_slides_body : Route.jsval :=
  Route.JObj (<["mode" := Route.JStr "quick_prompt"]>
             (<["topic_or_prompt" := Route.JStr "Solar power"]>
             (<["slide_count" := Route.JNum 3]> ∅))).

(** The slots of an outline, section after section. *)
Definition slots_of (ss : list DeckGenerator.Section) : list DeckGenerator.Slot :=
  flat_map (fun sec => default [] (DeckGenerator.slides sec)) ss.

(** The slide an iteration pushes for [slot] when it is slide number [n]. *)
Definition pushed (env : Route.Env) (docSummary theme : string) (n : nat)
    (slot : DeckGenerator.Slot) : Route.Slide :=
  match (Route.slide_try env docSummary theme n slot).2 with
  | Ok slide => slide
  | Throw _ => Route.placeholder slot
  end.

(** The slides pushed for [slots] when [n] slides were numbered before. *)
Fixpoint pushed_from (env : Route.Env) (docSummary theme : string) (n : nat)
    (slots : list DeckGenerator.Slot) : list Route.Slide :=
  match slots with
  | [] => []
  | slot :: r =>
      pushed env docSummary theme (S n) slot ::
      pushed_from env docSummary theme (S n) r
  end.

(** The loop's variables on entry. *)
Definition loop_start : Route.LoopState :=
  {| Route.loop_slides := []; Route.currentSlide := 0;
     Route.calls := [Route.OutlineCall]; Route.thrown := None |}.


(** An environment whose second slide call loses its race. *)
Definition slow_second_env : Route.Env :=
  {| Route.outline_reply := Throw LlmError;
     Route.outline_late := false;
     Route.slide_reply := fun _ => Throw LlmError;
     Route.slide_late := fun n => Nat.eqb n 2;
     Route.visual_reply := fun _ => Throw LlmError;
     Route.visual_late := fun _ => false;
     Route.now := fun _ => 1700000000000;
     Route.year := 2025 |}.

(** The schema result [r] reports the issue [i]. *)
Definition rejected {A} (r : Route.parsed A) (i : Route.issue) : Prop :=
  exists issues, r = inr issues /\ i ∈ issues.

(** The members with an enumeration, and their enumerations. *)
Definition ENUMS : list (string * list string) :=
  [ ("mode", Route.MODES); ("tone", Route.TONES);
    ("audience", Route.AUDIENCES); ("theme", Route.THEMES) ].

(** The member [field] of the request object [m] breaks the schema in the
    way [code] names: a [slide_count] below 3 or above 50, or a [mode],
    [tone], [audience] or [theme] outside its enumeration, be it another
    string or not a string at all. *)
Inductive offence (m : gmap string Route.jsval) : string -> Route.issue_code -> Prop :=
| count_too_small n :
    m !! "slide_count" = Some (Route.JNum n) -> (n < 3)%Q ->
    offence m "slide_count" Route.too_small
| count_too_big n :
    m !! "slide_count" = Some (Route.JNum n) -> (50 < n)%Q ->
    offence m "slide_count" Route.too_big
| enum_outside field values s :
    (field, values) ∈ ENUMS ->
    m !! field = Some (Route.JStr s) -> s ∉ values ->
    offence m field Route.invalid_enum_value
| enum_not_a_string field values v :
    (field, values) ∈ ENUMS ->
    m !! field = Some v -> (forall s, v <> Route.JStr s) ->
    offence m field Route.invalid_type.

(** A request that names only its mode, and one that asks for 51 slides. *)
Definition minimal_body : Route.jsval :=
  Route.JObj (<["mode" := Route.JStr "quick_prompt"]> ∅).

Definition too_many_slides : gmap string Route.jsval :=
  <["mode" := Route.JStr "quick_prompt"]> (<["slide_count" := Route.JNum 51]> ∅).

End Props.

From Stdlib Require Import DecimalNat.

(** ** More string primitives *)

Module JsText.
Import JsString.

(** [s.includes(p)] *)
Fixpoint includes (p s : string) : bool :=
  startsWith p s ||
  match s with
  | EmptyString => false
  | String _ r => includes p r
  end.

(** Every code unit of [s] satisfies [P]. *)
Fixpoint all_chars (P : ascii -> bool) (s : string) : bool :=
  match s with
  | EmptyString => true
  | String c r => P c && all_chars P r
  end.

(** The line terminators below 256: what [.] does not match. *)
Definition is_line_terminator (c : ascii) : bool :=
  ((code c =? 10) || (code c =? 13))%N.

End JsText.

(** ** [route.ts]: the body of a status-500 answer *)

Module RouteErrors.
Import JsString JsText.

(** The message of the error the outline timer rejects with (line 140). *)
Definition OUTLINE_TIMEOUT : string :=
  "Outline generation timed out after 60 seconds".

(** Lines 273-284: the [error] member, from the error's message. *)
Definition userFriendlyError (errorMessage : string) : string :=
  let isNetworkError :=
    includes "fetch" errorMessage || includes "network" errorMessage ||
    includes "ECONNREFUSED" errorMessage in
  let isTimeoutError :=
    includes "timeout" errorMessage || includes "aborted" errorMessage in
  if isNetworkError then
    "Cannot connect to AI service. Please ensure Ollama is running on http://localhost:11434 or configure your LLM provider in environment variables."
  else if isTimeoutError then
    "Request timed out. The AI service may be slow or unavailable. Please try again."
  else if negb (is_empty errorMessage) then
    "Generation failed: " +:+ errorMessage
  else "Deck generation failed".

End RouteErrors.

(** ** Vocabulary of the further properties *)

Module Vocabulary.
Import JsString.

(** An outline reply the two reconciliation passes can bring to
    [slide_count] slides: a failed or [null] reply, which is replaced by the
    fallback outline, or sections that all have their slide lists and whose
    excess over [slide_count] fits in the last section. *)
Inductive reconcilable (slide_count : Q)
    : result (option DeckGenerator.ParsedOutline) -> Prop :=
| reply_failed e : reconcilable slide_count (Throw e)
| reply_null : reconcilable slide_count (Ok None)
| reply_fits parsed init lastSection l :
    DeckGenerator.parsed_sections parsed = Some (init ++ [lastSection]) ->
    Forall (fun sec => is_Some (DeckGenerator.slides sec)) init ->
    DeckGenerator.slides lastSection = Some l ->
    (inject_Z (DeckGenerator.count_slides (init ++ [lastSection])) - slide_count
       <= inject_Z (Z.of_nat (length l)))%Q ->
    reconcilable slide_count (Ok (Some parsed)).

(** The calls one iteration issues for slide number [n] under a valid
    theme: the visual call follows unless the slide call lost its race. *)
Definition calls_of_slide (env : Route.Env) (n : nat) : list Route.call :=
  if Route.slide_late env n then [Route.SlideCall n]
  else [Route.SlideCall n; Route.VisualCall n].

(** An environment whose outline call loses its race. *)
Definition slow_outline_env : Route.Env :=
  {| Route.outline_reply := Throw LlmError;
     Route.outline_late := true;
     Route.slide_reply := fun _ => Throw LlmError;
     Route.slide_late := fun _ => false;
     Route.visual_reply := fun _ => Throw LlmError;
     Route.visual_late := fun _ => false;
     Route.now := fun _ => 1700000000000;
     Route.year := 2025 |}.

(** An environment in which every LLM call throws. *)
Definition failing_env : Route.Env :=
  {| Route.outline_reply := Throw LlmError;
     Route.outline_late := false;
     Route.slide_reply := fun _ => Throw LlmError;
     Route.slide_late := fun _ => false;
     Route.visual_reply := fun _ => Throw LlmError;
     Route.visual_late := fun _ => false;
     Route.now := fun _ => 1700000000000;
     Route.year := 2025 |}.

(** A request for three and a half slides, which the schema accepts. *)
Definition half_slide : gmap string Route.jsval :=
  <["mode" := Route.JStr "quick_prompt"]>
  (<["topic_or_prompt" := Route.JStr "Solar power"]>
  (<["slide_count" := Route.JNum 3.5]> ∅)).

(** The object of [Props.three_slides_body]. *)
Definition three_slides : gmap string Route.jsval :=
  <["mode" := Route.JStr "quick_prompt"]>
  (<["topic_or_prompt" := Route.JStr "Solar power"]>
  (<["slide_count" := Route.JNum 3]> ∅)).

End Vocabulary.

(** ** Vocabulary: outlines, prefixes and URLs *)

Module Shapes.
Import JsString JsText.

(** The slots of an outline laid out as charts. *)
Definition chart_slots (ss : list DeckGenerator.Section) : list DeckGenerator.Slot :=
  filter (fun slot => DeckGenerator.slot_layout slot = "chart") (Props.slots_of ss).

(** The one chart slot of the fallback outline. *)
Definition insights_slot : DeckGenerator.Slot :=
  {| DeckGenerator.slot_title := "Data-Driven Insights";
     DeckGenerator.slot_layout := "chart";
     DeckGenerator.slot_section := "Analysis" |}.

(** The alternatives of the conversational-prefix pattern that can be the
    one that matches. *)
Definition live_alternatives : list string :=
  ["okay"; "sure"; "here"; "certainly"].

(** The punctuation the pattern allows after the word, or none. *)
Definition punctuation : list string := [EmptyString; ","; ":"].

(** What a URL query may hold unescaped, and the escape sign. *)
Definition url_safe (c : ascii) : bool :=
  DeckGenerator.is_unreserved c || Ascii.eqb c "%".

End Shapes.

(** ** Vocabulary: runs of the rate limiter and members of the request *)

Module Runs.

(** Successive calls of [checkRateLimit] with the same key, limit and
    window at the clock readings [times]: the results in order and the map
    left behind. *)
Fixpoint run_calls (rateLimitMap : gmap string Llm.RateEntry) (times : list Z)
    (ip : string) (limit windowMs : option Z)
    : list bool * gmap string Llm.RateEntry :=
  match times with
  | [] => ([], rateLimitMap)
  | now :: later =>
      let '(allowed, m') := Llm.checkRateLimit rateLimitMap now ip limit windowMs in
      let '(rest, m'') := run_calls m' later ip limit windowMs in
      (allowed :: rest, m'')
  end.

(** The members the request schema declares. *)
Definition declared_members : list string :=
  ["mode"; "topic_or_prompt"; "instructions"; "tone"; "audience";
   "slide_count"; "theme"; "live_widgets"; "assets"].

(** A request whose first document URL is a number. *)
Definition bad_assets : gmap string Route.jsval :=
  <["mode" := Route.JStr "doc_to_deck"]>
  (<["assets" := Route.JObj (<["doc_urls" := Route.JArr [Route.JNum 7]]> ∅)]> ∅).

End Runs.

(** ** The LLM client module: cleaning, extraction and configuration *)

Module LlmClient.
Import JsString JsText.

(** [/[\x00-\x08\x0B\x0C\x0E-\x1F\x7F]/]: the control characters the
    client removes; tab, line feed and carriage return are not among them. *)
Definition is_control (c : ascii) : bool :=
  (in_range 0 8 c || in_range 11 12 c || in_range 14 31 c || (code c =? 127))%N.

(** The client's own [cleanJSONResponse]: [jsonString.replace(/[...]/g, '')] *)
Fixpoint cleanJSONResponse (jsonString : string) : string :=
  match jsonString with
  | EmptyString => EmptyString
  | String c r =>
      if is_control c then cleanJSONResponse r
      else String c (cleanJSONResponse r)
  end.

(** [content.match(/\{[\s\S]*\}/)]: the match starts at the first opening
    brace and, being greedy, ends at the last closing brace after it. *)
Fixpoint from_first_brace (s : string) : option string :=
  match s with
  | EmptyString => None
  | String c r => if Ascii.eqb c "{" then Some s else from_first_brace r
  end.

Fixpoint upto_last_brace (s : string) : option string :=
  match s with
  | EmptyString => None
  | String c r =>
      match upto_last_brace r with
      | Some t => Some (String c t)
      | None => if Ascii.eqb c "}" then Some (String c EmptyString) else None
      end
  end.

Definition match_braces (content : string) : option string :=
  from_first_brace content ≫= upto_last_brace.

(** What [parseOutline] and [parseSlide] do with a reply: return what
    [JSON.parse] makes of the matched text, return their basic outline or
    slide when nothing matches, or throw their 'Failed to parse' error when
    [JSON.parse] throws. *)
Inductive extraction :=
| FromJson (text : string)
| Basic
| FailedToParse.

Definition parse_braced (content : string) : extraction :=
  match match_braces content with
  | Some text => if Json.json_valid text then FromJson text else FailedToParse
  | None => Basic
  end.

Definition parseOutline : string -> extraction := parse_braced.
Definition parseSlide : string -> extraction := parse_braced.

(** *** Configuration *)

Record LLMConfig := {
  provider : string;
  apiKey : string;
  baseUrl : string;
  model : string
}.

(** The variables of [process.env] the clients read; [None] is unset. *)
Record ProcessEnv := {
  LLM_PROVIDER : option string;
  LLM_API_KEY : option string;
  LLM_BASE_URL : option string;
  LLM_MODEL : option string
}.

(** [process.env.X || d] *)
Definition env_or (x : option string) (d : string) : string :=
  match x with
  | Some s => if is_empty s then d else s
  | None => d
  end.

Definition DEMO_CONFIG : LLMConfig :=
  {| provider := "demo"; apiKey := EmptyString; baseUrl := EmptyString; model := "demo" |}.

(** The configuration of the client [createLLMClient] returns. *)
Definition createLLMClient (env : ProcessEnv) : LLMConfig :=
  let provider := env_or (LLM_PROVIDER env) "demo" in
  let apiKey := env_or (LLM_API_KEY env) EmptyString in
  let baseUrl := env_or (LLM_BASE_URL env)
                   (if String.eqb provider "openai" then "https://api.openai.com"
                    else "http://localhost:11434") in
  let model := env_or (LLM_MODEL env)
                 (if String.eqb provider "openai" then "gpt-4" else "llama2") in
  if String.eqb provider "demo" || is_empty apiKey ||
     String.eqb apiKey "your_openai_api_key_here" ||
     String.eqb apiKey "your_actual_openai_api_key_here"
  then DEMO_CONFIG
  else {| provider := provider; apiKey := apiKey; baseUrl := baseUrl; model := model |}.

(** [getLLMConfig] of [deck-generator.ts], the configuration the pipeline
    itself runs with. *)
Definition getLLMConfig (env : ProcessEnv) : LLMConfig :=
  {| provider := env_or (LLM_PROVIDER env) "ollama";
     apiKey := env_or (LLM_API_KEY env) "ollama";
     baseUrl := env_or (LLM_BASE_URL env) "http://localhost:11434";
     model := env_or (LLM_MODEL env) "gemma3:4b" |}.

(** The branch [callLLM] takes for a provider; [None] is its
    'Unsupported LLM provider' error. *)
Inductive backend := OpenAI | Ollama | Demo.

Definition callLLM_backend (config : LLMConfig) : option backend :=
  if String.eqb (provider config) "openai" then Some OpenAI
  else if String.eqb (provider config) "ollama" then Some Ollama
  else if String.eqb (provider config) "demo" then Some Demo
  else None.

(** Code unit 127. *)
Definition DEL : ascii := "127".

(** A mode of the JSON recogniser whose pending literal holds no control
    character; every mode a run goes through is one. *)
Definition clean_mode (m : Json.mode) : bool :=
  match m with
  | Json.Lit rest => all_chars (fun c => negb (is_control c)) rest
  | _ => true
  end.

End LlmClient.

(** ** Vocabulary: control characters in JSON texts *)

Module JsonChars.

(** A control character of the client's pattern other than DEL: one of the
    code units below 32 that are not tab, line feed or carriage return. *)
Definition low_control (c : ascii) : bool :=
  LlmClient.is_control c && negb (Ascii.eqb c LlmClient.DEL).

End JsonChars.

(** ** The studio page: [stripMarkdown] and [convertDeckForExport] *)

Module Studio.
Import JsString JsText.

(** The lazy group [(.*?)] followed by the closing delimiter [d]: the text
    up to the first place where [d] starts, if no line terminator comes
    before it. *)
Fixpoint find_close (d : string) (rest : string) : option string :=
  if startsWith d rest then Some EmptyString
  else match rest with
       | EmptyString => None
       | String c r =>
           if is_line_terminator c then None
           else option_map (String c) (find_close d r)
       end.

(** [text.replace(/D(.*?)D/g, '$1')] for a literal delimiter [d]: the
    search goes from left to right; where a match starts, its group is put
    out and the [skip] code units of the match that follow are passed
    over. *)
Fixpoint unwrap (d : string) (skip : nat) (s : string) : string :=
  match s with
  | EmptyString => EmptyString
  | String c r =>
      match skip with
      | S k => unwrap d k r
      | O =>
          match strip_prefix d s ≫= find_close d with
          | Some content =>
              content +:+
              unwrap d (String.length d + String.length content +
                        String.length d - 1) r
          | None => String c (unwrap d 0 r)
          end
      end
  end.

Definition stripMarkdown (text : string) : string :=
  trim (unwrap "_" 0 (unwrap "__" 0 (unwrap "*" 0 (unwrap "**" 0 text)))).

(** *** The deck as the page holds it *)

Record Image := {
  prompt : string;
  alt : string;
  source : string
}.

Record Slide := {
  layout : string;
  title : string;
  bullets : option (list string);
  notes : option string;
  chart_spec : option DeckGenerator.ChartSpec;
  image : option Image;
  citations : option (list string)
}.

Record Deck := {
  deck_title : string;
  deck_theme : string;
  deck_slides : list Slide
}.

(** *** The deck as the export routes take it *)

Inductive Block :=
| Heading (text : string) (level : Z)
| Bullets (items : list string)
| Chart (chartSpec : DeckGenerator.ChartSpec)
| ImageBlock (url alt caption : string).

Record ExportSlide := {
  export_id : string;
  export_layout : string;
  blocks : list Block;
  export_notes : string;
  export_citations : list string
}.

Record Meta := {
  meta_title : string;
  meta_theme : string;
  audience : string;
  tone : string
}.

Record ExportDeck := {
  id : string;
  export_title : string;
  export_theme : string;
  meta : Meta;
  export_slides : list ExportSlide
}.

(** The blocks of one slide, in the order they are pushed. *)
Definition blocks_of (slide : Slide) : list Block :=
  (if is_empty (title slide) then []
   else [Heading (stripMarkdown (title slide)) 1]) ++
  (match bullets slide with
   | Some (b :: bs) => [Bullets (map stripMarkdown (b :: bs))]
   | _ => []
   end) ++
  (match chart_spec slide with
   | Some spec => [Chart spec]
   | None => []
   end) ++
  (match image slide with
   | Some img => [ImageBlock (source img) (stripMarkdown (alt img))
                    (stripMarkdown (prompt img))]
   | None => []
   end).

Definition export_slide (index : nat) (slide : Slide) : ExportSlide :=
  {| export_id := "slide-" +:+ show_nat index;
     export_layout := DeckGenerator.or_else (layout slide) "title-content";
     blocks := blocks_of slide;
     export_notes := default EmptyString (notes slide);
     export_citations := default [] (citations slide) |}.

(** [now] is [Date.now()]. *)
Definition convertDeckForExport (now : Z) (deck : Deck) : ExportDeck :=
  {| id := "deck-" +:+ show_Z now;
     export_title := stripMarkdown (deck_title deck);
     export_theme := deck_theme deck;
     meta := {| meta_title := stripMarkdown (deck_title deck);
                meta_theme := deck_theme deck;
                audience := "general";
                tone := "professional" |};
     export_slides := imap export_slide (deck_slides deck) |}.

(** The deck of a status-200 answer as the page reads it from the JSON. *)
Definition received_slide (slide : Route.Slide) : Slide :=
  {| layout := Route.layout slide;
     title := Route.title slide;
     bullets := Some (Route.bullets slide);
     notes := Some (Route.notes slide);
     chart_spec := Route.chart_spec slide;
     image := Some {| prompt := Route.image_prompt (Route.image slide);
                      alt := Route.image_alt (Route.image slide);
                      source := Route.image_source (Route.image slide) |};
     citations := Some (Route.citations slide) |}.

Definition received (deck : Route.Deck) : Deck :=
  {| deck_title := Route.deck_title deck;
     deck_theme := Route.deck_theme deck;
     deck_slides := map received_slide (Route.slides deck) |}.

(** The kinds of blocks, for stating their order. *)
Inductive kind := KHeading | KBullets | KChart | KImage.

Definition kind_of (b : Block) : kind :=
  match b with
  | Heading _ _ => KHeading
  | Bullets _ => KBullets
  | Chart _ => KChart
  | ImageBlock _ _ _ => KImage
  end.

Definition image_url (b : Block) : option string :=
  match b with
  | ImageBlock url _ _ => Some url
  | _ => None
  end.

(** A sample deck of two slides. *)
Definition sample_deck : Deck :=
  {| deck_title := "**Solar** power";
     deck_theme := "deep_space";
     deck_slides :=
       [ {| layout := "title_bullets"; title := "Why _now_";
            bullets := Some ["**40%** cheaper"]; notes := None;
            chart_spec := None; image := None; citations := None |};
         {| layout := EmptyString; title := EmptyString;
            bullets := Some []; notes := Some "n"; chart_spec := None;
            image := Some {| prompt := "p"; alt := "a"; source := "generated" |};
            citations := None |} ] |}.

End Studio.

(** ** Vocabulary: a reply with a section that has no slide list *)

Module Gaps.

Definition gap_outline : DeckGenerator.ParsedOutline :=
  {| DeckGenerator.parsed_title := "Solar power";
     DeckGenerator.parsed_sections := Some
       [ {| DeckGenerator.name := "Intro"; DeckGenerator.slides := None |};
         {| DeckGenerator.name := "Body";
            DeckGenerator.slides := Some (map Props.sample_slot ["b1"; "b2"; "b3"]) |} ] |}.

Definition gap_env : Route.Env :=
  {| Route.outline_reply := Ok (Some gap_outline);
     Route.outline_late := false;
     Route.slide_reply := fun _ => Throw LlmError;
     Route.slide_late := fun _ => false;
     Route.visual_reply := fun _ => Throw LlmError;
     Route.visual_late := fun _ => false;
     Route.now := fun _ => 1700000000000;
     Route.year := 2025 |}.

(** The accepted form of [Vocabulary.three_slides]. *)
Definition three_slides_request : Route.GenerateDeckRequest :=
  {| Route.mode := "quick_prompt"; Route.topic_or_prompt := Some "Solar power";
     Route.instructions := None; Route.tone := "professional";
     Route.audience := "general"; Route.slide_count := 3;
     Route.theme := "deep_space"; Route.live_widgets := false;
     Route.assets := None |}.

End Gaps.

(** * Properties *)

(** ** Strings *)

Lemma append_cons (c : ascii) (s t : string) :
  String c s +:+ t = String c (s +:+ t).
Proof. reflexivity. Qed.

Lemma append_nil_r (s : string) : s +:+ EmptyString = s.
Proof. induction s as [|c s IH]; [done | by rewrite append_cons, IH]. Qed.

Lemma append_assoc (a b c : string) : (a +:+ b) +:+ c = a +:+ (b +:+ c).
Proof. induction a as [|x a IH]; [done | by rewrite !append_cons, IH]. Qed.

Lemma append_length (a b : string) :
  String.length (a +:+ b) = (String.length a + String.length b)%nat.
Proof. induction a as [|x a IH]; [done | rewrite append_cons; simpl; by rewrite IH]. Qed.

(** ** [cleanJSONResponse] *)

Section CleanJSON.
Import JsString DeckGenerator Props.

Lemma trimEnd_keeps_head c r :
  is_space c = false -> trimEnd (String c r) = String c (trimEnd r).
Proof. intros H. simpl. rewrite H. by rewrite andb_false_r. Qed.

Lemma trimEnd_idem s : trimEnd (trimEnd s) = trimEnd s.
Proof.
  induction s as [|c r IH]; first done.
  simpl. destruct (is_empty (trimEnd r) && is_space c) eqn:E; first done.
  simpl. by rewrite IH, E.
Qed.

Lemma trimStart_head s :
  trimStart s = EmptyString \/
  exists c r, trimStart s = String c r /\ is_space c = false.
Proof.
  induction s as [|c r IH]; first by left.
  simpl. destruct (is_space c) eqn:E; first done.
  right. by exists c, r.
Qed.

Lemma trimStart_fixed c r :
  is_space c = false -> trimStart (String c r) = String c r.
Proof. intros H. simpl. by rewrite H. Qed.

Lemma trim_idem s : trim (trim s) = trim s.
Proof.
  unfold trim. destruct (trimStart_head s) as [->|(c & r & -> & Hc)]; first done.
  rewrite (trimEnd_keeps_head _ _ Hc), (trimStart_fixed _ _ Hc).
  rewrite <- (trimEnd_keeps_head _ _ Hc). apply trimEnd_idem.
Qed.

Lemma json_head_not_conversational c :
  is_Some (Json.step Json.Value [] c) -> conversational_head c = false.
Proof.
  destruct c as [[] [] [] [] [] [] [] []]; vm_compute;
    first [reflexivity | intros [? ?]; discriminate].
Qed.

Lemma strip_prefix_ci_head a p c r :
  Ascii.eqb (lower c) a = false -> strip_prefix_ci (String a p) (String c r) = None.
Proof. intros H. cbn [strip_prefix_ci]. by rewrite Ascii.eqb_sym, H. Qed.

Lemma first_alternative_head c r :
  conversational_head c = false ->
  first_alternative conversational (String c r) = None.
Proof.
  unfold conversational_head. cbn [existsb]. intros H.
  repeat (apply orb_false_elim in H as [? H]).
  unfold conversational. cbn [first_alternative].
  by rewrite !strip_prefix_ci_head.
Qed.

Lemma json_valid_not_conversational s :
  Json.json_valid s = true -> strip_conversational s = s.
Proof.
  unfold Json.json_valid, strip_conversational.
  destruct s as [|c r]; first done.
  intros H. rewrite first_alternative_head; first done.
  apply json_head_not_conversational.
  cbn [Json.run] in H. destruct (Json.step Json.Value [] c); [by eexists | done].
Qed.

Lemma strip_prefix_app p q s :
  strip_prefix (p +:+ q) s = strip_prefix p s ≫= strip_prefix q.
Proof.
  revert s. induction p as [|a p IH]; intros s; first done.
  destruct s as [|c s]; first done.
  simpl. destruct (Ascii.eqb a c); [apply IH | done].
Qed.

Lemma not_fenced s : startsWith FENCE s = false -> strip_fences s = s.
Proof.
  unfold strip_fences, startsWith. intros H.
  change FENCE_JSON with (FENCE +:+ "json").
  rewrite strip_prefix_app.
  destruct (strip_prefix FENCE s); [done | reflexivity].
Qed.

(** C5. An input whose trimmed form is a JSON text and does not start
    with a code fence is returned trimmed and otherwise untouched, and
    cleaning the result again changes nothing. *)
Theorem cleanJSONResponse_valid_is_trim (response : string) :
  Json.json_valid (trim response) = true ->
  startsWith FENCE (trim response) = false ->
  cleanJSONResponse response = trim response /\
  cleanJSONResponse (cleanJSONResponse response) = cleanJSONResponse response.
Proof.
  intros Hvalid Hfence.
  assert (Hclean : forall s, Json.json_valid (trim s) = true ->
            startsWith FENCE (trim s) = false -> cleanJSONResponse s = trim s).
  { intros s Hv Hf. unfold cleanJSONResponse.
    rewrite (not_fenced _ Hf), (json_valid_not_conversational _ Hv).
    by rewrite Hv. }
  split; first by apply Hclean.
  rewrite (Hclean response Hvalid Hfence).
  transitivity (trim (trim response)); last by apply trim_idem.
  apply Hclean; by rewrite trim_idem.
Qed.

Lemma cleanJSONResponse_valid_is_trim_witness :
  cleanJSONResponse "  [1, 2.5e3, true]  " = "[1, 2.5e3, true]" /\
  cleanJSONResponse (cleanJSONResponse "  [1, 2.5e3, true]  ") =
    cleanJSONResponse "  [1, 2.5e3, true]  ".
Proof.
  apply (cleanJSONResponse_valid_is_trim "  [1, 2.5e3, true]  "); reflexivity.
Defined.

End CleanJSON.

(** ** [parseDocuments] *)

Section Documents.
Import JsString DeckGenerator Props.

Lemma split_from_free sep cur s :
  free_of sep s = true -> split_from sep cur s = [cur +:+ s].
Proof.
  revert cur. induction s as [|c r IH]; intros cur H; simpl in *.
  - by rewrite append_nil_r.
  - apply andb_prop in H as [Hc Hr]. apply negb_true_iff in Hc. rewrite Hc.
    rewrite (IH _ Hr). by rewrite append_assoc.
Qed.

Lemma split_from_cons sep cur s :
  exists x l, split_from sep cur s = x :: l.
Proof.
  revert cur. induction s as [|c r IH]; intros cur; simpl; first by eauto.
  destruct (Ascii.eqb c sep); eauto.
Qed.

Lemma last_split_from sep cur a b d :
  List.last (split_from sep cur (a +:+ String sep b)) d =
  List.last (split_from sep EmptyString b) d.
Proof.
  revert cur. induction a as [|c a IH]; intros cur; simpl.
  - rewrite Ascii.eqb_refl.
    destruct (split_from_cons sep EmptyString b) as (x & l & ->). done.
  - destruct (Ascii.eqb c sep); last by apply IH.
    rewrite <- (IH EmptyString).
    destruct (split_from_cons sep EmptyString (a +:+ String sep b)) as (x & l & ->).
    done.
Qed.

Lemma no_dot_app_dot s e : no_dot (s +:+ String "." e) = false.
Proof.
  induction s as [|c s IH]; simpl; first done.
  rewrite IH. apply andb_false_r.
Qed.

Lemma remove_extension_app stem ext :
  ext <> EmptyString -> no_dot ext = true ->
  remove_extension (stem +:+ String "." ext) = stem.
Proof.
  intros Hne Hext. induction stem as [|c stem IH]; simpl.
  - rewrite Hext. by destruct ext.
  - rewrite IH, no_dot_app_dot. by rewrite andb_false_r.
Qed.

(** C8. [parseDocuments] returns the empty string exactly for a missing or
    empty URL list; otherwise it returns a fixed advisory text around the
    comma-separated file names, each the last path segment of its URL
    without its extension.  No document is read: the URLs are the only
    input. *)
Theorem parseDocuments_is_a_stub :
  (forall docUrls,
     parseDocuments docUrls = EmptyString <-> docUrls = None \/ docUrls = Some []) /\
  (forall url urls,
     parseDocuments (Some (url :: urls)) =
     "Documents uploaded: " +:+ join ", " (map file_name (url :: urls)) +:+ ADVICE) /\
  (forall dir stem ext,
     free_of "/" stem = true -> free_of "/" ext = true ->
     no_dot ext = true -> ext <> EmptyString ->
     file_name (dir +:+ "/" +:+ stem +:+ "." +:+ ext) = stem).
Proof.
  split; [|split].
  - intros [[|url urls]|].
    + split; [by right | done].
    + split; [done | by intros [?|?]].
    + split; [by left | done].
  - done.
  - intros dir stem ext Hstem Hext Hdot Hne. unfold file_name, split.
    assert (Hfree : free_of "/" (stem +:+ "." +:+ ext) = true).
    { clear -Hstem Hext. induction stem as [|c stem IH]; simpl in *; first done.
      apply andb_prop in Hstem as [-> Hs]. by rewrite IH. }
    change (dir +:+ "/" +:+ stem +:+ "." +:+ ext)
      with (dir +:+ String "/" (stem +:+ "." +:+ ext)).
    rewrite last_split_from, (split_from_free _ _ _ Hfree). cbn [List.last].
    replace (or_else (EmptyString +:+ stem +:+ "." +:+ ext) "document")
      with (stem +:+ String "." ext).
    + by apply remove_extension_app.
    + unfold or_else. by destruct stem.
Qed.

Lemma parseDocuments_is_a_stub_witness :
  file_name "https://host/files/report.v2.pdf" = "report.v2".
Proof.
  apply (proj2 (proj2 parseDocuments_is_a_stub) "https://host/files" "report.v2" "pdf");
    [reflexivity | reflexivity | reflexivity | discriminate].
Defined.

End Documents.

(** ** [generateSlide] and [generateUnsplashUrl] *)

Section SlideImage.
Import JsString DeckGenerator Props.

Lemma encode_unit_nonempty c : encode_unit c <> EmptyString.
Proof. unfold encode_unit, percent. by repeat case_match. Qed.

Lemma encodeURIComponent_nonempty s :
  s <> EmptyString -> encodeURIComponent s <> EmptyString.
Proof.
  destruct s as [|c r]; first done. intros _. cbn [encodeURIComponent].
  pose proof (encode_unit_nonempty c). by destruct (encode_unit c).
Qed.

Lemma keywords_long topic w :
  w ∈ keywords topic ->
  (3 < String.length w)%nat /\ w ∈ split " " (keep_word_space topic).
Proof.
  unfold keywords. intros H. apply subseteq_take in H.
  by apply list_elem_of_filter in H.
Qed.

Lemma join_nonempty sep w l :
  w <> EmptyString -> join sep (w :: l) <> EmptyString.
Proof. destruct w; first done. intros _. by destruct l. Qed.

(** [keywords || fallback] picks the joined keywords unless there are none. *)
Lemma search_term topic :
  or_else (join "," (keywords topic)) FALLBACK_KEYWORDS =
  match keywords topic with
  | [] => FALLBACK_KEYWORDS
  | _ => join "," (keywords topic)
  end.
Proof.
  pose proof (keywords_long topic) as Hlong.
  destruct (keywords topic) as [|w l]; first done.
  assert (Hw : w <> EmptyString).
  { destruct (Hlong w) as [Hlen _]; first by left.
    destruct w; [simpl in Hlen; lia | done]. }
  pose proof (join_nonempty "," w l Hw) as Hj.
  unfold or_else. by destruct (join "," (w :: l)).
Qed.

Lemma unsplash_not_placeholder topic : generateUnsplashUrl topic <> "placeholder".
Proof. unfold generateUnsplashUrl, UNSPLASH. by rewrite append_cons. Qed.

Lemma ensure_image_source slide_title img :
  source (ensure_image slide_title img) <> "placeholder" /\
  (img = None \/
   (exists i, img = Some i /\
      (parsed_source i = None \/ parsed_source i = Some EmptyString \/
       parsed_source i = Some "placeholder")) ->
   source (ensure_image slide_title img) = generateUnsplashUrl slide_title).
Proof.
  unfold ensure_image. destruct img as [i|]; last first.
  { split; [apply unsplash_not_placeholder | done]. }
  destruct (falsy (parsed_source i) || bool_decide (parsed_source i = Some "placeholder"))
    eqn:E; cbn [source].
  { split; [apply unsplash_not_placeholder | done]. }
  apply orb_false_elim in E as [Hfalsy Hph]. apply bool_decide_eq_false in Hph.
  split.
  - destruct (parsed_source i) as [s|]; last done. cbn. congruence.
  - intros [|(i' & [= <-] & [Hs|[Hs|Hs]])]; first done; by rewrite Hs in *.
Qed.

(** C10. Whatever the LLM replies, the slide [generateSlide] returns has an
    image whose source is not ['placeholder'].  When the parsed reply has no
    image, or an image with a missing, empty or ['placeholder'] source, and
    also in the fallback, the source is the Unsplash URL of the slide title:
    the fixed prefix followed by a non-empty query, which encodes either the
    fixed fallback keywords or the comma-joined keywords; these are at most
    three words, each longer than three units, taken from the title once its
    special characters are removed. *)
Theorem generateSlide_image_never_placeholder
    (year : Z) (params : SlideParams) (reply : result (option ParsedDraft)) :
  let slide_title := slot_title (slide_context params) in
  (exists img,
     image (generateSlide year params reply) = Some img /\
     source img <> "placeholder" /\
     (forall d, reply = Ok (Some d) ->
        parsed_image d = None \/
        (exists i, parsed_image d = Some i /\
           (parsed_source i = None \/ parsed_source i = Some EmptyString \/
            parsed_source i = Some "placeholder")) ->
        source img = generateUnsplashUrl slide_title) /\
     (forall e, generateSlide_try params reply = Throw e ->
        source img = generateUnsplashUrl (or_else slide_title "Key Concepts"))) /\
  (forall topic,
     exists term,
       generateUnsplashUrl topic = UNSPLASH +:+ encodeURIComponent term /\
       encodeURIComponent term <> EmptyString /\
       (term = FALLBACK_KEYWORDS \/ term = join "," (keywords topic)) /\
       (length (keywords topic) <= 3)%nat /\
       (forall w, w ∈ keywords topic ->
          (3 < String.length w)%nat /\ w ∈ split " " (keep_word_space topic))).
Proof.
  intros slide_title. split.
  - unfold generateSlide.
    destruct (generateSlide_try params reply) as [d|e] eqn:Htry.
    + destruct reply as [[p|]|e]; try done. injection Htry as <-. cbn [image].
      eexists. split; first done.
      destruct (ensure_image_source slide_title (parsed_image p)) as [Hne Hrepl].
      split; first exact Hne. split; last done.
      intros d [= <-]. exact Hrepl.
    + eexists. split; first done. cbn [source].
      split; first apply unsplash_not_placeholder.
      split; last done.
      intros d ->. by destruct d.
  - intros topic. exists (or_else (join "," (keywords topic)) FALLBACK_KEYWORDS).
    split; first done. split; [|split; [|split]].
    + apply encodeURIComponent_nonempty. rewrite search_term.
      pose proof (keywords_long topic) as Hlong.
      destruct (keywords topic) as [|w l]; first done.
      apply join_nonempty. destruct (Hlong w) as [Hlen _]; first by left.
      destruct w; [simpl in Hlen; lia | done].
    + rewrite search_term. destruct (keywords topic); [by left | by right].
    + unfold keywords. rewrite length_take. lia.
    + apply keywords_long.
Qed.

Lemma generateSlide_image_never_placeholder_witness :
  exists img,
    image (generateSlide 2025 sample_slide_params (Ok (Some sample_draft))) = Some img /\
    source img = "https://source.unsplash.com/800x600/?Market%2CGrowth%2C2024".
Proof.
  destruct (generateSlide_image_never_placeholder 2025 sample_slide_params
              (Ok (Some sample_draft))) as [(img & Himg & _ & Hrepl & _) _].
  exists img. split; first exact Himg.
  rewrite (Hrepl sample_draft eq_refl); [reflexivity | by left].
Defined.

End SlideImage.

(** ** Numbers *)

Section Numbers.
Import JsNumber.

Lemma ltb_lt a b : ltb a b = true <-> (a < b)%Q.
Proof.
  unfold ltb. rewrite negb_true_iff, <- not_true_iff_false, Qle_bool_iff.
  split; [apply Qnot_le_lt | apply Qlt_not_le].
Qed.

Lemma ltb_ge a b : ltb a b = false <-> (b <= a)%Q.
Proof. unfold ltb. rewrite negb_false_iff. apply Qle_bool_iff. Qed.

Lemma Qeq_bool_false a b : ~ (a == b)%Q -> Qeq_bool a b = false.
Proof.
  intros H. destruct (Qeq_bool a b) eqn:E; last done.
  by apply Qeq_bool_iff in E.
Qed.

Lemma Qeq_bool_true a b : (a == b)%Q -> Qeq_bool a b = true.
Proof. apply Qeq_bool_iff. Qed.

Lemma inject_Z_succ z : (inject_Z (z + 1) == inject_Z z + 1)%Q.
Proof. by rewrite inject_Z_plus. Qed.

Lemma inject_Z_pred z : (inject_Z (z - 1) == inject_Z z - 1)%Q.
Proof. unfold Z.sub. by rewrite inject_Z_plus. Qed.

Lemma inject_Z_sub a b : (inject_Z (a - b) == inject_Z a - inject_Z b)%Q.
Proof. unfold Z.sub. by rewrite inject_Z_plus, inject_Z_opp. Qed.

Lemma inject_nat_nonneg (n : nat) : (0 <= inject_Z (Z.of_nat n))%Q.
Proof. change 0%Q with (inject_Z 0). rewrite <- Zle_Qle. lia. Qed.

Lemma Qfloor_unique x z :
  (inject_Z z <= x)%Q -> (x < inject_Z z + 1)%Q -> Qfloor x = z.
Proof.
  intros Hle Hlt.
  pose proof (Qfloor_le x) as Hf. pose proof (Qlt_floor x) as Hf'.
  rewrite inject_Z_succ in Hf'.
  assert (inject_Z (Qfloor x) < inject_Z (z + 1))%Q as H1
    by (rewrite inject_Z_succ; lra).
  assert (inject_Z z < inject_Z (Qfloor x + 1))%Q as H2
    by (rewrite inject_Z_succ; lra).
  rewrite <- Zlt_Qlt in H1, H2. lia.
Qed.

Lemma Qceiling_unique x z :
  (inject_Z z - 1 < x)%Q -> (x <= inject_Z z)%Q -> Qceiling x = z.
Proof.
  intros Hlt Hle.
  pose proof (Qle_ceiling x) as Hc. pose proof (Qceiling_lt x) as Hc'.
  rewrite inject_Z_pred in Hc'.
  assert (inject_Z (Qceiling x - 1) < inject_Z z)%Q as H1
    by (rewrite inject_Z_pred; lra).
  assert (inject_Z (z - 1) < inject_Z (Qceiling x))%Q as H2
    by (rewrite inject_Z_pred; lra).
  rewrite <- Zlt_Qlt in H1, H2. lia.
Qed.

Lemma Qfloor_add x z : Qfloor (x + inject_Z z) = Qfloor x + z.
Proof.
  pose proof (Qfloor_le x). pose proof (Qlt_floor x) as Hf.
  rewrite inject_Z_succ in Hf.
  apply Qfloor_unique; rewrite inject_Z_plus; lra.
Qed.

Lemma Qceiling_sub x z : Qceiling (x - inject_Z z) = Qceiling x - z.
Proof.
  pose proof (Qle_ceiling x). pose proof (Qceiling_lt x) as Hc.
  rewrite inject_Z_pred in Hc.
  apply Qceiling_unique; rewrite inject_Z_sub; lra.
Qed.

Lemma floor_le_ceiling x : Qfloor x <= Qceiling x <= Qfloor x + 1.
Proof.
  pose proof (Qfloor_le x). pose proof (Qlt_floor x) as Hf.
  pose proof (Qle_ceiling x). pose proof (Qceiling_lt x) as Hc.
  assert (inject_Z (Qfloor x) <= inject_Z (Qceiling x))%Q as H1 by lra.
  assert (inject_Z (Qceiling x - 1) < inject_Z (Qfloor x + 1))%Q as H2 by lra.
  rewrite <- Zle_Qle in H1. rewrite <- Zlt_Qlt in H2. lia.
Qed.

(** A whole number is its own floor and ceiling. *)
Lemma whole_floor_ceiling x n :
  (x == inject_Z n)%Q -> Qfloor x = n /\ Qceiling x = n.
Proof.
  intros H. by rewrite (Qfloor_comp _ _ H), (Qceiling_comp _ _ H), Qfloor_Z, Qceiling_Z.
Qed.

Lemma ToIntegerOrInfinity_nonneg x :
  (0 <= x)%Q -> ToIntegerOrInfinity x = Qfloor x.
Proof.
  intros H. unfold ToIntegerOrInfinity.
  by rewrite (proj2 (Qle_bool_iff 0 x) H).
Qed.

(** Between -1 and 0 the integer part is 0. *)
Lemma ToIntegerOrInfinity_small x :
  (-1 < x)%Q -> (x < 0)%Q -> ToIntegerOrInfinity x = 0.
Proof.
  intros H1 H2. unfold ToIntegerOrInfinity.
  destruct (Qle_bool 0 x) eqn:E.
  - apply Qle_bool_iff in E. lra.
  - apply Qceiling_unique; change (inject_Z 0) with 0%Q; lra.
Qed.

Lemma ToIntegerOrInfinity_neg x :
  (x < 0)%Q -> ToIntegerOrInfinity x <= 0.
Proof.
  intros H. unfold ToIntegerOrInfinity.
  destruct (Qle_bool 0 x) eqn:E.
  - apply Qle_bool_iff in E. lra.
  - pose proof (Qceiling_lt x) as Hc. rewrite inject_Z_pred in Hc.
    assert (inject_Z (Qceiling x) < inject_Z 1)%Q as H1
      by (change (inject_Z 1) with 1%Q; lra).
    rewrite <- Zlt_Qlt in H1. lia.
Qed.

Lemma ToLength_floor x : ToLength x = Z.to_nat (Qfloor x).
Proof.
  unfold ToLength, ToIntegerOrInfinity.
  destruct (Qle_bool 0 x) eqn:E; first done.
  assert (x < 0)%Q as Hneg.
  { apply Qnot_le_lt. intros H. apply Qle_bool_iff in H. congruence. }
  pose proof (ToIntegerOrInfinity_neg x Hneg) as Hc.
  unfold ToIntegerOrInfinity in Hc. rewrite E in Hc.
  pose proof (floor_le_ceiling x). lia.
Qed.

(** The body of [for (let i = 0; i < bound; i++)] runs for exactly the
    [i] below [bound]. *)
Lemma iterations_spec bound (i : nat) :
  (i < iterations bound)%nat <-> (inject_Z (Z.of_nat i) < bound)%Q.
Proof.
  unfold iterations.
  pose proof (Qle_ceiling bound) as Hc. pose proof (Qceiling_lt bound) as Hc'.
  rewrite inject_Z_pred in Hc'. split.
  - intros H. assert (Z.of_nat i <= Qceiling bound - 1) as Hz by lia.
    rewrite Zle_Qle, inject_Z_pred in Hz. lra.
  - intros H. assert (inject_Z (Z.of_nat i) < inject_Z (Qceiling bound))%Q as Hz by lra.
    rewrite <- Zlt_Qlt in Hz. lia.
Qed.

End Numbers.

(** ** Outlines and the slide-count reconciliation *)

Section Outlines.
Import JsString JsNumber DeckGenerator Props.

Lemma fold_count ss a :
  fold_left (fun sum sec => sum + slides_length sec) ss a = a + count_slides ss.
Proof.
  unfold count_slides. revert a. induction ss as [|sec ss IH]; intros a; simpl.
  - lia.
  - rewrite (IH (a + _)), (IH (0 + _)). lia.
Qed.

Lemma count_slides_cons sec ss :
  count_slides (sec :: ss) = slides_length sec + count_slides ss.
Proof. unfold count_slides at 1. simpl. by rewrite fold_count. Qed.

Lemma count_slides_app ss1 ss2 :
  count_slides (ss1 ++ ss2) = count_slides ss1 + count_slides ss2.
Proof.
  induction ss1 as [|sec ss1 IH]; first done.
  rewrite <- app_comm_cons, !count_slides_cons, IH. lia.
Qed.

Lemma split_last_snoc {A} (init : list A) (x : A) :
  split_last (init ++ [x]) = Some (init, x).
Proof. induction init as [|y init IH]; simpl; [done | by rewrite IH]. Qed.

Lemma push_additional_spec section_name i fuel acc :
  push_additional section_name i fuel acc =
  acc ++ map (additional section_name) (seq i fuel).
Proof.
  revert i acc. induction fuel as [|fuel IH]; intros i acc; simpl.
  - by rewrite app_nil_r.
  - by rewrite IH, <- app_assoc.
Qed.

Lemma slice0_prefix {A} (l : list A) e : exists k, slice0 l e = take k l.
Proof. unfold slice0. eauto. Qed.

(** The three ways through the adjustment block, on sections that end in
    a section with a slide list. *)
Lemma adjust_last_cases slide_count total init lastSection l :
  slides lastSection = Some l ->
  ((inject_Z total < slide_count)%Q /\
   adjust_last slide_count total (init ++ [lastSection]) =
     Ok (init ++ [with_slides lastSection
                    (push_additional (name lastSection) 0
                       (iterations (slide_count - inject_Z total)) l)])) \/
  ((slide_count < inject_Z total)%Q /\
   adjust_last slide_count total (init ++ [lastSection]) =
     Ok (init ++ [with_slides lastSection
                    (slice0 l (inject_Z (Z.of_nat (length l))
                               - (inject_Z total - slide_count)))])) \/
  ((inject_Z total == slide_count)%Q /\
   adjust_last slide_count total (init ++ [lastSection]) = Ok (init ++ [lastSection])).
Proof.
  intros Hl. unfold adjust_last, gtb.
  destruct (ltb (inject_Z total) slide_count) eqn:Hlt.
  - apply ltb_lt in Hlt. left. split; first done.
    rewrite split_last_snoc. cbn [defined mbind result_bind]. by rewrite Hl.
  - apply ltb_ge in Hlt. destruct (ltb slide_count (inject_Z total)) eqn:Hgt.
    + apply ltb_lt in Hgt. right; left. split; first done.
      rewrite split_last_snoc. cbn [defined mbind result_bind]. by rewrite Hl.
    + apply ltb_ge in Hgt. right; right. split; last done. lra.
Qed.

Lemma adjust_last_snoc slide_count total init lastSection l :
  slides lastSection = Some l ->
  ~ (inject_Z total == slide_count)%Q ->
  exists l',
    adjust_last slide_count total (init ++ [lastSection]) =
      Ok (init ++ [with_slides lastSection l']) /\
    patched slide_count total (name lastSection) l l'.
Proof.
  intros Hl Hne. unfold patched.
  destruct (adjust_last_cases slide_count total init lastSection l Hl)
    as [[Hlt ->]|[[Hgt ->]|[Heq _]]]; last done.
  - eexists. split; first done. split; first (intros; lra).
    intros _. apply push_additional_spec.
  - eexists. split; first done. split; last (intros; lra).
    intros _. apply slice0_prefix.
Qed.

Lemma sum_slides_count ss : forall a total,
  Route.sum_slides a ss = Ok total ->
  total = a + count_slides ss /\ Forall (fun sec => is_Some (slides sec)) ss.
Proof.
  induction ss as [|sec ss IH]; intros a total H; simpl in H.
  - injection H as <-. split; [unfold count_slides; simpl; lia | constructor].
  - destruct (slides sec) as [l|] eqn:Hl; last done. cbn in H.
    apply IH in H as [-> Hall]. split.
    + rewrite count_slides_cons. unfold slides_length. rewrite Hl. lia.
    + constructor; [by rewrite Hl | done].
Qed.

Lemma sum_slides_defined ss : forall a,
  Forall (fun sec => is_Some (slides sec)) ss ->
  Route.sum_slides a ss = Ok (a + count_slides ss).
Proof.
  induction ss as [|sec ss IH]; intros a Hall.
  - unfold count_slides. simpl. f_equal. lia.
  - inversion Hall as [|? ? [l Hl] Hall']; subst.
    rewrite count_slides_cons. unfold slides_length. cbn [Route.sum_slides].
    rewrite Hl. cbn. rewrite (IH _ Hall'). f_equal. lia.
Qed.

(** C4. When the total differs from the requested count, the adjustment
    block returns the sections before the last unchanged and the last
    section under its own name, with a prefix of its slides (too many
    slides) or with its slides followed by the ['Additional Key Point']
    slides (too few); so do [generateOutline] and the route handler, which
    both run that block. *)
Theorem reconciliation_edits_only_last_section :
  (forall slide_count total init lastSection l,
     slides lastSection = Some l ->
     ~ (inject_Z total == slide_count)%Q ->
     exists l',
       adjust_last slide_count total (init ++ [lastSection]) =
         Ok (init ++ [with_slides lastSection l']) /\
       patched slide_count total (name lastSection) l l') /\
  (forall p parsed init lastSection l,
     parsed_sections parsed = Some (init ++ [lastSection]) ->
     slides lastSection = Some l ->
     ~ (inject_Z (totalSlides parsed) == slide_count p)%Q ->
     exists l',
       generateOutline p (Ok (Some parsed)) =
         {| outline_title := parsed_title parsed;
            sections := init ++ [with_slides lastSection l'] |} /\
       patched (slide_count p) (totalSlides parsed) (name lastSection) l l') /\
  (forall slide_count total init lastSection l,
     Route.sum_slides 0 (init ++ [lastSection]) = Ok total ->
     slides lastSection = Some l ->
     ~ (inject_Z total == slide_count)%Q ->
     exists l',
       Route.reconcile slide_count (init ++ [lastSection]) =
         Ok (init ++ [with_slides lastSection l']) /\
       patched slide_count total (name lastSection) l l').
Proof.
  split; [|split].
  - intros. by apply adjust_last_snoc.
  - intros p parsed init lastSection l Hss Hl Hne.
    destruct (adjust_last_snoc (slide_count p) (totalSlides parsed) init
                lastSection l Hl Hne) as (l' & Hadj & Hpatched).
    exists l'. split; last done.
    unfold generateOutline, generateOutline_try.
    cbn [mbind result_bind defined].
    rewrite (Qeq_bool_false _ _ Hne), Hss. cbn [negb mbind result_bind defined].
    by rewrite Hadj.
  - intros slide_count total init lastSection l Hsum Hl Hne.
    destruct (adjust_last_snoc slide_count total init lastSection l Hl Hne)
      as (l' & Hadj & Hpatched).
    exists l'. split; last done.
    unfold Route.reconcile. rewrite Hsum. cbn [mbind result_bind].
    by rewrite (Qeq_bool_false _ _ Hne).
Qed.

Lemma reconciliation_edits_only_last_section_witness :
  exists l',
    adjust_last 3 4 ([with_slides {| name := "A"; slides := None |}
                        [sample_slot "a1"; sample_slot "a2"]] ++
                     [with_slides {| name := "B"; slides := None |}
                        [sample_slot "b1"; sample_slot "b2"]]) =
      Ok ([with_slides {| name := "A"; slides := None |}
             [sample_slot "a1"; sample_slot "a2"]] ++
          [with_slides (with_slides {| name := "B"; slides := None |}
                          [sample_slot "b1"; sample_slot "b2"]) l']) /\
    patched 3 4 "B" [sample_slot "b1"; sample_slot "b2"] l'.
Proof.
  apply (proj1 reconciliation_edits_only_last_section 3%Q 4);
    [reflexivity | vm_compute; discriminate].
Defined.

Lemma slides_length_array_from section_name n (f : nat -> Slot) :
  slides_length {| name := section_name; slides := Some (array_from n f) |} =
  Z.max 0 (Qfloor n).
Proof.
  unfold slides_length, array_from. cbn [slides].
  rewrite length_map, length_seq, ToLength_floor. lia.
Qed.

Lemma Qfloor_shift x y z : (x == y + inject_Z z)%Q -> Qfloor x = Qfloor y + z.
Proof. intros H. by rewrite (Qfloor_comp _ _ H), Qfloor_add. Qed.

(** The three lengths of the fallback outline, for a count of at least 3. *)
Lemma fallback_lengths (N : Q) :
  (3 <= N)%Q ->
  let openingSlides := Qmin 2 N in
  let remaining := (N - openingSlides)%Q in
  let analysisSlides := Qmax 1 (remaining - 2) in
  let remaining' := (remaining - analysisSlides)%Q in
  Qfloor openingSlides = 2 /\ 1 <= Qfloor analysisSlides /\
  (gtb remaining' 0 = true ->
   0 <= Qfloor remaining' /\
   Qfloor openingSlides + Qfloor analysisSlides + Qfloor remaining' = Qfloor N) /\
  (gtb remaining' 0 = false ->
   Qfloor openingSlides + Qfloor analysisSlides = Qfloor N).
Proof.
  intros H3. cbv zeta.
  destruct (Q.min_spec 2 N) as [[_ Hm]|[Hlt _]]; last lra.
  set (m := Qmin 2 N) in *.
  assert (Qfloor m = 2) as Hfm
    by (apply Qfloor_unique; change (inject_Z 2) with 2%Q; lra).
  pose proof (Qfloor_le N) as HfN. pose proof (Qlt_floor N) as HfN'.
  rewrite inject_Z_succ in HfN'.
  assert (3 <= Qfloor N) as H3'.
  { assert (inject_Z 3 < inject_Z (Qfloor N + 1))%Q as Hz
      by (rewrite inject_Z_succ; change (inject_Z 3) with 3%Q; lra).
    rewrite <- Zlt_Qlt in Hz. lia. }
  destruct (Q.max_spec 1 (N - m - 2)) as [[Ha1 Ha]|[Ha1 Ha]];
    set (a := Qmax 1 (N - m - 2)) in *.
  - (* at least five slides: Analysis takes all but four *)
    assert (Qfloor a = Qfloor N + -4) as Hfa
      by (apply Qfloor_shift; change (inject_Z (-4)) with (-4)%Q; lra).
    assert (Qfloor (N - m - a) = 2) as Hfr
      by (apply Qfloor_unique; change (inject_Z 2) with 2%Q; lra).
    assert (5 <= Qfloor N).
    { assert (inject_Z 5 < inject_Z (Qfloor N + 1))%Q as Hz
        by (rewrite inject_Z_succ; change (inject_Z 5) with 5%Q; lra).
      rewrite <- Zlt_Qlt in Hz. lia. }
    rewrite Hfm, Hfa, Hfr. repeat split; try lia.
    unfold gtb. intros E. apply ltb_ge in E. lra.
  - (* fewer than five: Analysis has one slide *)
    assert (Qfloor a = 1) as Hfa
      by (apply Qfloor_unique; change (inject_Z 1) with 1%Q; lra).
    assert (Qfloor (N - m - a) = Qfloor N + -3) as Hfr
      by (apply Qfloor_shift; change (inject_Z (-3)) with (-3)%Q; lra).
    rewrite Hfm, Hfa, Hfr. repeat split; try lia.
    unfold gtb. intros E. apply ltb_ge in E.
    assert (Qfloor N = 3) as ->; last lia.
    apply Qfloor_unique; change (inject_Z 3) with 3%Q; lra.
Qed.

Lemma fallback_outline_total p :
  (3 <= slide_count p)%Q ->
  count_slides (sections (fallback_outline p)) = Qfloor (slide_count p).
Proof.
  intros H. destruct (fallback_lengths (slide_count p) H) as (Ho & Ha & Hc & Hnc).
  cbv zeta in Ho, Ha, Hc, Hnc.
  unfold fallback_outline. cbv zeta. cbn [sections].
  destruct (gtb _ 0) eqn:E.
  - destruct (Hc eq_refl) as [Hr Hsum].
    cbn [app]. rewrite !count_slides_cons, !slides_length_array_from.
    unfold count_slides. cbn [fold_left]. lia.
  - specialize (Hnc eq_refl).
    cbn [app]. rewrite !count_slides_cons, !slides_length_array_from.
    unfold count_slides. cbn [fold_left]. lia.
Qed.

Lemma fallback_outline_defined p :
  Forall (fun sec => is_Some (slides sec)) (sections (fallback_outline p)).
Proof.
  unfold fallback_outline. cbv zeta. cbn [sections].
  destruct (gtb _ 0); repeat constructor; by eexists.
Qed.

Lemma split_last_nil {A} (l : list A) : split_last l = None -> l = [].
Proof.
  destruct l as [|x r]; first done. simpl. by destruct (split_last r) as [[? ?]|].
Qed.

Lemma split_last_some {A} (l init : list A) (x : A) :
  split_last l = Some (init, x) -> l = init ++ [x].
Proof.
  revert init. induction l as [|y r IH]; intros init H; first done.
  simpl in H. destruct (split_last r) as [[init' z]|] eqn:E.
  - injection H as <- <-. by rewrite (IH init' eq_refl).
  - injection H as <- <-. by rewrite (split_last_nil r E).
Qed.

(** A list is empty or ends in a last element. *)
Lemma snoc_cases {A} (l : list A) : l = [] \/ exists init x, l = init ++ [x].
Proof.
  destruct (split_last l) as [[init x]|] eqn:E.
  - right. exists init, x. by apply split_last_some.
  - left. by apply split_last_nil.
Qed.

Lemma generateOutline_try_throws p reply :
  (exists e, generateOutline_try p reply = Throw e) <-> throws (slide_count p) reply.
Proof.
  unfold generateOutline_try. split.
  - intros [e He]. destruct reply as [[parsed|]|e']; [|constructor|constructor].
    cbn [mbind result_bind defined] in He. unfold totalSlides in He.
    destruct (parsed_sections parsed) as [ss|] eqn:Hss; last by apply no_sections.
    destruct (Qeq_bool (inject_Z (count_slides ss)) (slide_count p)) eqn:Heq;
      first done.
    cbn [negb mbind result_bind defined] in He.
    assert (~ (inject_Z (totalSlides parsed) == slide_count p)%Q) as Hne.
    { unfold totalSlides. rewrite Hss. by apply Qeq_bool_neq. }
    destruct (snoc_cases ss) as [->|(init & lastSection & ->)].
    + by apply no_last_section.
    + destruct (slides lastSection) as [l|] eqn:Hl.
      * destruct (adjust_last_snoc (slide_count p) (count_slides (init ++ [lastSection]))
                    init lastSection l Hl) as (l' & Hadj & _).
        { unfold totalSlides in Hne. by rewrite Hss in Hne. }
        by rewrite Hadj in He.
      * by apply (no_slides _ parsed init lastSection).
  - intros [e| |parsed Hss|parsed Hss Hne|parsed init lastSection Hss Hl Hne].
    + by eexists.
    + by eexists.
    + cbn [mbind result_bind defined]. rewrite Hss.
      destruct (negb _); by eexists.
    + cbn [mbind result_bind defined]. rewrite (Qeq_bool_false _ _ Hne), Hss.
      cbn [negb mbind result_bind defined]. unfold totalSlides. rewrite Hss.
      unfold adjust_last, gtb. cbn [split_last defined mbind result_bind].
      destruct (ltb _ (slide_count p)) eqn:E1; first by eexists.
      destruct (ltb (slide_count p) _) eqn:E2; first by eexists.
      apply ltb_ge in E1, E2. unfold totalSlides in Hne. rewrite Hss in Hne.
      destruct Hne. lra.
    + cbn [mbind result_bind defined]. rewrite (Qeq_bool_false _ _ Hne), Hss.
      cbn [negb mbind result_bind defined].
      unfold adjust_last, gtb. rewrite split_last_snoc.
      cbn [defined mbind result_bind]. rewrite Hl.
      destruct (ltb _ (slide_count p)) eqn:E1; first by eexists.
      destruct (ltb (slide_count p) _) eqn:E2; first by eexists.
      apply ltb_ge in E1, E2. destruct Hne. lra.
Qed.

(** C2, amended. [generateOutline] never rejects: its [try] block throws
    exactly on the replies of [throws] (the LLM call, the cleaning or the
    parsing failed; the reply is [null] or has no sections; the adjustment
    found no last section or no slide list in it), and on each of them the
    [catch] branch returns the fallback outline.  For a requested count of
    at least 3 the fallback's sections are Opening, Analysis and, when
    slides remain, Conclusion, each with its slide list, and their slides
    add up to the whole part of the count: to the count itself exactly
    when it is a whole number. *)
Theorem generateOutline_falls_back_to_whole_count (p : OutlineParams) :
  (forall reply,
     (exists e, generateOutline_try p reply = Throw e) <->
     throws (slide_count p) reply) /\
  (forall reply,
     throws (slide_count p) reply ->
     generateOutline p reply = fallback_outline p) /\
  ((3 <= slide_count p)%Q ->
   count_slides (sections (fallback_outline p)) = Qfloor (slide_count p) /\
   Route.sum_slides 0 (sections (fallback_outline p)) = Ok (Qfloor (slide_count p)) /\
   (map name (sections (fallback_outline p)) = ["Opening"; "Analysis"] \/
    map name (sections (fallback_outline p)) = ["Opening"; "Analysis"; "Conclusion"]) /\
   ((inject_Z (count_slides (sections (fallback_outline p))) == slide_count p)%Q <->
    exists n, (slide_count p == inject_Z n)%Q)).
Proof.
  split; [|split].
  - apply generateOutline_try_throws.
  - intros reply H. apply generateOutline_try_throws in H as [e He].
    unfold generateOutline. by rewrite He.
  - intros H. pose proof (fallback_outline_total p H) as Htotal.
    split; first done. split; [|split].
    + rewrite sum_slides_defined; first by rewrite Htotal.
      apply fallback_outline_defined.
    + unfold fallback_outline. cbv zeta. cbn [sections].
      destruct (gtb _ 0); [by right | by left].
    + rewrite Htotal. split.
      * intros Heq. by exists (Qfloor (slide_count p)).
      * intros [n Hn]. by rewrite (proj1 (whole_floor_ceiling _ _ Hn)).
Qed.

Lemma generateOutline_falls_back_to_whole_count_witness :
  count_slides (sections (fallback_outline (sample_outline_params 7.5))) =
    Qfloor (slide_count (sample_outline_params 7.5)) /\
  Route.sum_slides 0 (sections (fallback_outline (sample_outline_params 7.5))) =
    Ok (Qfloor (slide_count (sample_outline_params 7.5))) /\
  (map name (sections (fallback_outline (sample_outline_params 7.5))) =
     ["Opening"; "Analysis"] \/
   map name (sections (fallback_outline (sample_outline_params 7.5))) =
     ["Opening"; "Analysis"; "Conclusion"]) /\
  ((inject_Z (count_slides (sections (fallback_outline (sample_outline_params 7.5))))
    == slide_count (sample_outline_params 7.5))%Q <->
   exists n, (slide_count (sample_outline_params 7.5) == inject_Z n)%Q).
Proof.
  apply (proj2 (proj2 (generateOutline_falls_back_to_whole_count
                         (sample_outline_params 7.5)))).
  vm_compute. discriminate.
Defined.

(** C2 as stated fails: a count of 3.5 is at least 3, and the fallback
    outline [generateOutline] returns for it has 3 slides. *)
Lemma fallback_outline_misses_fractional_count :
  ~ (forall p e,
       (3 <= slide_count p)%Q ->
       (inject_Z (count_slides (sections (generateOutline p (Throw e))))
        == slide_count p)%Q).
Proof.
  intros H. specialize (H (sample_outline_params 3.5) LlmError).
  assert (3 <= slide_count (sample_outline_params 3.5))%Q as H3
    by (vm_compute; discriminate).
  specialize (H H3). vm_compute in H. discriminate H.
Qed.

Lemma count_slides_snoc init sec l :
  slides sec = Some l ->
  count_slides (init ++ [sec]) = count_slides init + Z.of_nat (length l).
Proof.
  intros Hl. rewrite count_slides_app, count_slides_cons.
  unfold slides_length, count_slides. rewrite Hl. simpl. lia.
Qed.

Lemma with_slides_same sec l : slides sec = Some l -> with_slides sec l = sec.
Proof. destruct sec as [n s]. cbn. by intros ->. Qed.

(** How many slides the adjustment block leaves: the count rounded up
    after padding, the count rounded down after a truncation that fits in
    the last section; and one of the two whenever the excess is less than
    one slide more than the last section holds. *)
Lemma adjust_last_count slide_count init lastSection l :
  slides lastSection = Some l ->
  exists l',
    adjust_last slide_count (count_slides (init ++ [lastSection]))
      (init ++ [lastSection]) = Ok (init ++ [with_slides lastSection l']) /\
    ((inject_Z (count_slides (init ++ [lastSection])) < slide_count)%Q ->
     count_slides (init ++ [with_slides lastSection l']) = Qceiling slide_count) /\
    ((slide_count <= inject_Z (count_slides (init ++ [lastSection])))%Q ->
     (inject_Z (count_slides (init ++ [lastSection])) - slide_count
        <= inject_Z (Z.of_nat (length l)))%Q ->
     count_slides (init ++ [with_slides lastSection l']) = Qfloor slide_count) /\
    ((inject_Z (count_slides (init ++ [lastSection])) - slide_count
        < inject_Z (Z.of_nat (length l)) + 1)%Q ->
     Qfloor slide_count <= count_slides (init ++ [with_slides lastSection l'])
       <= Qceiling slide_count).
Proof.
  intros Hl. pose proof (count_slides_snoc init lastSection l Hl) as Htotal.
  set (total := count_slides (init ++ [lastSection])) in *.
  pose proof (floor_le_ceiling slide_count) as Hfc.
  destruct (adjust_last_cases slide_count total init lastSection l Hl)
    as [[Hlt ->]|[[Hgt ->]|[Heq ->]]].
  - (* padding *)
    eexists. split; first done.
    assert (count_slides (init ++ [with_slides lastSection
              (push_additional (name lastSection) 0
                 (iterations (slide_count - inject_Z total)) l)]) =
            Qceiling slide_count) as Hcount.
    { erewrite count_slides_snoc by reflexivity. rewrite push_additional_spec.
      rewrite length_app, length_map, length_seq. unfold iterations.
      rewrite Qceiling_sub.
      pose proof (Qle_ceiling slide_count) as Hc.
      assert (inject_Z total < inject_Z (Qceiling slide_count))%Q as Hz by lra.
      rewrite <- Zlt_Qlt in Hz. lia. }
    split; [done | split]; [intros; lra | intros _; lia].
  - (* truncation *)
    eexists. split; first done.
    set (e := (inject_Z (Z.of_nat (length l)) - (inject_Z total - slide_count))%Q).
    assert (e == slide_count + inject_Z (Z.of_nat (length l) - total))%Q as He
      by (unfold e; rewrite inject_Z_sub; lra).
    pose proof (Qfloor_le slide_count) as Hf.
    assert (Qfloor slide_count <= total) as Hft.
    { assert (inject_Z (Qfloor slide_count) <= inject_Z total)%Q as Hz by lra.
      by rewrite <- Zle_Qle in Hz. }
    assert ((0 <= e)%Q ->
            count_slides (init ++ [with_slides lastSection (slice0 l e)]) =
            Qfloor slide_count) as Hfits.
    { intros Hpos. erewrite count_slides_snoc by reflexivity. unfold slice0.
      rewrite (ToIntegerOrInfinity_nonneg e Hpos), (Qfloor_shift _ _ _ He).
      assert (0 <= Qfloor slide_count + (Z.of_nat (length l) - total)) as Hk.
      { rewrite <- (Qfloor_shift _ _ _ He).
        change 0 with (Qfloor 0). by apply Qfloor_resp_le. }
      rewrite length_take.
      destruct (Z.ltb_spec (Qfloor slide_count + (Z.of_nat (length l) - total)) 0); lia. }
    split; [intros; lra | split].
    + intros _ Hfit. apply Hfits. unfold e. lra.
    + intros Hnear. destruct (Qlt_le_dec e 0) as [Hneg|Hpos].
      * erewrite count_slides_snoc by reflexivity. unfold slice0.
        rewrite (ToIntegerOrInfinity_small e) by (unfold e in *; lra).
        cbn [Z.ltb Z.compare]. rewrite length_take.
        assert (Qceiling slide_count = total - Z.of_nat (length l)) as Hc.
        { apply Qceiling_unique; rewrite inject_Z_sub; unfold e in *; lra. }
        lia.
      * rewrite (Hfits Hpos). lia.
  - (* the count is already right *)
    exists l. rewrite (with_slides_same _ _ Hl). split; first done.
    destruct (whole_floor_ceiling slide_count total) as [Hf Hc]; first lra.
    fold total. split; [intros; lra | split]; intros; lia.
Qed.

(** For a whole count the adjustment block reaches it whenever the excess
    fits in the last section ... *)
Lemma adjust_last_exact slide_count n init lastSection l :
  (slide_count == inject_Z n)%Q ->
  slides lastSection = Some l ->
  (inject_Z (count_slides (init ++ [lastSection])) - slide_count
     <= inject_Z (Z.of_nat (length l)))%Q ->
  exists ss',
    adjust_last slide_count (count_slides (init ++ [lastSection]))
      (init ++ [lastSection]) = Ok ss' /\
    count_slides ss' = n.
Proof.
  intros Hn Hl Hfit.
  destruct (adjust_last_count slide_count init lastSection l Hl)
    as (l' & Hadj & Hpad & Htrunc & _).
  destruct (whole_floor_ceiling slide_count n Hn) as [Hf Hc].
  eexists. split; first done.
  destruct (Qlt_le_dec (inject_Z (count_slides (init ++ [lastSection]))) slide_count)
    as [Hlt|Hge].
  - by rewrite (Hpad Hlt).
  - by rewrite (Htrunc Hge Hfit).
Qed.

(** ... and the block leaves too many slides whenever it does not. *)
Lemma adjust_last_overshoot slide_count init lastSection l :
  slides lastSection = Some l ->
  (inject_Z (Z.of_nat (length l))
     < inject_Z (count_slides (init ++ [lastSection])) - slide_count)%Q ->
  exists ss',
    adjust_last slide_count (count_slides (init ++ [lastSection]))
      (init ++ [lastSection]) = Ok ss' /\
    (slide_count < inject_Z (count_slides ss'))%Q.
Proof.
  intros Hl Hover. pose proof (count_slides_snoc init lastSection l Hl) as Htotal.
  set (total := count_slides (init ++ [lastSection])) in *.
  pose proof (inject_nat_nonneg (length l)) as Hlen.
  destruct (adjust_last_cases slide_count total init lastSection l Hl)
    as [[Hlt ->]|[[Hgt ->]|[Heq ->]]]; [lra| |lra].
  eexists. split; first done.
  erewrite count_slides_snoc by reflexivity. unfold slice0.
  set (e := (inject_Z (Z.of_nat (length l)) - (inject_Z total - slide_count))%Q).
  assert (e < 0)%Q as Hneg by (unfold e; lra).
  pose proof (ToIntegerOrInfinity_neg e Hneg) as Hk.
  rewrite length_take.
  assert (inject_Z (count_slides init) == inject_Z total - inject_Z (Z.of_nat (length l)))%Q
    as Hinit by (rewrite <- inject_Z_sub; f_equiv; lia).
  rewrite inject_Z_plus.
  match goal with
  | |- (_ < _ + inject_Z (Z.of_nat ?k))%Q => pose proof (inject_nat_nonneg k)
  end.
  lra.
Qed.

(** C1, at a reply of eleven slides of which one is in the last section,
    for a validated request of three slides: [generateOutline] empties the
    last section, the handler's own pass changes nothing, and the request
    succeeds with a deck of ten slides. *)
Theorem POST_returns_ten_slides_for_three :
  (exists validatedData,
     Route.GenerateDeckRequestSchema three_slides_body = inl validatedData /\
     Route.slide_count validatedData = 3%Q) /\
  count_slides (sections (generateOutline (sample_outline_params 3)
                            (Ok (Some long_outline)))) = 10 /\
  exists response,
    (Route.POST long_outline_env three_slides_body).2 = Route.Json200 response /\
    length (Route.slides (Route.deck response)) = 10%nat.
Proof.
  split; [|split].
  - eexists. split; [vm_compute; reflexivity | reflexivity].
  - vm_compute. reflexivity.
  - eexists. split; [vm_compute; reflexivity | reflexivity].
Qed.

End Outlines.

(** ** The slide loop *)

Section SlideLoop.
Import JsString DeckGenerator Props.
Variables (env : Route.Env) (docSummary theme : string).


Lemma slide_try_fails n slot :
  Route.slide_late env n = true \/ Route.visual_late env n = true \/
  Route.visual_reply env n = Ok None ->
  exists e, (Route.slide_try env docSummary theme n slot).2 = Throw e.
Proof.
  intros H. unfold Route.slide_try, Route.race.
  destruct (Route.slide_late env n); first by eauto.
  destruct (defined (Route.image_style theme)) as [style|e]; last by eauto.
  cbn [snd]. destruct (Route.visual_late env n); first by (cbn; eauto).
  destruct H as [|[|H]]; try done. rewrite H. cbn. eauto.
Qed.


Lemma slot_step_pushed st slot :
  Route.slot_step env docSummary theme st slot =
  {| Route.loop_slides :=
       Route.loop_slides st ++ [pushed env docSummary theme (S (Route.currentSlide st)) slot];
     Route.currentSlide := S (Route.currentSlide st);
     Route.calls :=
       Route.calls st ++
       (Route.slide_try env docSummary theme (S (Route.currentSlide st)) slot).1;
     Route.thrown := Route.thrown st |}.
Proof.
  unfold Route.slot_step, pushed.
  by destruct (Route.slide_try env docSummary theme _ slot).
Qed.

Lemma inner_loop l : forall st,
  let st' := fold_left (Route.slot_step env docSummary theme) l st in
  Route.loop_slides st' =
    Route.loop_slides st ++ pushed_from env docSummary theme (Route.currentSlide st) l /\
  Route.currentSlide st' = (Route.currentSlide st + length l)%nat /\
  Route.thrown st' = Route.thrown st.
Proof.
  induction l as [|slot l IH]; intros st; cbn [fold_left pushed_from length].
  - by rewrite app_nil_r, Nat.add_0_r.
  - destruct (IH (Route.slot_step env docSummary theme st slot)) as (H1 & H2 & H3).
    rewrite H1, H2, H3, slot_step_pushed. cbn.
    rewrite <- app_assoc. split; [done | split; [lia | done]].
Qed.

Lemma pushed_from_app n l1 l2 :
  pushed_from env docSummary theme n (l1 ++ l2) =
  pushed_from env docSummary theme n l1 ++
  pushed_from env docSummary theme (n + length l1) l2.
Proof.
  revert n. induction l1 as [|slot l1 IH]; intros n; cbn.
  - by rewrite Nat.add_0_r.
  - rewrite IH. do 3 f_equal. lia.
Qed.

Lemma section_step_defined st sec l :
  Route.thrown st = None -> slides sec = Some l ->
  Route.section_step env docSummary theme st sec =
  fold_left (Route.slot_step env docSummary theme) l st.
Proof. intros Hst Hl. unfold Route.section_step. by rewrite Hst, Hl. Qed.

Lemma slots_of_cons sec ss :
  slots_of (sec :: ss) = default [] (slides sec) ++ slots_of ss.
Proof. reflexivity. Qed.

Lemma outer_loop ss : forall st,
  Forall (fun sec => is_Some (slides sec)) ss ->
  Route.thrown st = None ->
  Route.loop_slides (Route.slide_loop env docSummary theme ss st) =
    Route.loop_slides st ++
    pushed_from env docSummary theme (Route.currentSlide st) (slots_of ss) /\
  Route.thrown (Route.slide_loop env docSummary theme ss st) = None.
Proof.
  unfold Route.slide_loop.
  induction ss as [|sec ss IH]; intros st Hall Hst.
  - cbn. by rewrite app_nil_r.
  - inversion Hall as [|? ? [l Hl] Hall']; subst.
    cbn [fold_left]. rewrite (section_step_defined st sec l Hst Hl).
    rewrite slots_of_cons, Hl. cbn [default].
    destruct (inner_loop l st) as (H1 & H2 & H3).
    destruct (IH (fold_left (Route.slot_step env docSummary theme) l st) Hall')
      as (H4 & H5); first by rewrite H3.
    split; last done.
    rewrite H4, H1, H2, pushed_from_app. by rewrite <- app_assoc.
Qed.



(** Past its own reconciliation the handler holds sections that all have
    their slide lists: an absent list has thrown before the loop. *)
Lemma reconcile_defined slide_count ss ss' :
  Route.reconcile slide_count ss = Ok ss' ->
  Forall (fun sec => is_Some (slides sec)) ss'.
Proof.
  unfold Route.reconcile.
  destruct (Route.sum_slides 0 ss) as [total|e] eqn:Hsum; last done. cbn.
  apply sum_slides_count in Hsum as [_ Hall].
  destruct (negb (Qeq_bool (inject_Z total) slide_count)); last by intros [= <-].
  unfold adjust_last, JsNumber.gtb.
  assert (Hpatch : forall f,
    (init_last ← defined (split_last ss);
     let '(init, lastSection) := init_last in
     l ← defined (slides lastSection);
     Ok (init ++ [ {| name := name lastSection; slides := Some (f lastSection l) |} ])) = Ok ss' ->
    Forall (fun sec => is_Some (slides sec)) ss').
  { intros f. destruct (split_last ss) as [[init lastSection]|] eqn:E; last done.
    apply split_last_some in E as ->. apply Forall_app in Hall as [Hinit _]. cbn.
    destruct (slides lastSection); last done. cbn. intros [= <-].
    apply Forall_app. split; first done. repeat constructor. by eexists. }
  destruct (JsNumber.ltb (inject_Z total) slide_count).
  - apply (Hpatch (fun lastSection => push_additional (name lastSection) 0 _)).
  - destruct (JsNumber.ltb slide_count (inject_Z total)); last by intros [= <-].
    apply (Hpatch (fun _ l => slice0 l _)).
Qed.




End SlideLoop.



(** ** Request validation *)

Section Validation.
Import JsString JsNumber Route Props.

Lemma ap_inl_inv {A B} (f : parsed (A -> B)) (a : parsed A) (y : B) :
  f <*> a = inl y -> exists g x, f = inl g /\ a = inl x /\ y = g x.
Proof. destruct f, a; try done. intros [= <-]. eauto. Qed.

Lemma rejected_ap_l {A B} (f : parsed (A -> B)) (a : parsed A) i :
  rejected f i -> rejected (f <*> a) i.
Proof.
  intros (es & -> & Hi). destruct a as [x|es']; eexists; (split; first done);
    [done | by apply elem_of_app; left].
Qed.

Lemma rejected_ap_r {A B} (f : parsed (A -> B)) (a : parsed A) i :
  rejected a i -> rejected (f <*> a) i.
Proof.
  intros (es & -> & Hi). destruct f as [g|es']; eexists; (split; first done);
    [done | by apply elem_of_app; right].
Qed.

Lemma rejected_fail {A} p c :
  rejected (@fail A p c) {| path := p; issue_kind := c |}.
Proof. eexists. split; [done | by left]. Qed.

Lemma z_enum_outside values p s :
  s ∉ values ->
  z_enum values p (Some (JStr s)) = fail p invalid_enum_value.
Proof. intros H. unfold z_enum. by rewrite bool_decide_eq_false_2. Qed.

Lemma z_enum_not_a_string values p v :
  (forall s, v <> JStr s) ->
  z_enum values p (Some v) = fail p invalid_type.
Proof. intros H. destruct v; try done. by destruct (H s). Qed.

Lemma enums_cases field values :
  (field, values) ∈ ENUMS ->
  (field = "mode" /\ values = MODES) \/ (field = "tone" /\ values = TONES) \/
  (field = "audience" /\ values = AUDIENCES) \/ (field = "theme" /\ values = THEMES).
Proof.
  unfold ENUMS. rewrite !elem_of_cons, elem_of_nil.
  intros [[= -> ->]|[[= -> ->]|[[= -> ->]|[[= -> ->]|[]]]]]; tauto.
Qed.

(** An enumerated member whose schema fails makes the request rejected. *)
Lemma enum_rejected m field values code :
  (field, values) ∈ ENUMS ->
  z_enum values [field] (m !! field) = fail [field] code ->
  is_Some (m !! field) ->
  rejected (GenerateDeckRequestSchema (JObj m))
    {| path := [field]; issue_kind := code |}.
Proof.
  intros Hin Hfail [v Hv]. unfold GenerateDeckRequestSchema.
  destruct (enums_cases _ _ Hin) as [[-> ->]|[[-> ->]|[[-> ->]|[-> ->]]]].
  - do 8 apply rejected_ap_l. apply rejected_ap_r.
    unfold member. cbn [app]. rewrite Hfail. apply rejected_fail.
  - do 5 apply rejected_ap_l. apply rejected_ap_r.
    unfold member, with_default. cbn [app]. rewrite Hv, <- Hv, Hfail.
    apply rejected_fail.
  - do 4 apply rejected_ap_l. apply rejected_ap_r.
    unfold member, with_default. cbn [app]. rewrite Hv, <- Hv, Hfail.
    apply rejected_fail.
  - do 2 apply rejected_ap_l. apply rejected_ap_r.
    unfold member, with_default. cbn [app]. rewrite Hv, <- Hv, Hfail.
    apply rejected_fail.
Qed.

(** A member the schema rejects makes the whole request rejected. *)
Lemma offence_rejected m field code :
  offence m field code ->
  rejected (GenerateDeckRequestSchema (JObj m))
    {| path := [field]; issue_kind := code |}.
Proof.
  intros H.
  destruct H as [n Hm Hn|n Hm Hn|field values s Hin Hm Hs|field values v Hin Hm Hv].
  - unfold GenerateDeckRequestSchema.
    do 3 apply rejected_ap_l. apply rejected_ap_r.
    unfold member, with_default, z_number. rewrite Hm.
    rewrite (proj2 (ltb_lt n 3) Hn). apply rejected_fail.
  - unfold GenerateDeckRequestSchema.
    do 3 apply rejected_ap_l. apply rejected_ap_r.
    unfold member, with_default, z_number, gtb. rewrite Hm.
    rewrite (proj2 (ltb_ge n 3)) by lra.
    rewrite (proj2 (ltb_lt 50 n) Hn). apply rejected_fail.
  - apply (enum_rejected m field values); [done | | by rewrite Hm].
    rewrite Hm. by apply z_enum_outside.
  - apply (enum_rejected m field values); [done | | by rewrite Hm].
    rewrite Hm. by apply z_enum_not_a_string.
Qed.

Lemma POST_rejected env body i :
  rejected (GenerateDeckRequestSchema body) i ->
  exists details,
    POST env body = ([], Json400 "Invalid request data" details) /\
    (join "." (path i), issue_kind i) ∈ details.
Proof.
  intros (es & Hes & Hi). unfold POST. rewrite Hes.
  eexists. split; first done.
  unfold details_of. apply list_elem_of_fmap. by exists i.
Qed.

(** What an accepted request holds for each member that has a default. *)
Lemma accepted_defaults m v :
  GenerateDeckRequestSchema (JObj m) = inl v ->
  member (with_default (z_enum TONES) "professional") [] "tone" m = inl (tone v) /\
  member (with_default (z_enum AUDIENCES) "general") [] "audience" m = inl (audience v) /\
  member (with_default (z_number 3 50) 10%Q) [] "slide_count" m = inl (slide_count v) /\
  member (with_default (z_enum THEMES) "deep_space") [] "theme" m = inl (theme v).
Proof.
  unfold GenerateDeckRequestSchema. intros H.
  repeat match type of H with
         | _ <*> _ = inl _ =>
             let g := fresh "g" in let x := fresh "x" in let Hx := fresh "Hx" in
             apply ap_inl_inv in H as (g & x & H & Hx & ->)
         end.
  injection H as <-. cbn. by repeat split.
Qed.

(** C9. A request object whose [slide_count] is below 3 or above 50, or
    whose [mode], [tone], [audience] or [theme] is present and outside its
    enumeration, is answered with status 400 and the error ['Invalid request data'], the
    details list the offending member, and no LLM call has been issued.  An
    accepted request has a [slide_count] from 3 to 50, and each of
    [slide_count], [tone], [audience] and [theme] that the body omits holds
    its default: 10, ['professional'], ['general'], ['deep_space']. *)
Theorem POST_rejects_invalid_requests :
  (forall env m field code,
     offence m field code ->
     exists details,
       POST env (JObj m) = ([], Json400 "Invalid request data" details) /\
       (field, code) ∈ details /\
       status (POST env (JObj m)).2 = 400) /\
  (forall m v,
     GenerateDeckRequestSchema (JObj m) = inl v ->
     (3 <= slide_count v <= 50)%Q /\
     (m !! "slide_count" = None -> slide_count v = 10%Q) /\
     (m !! "tone" = None -> tone v = "professional") /\
     (m !! "audience" = None -> audience v = "general") /\
     (m !! "theme" = None -> theme v = "deep_space")) /\
  GenerateDeckRequestSchema minimal_body =
    inl {| mode := "quick_prompt"; topic_or_prompt := None; instructions := None;
           tone := "professional"; audience := "general"; slide_count := 10;
           theme := "deep_space"; live_widgets := false; assets := None |}.
Proof.
  split; [|split].
  - intros env m field code H.
    destruct (POST_rejected env (JObj m) _ (offence_rejected m field code H))
      as (details & HPOST & Hin).
    exists details. split; first done. split; first done. by rewrite HPOST.
  - intros m v H.
    destruct (accepted_defaults m v H) as (Htone & Haud & Hcount & Htheme).
    unfold member, with_default in *. split; [|repeat split].
    + destruct (m !! "slide_count") as [[| |n| | |]|]; try done.
      * unfold z_number, gtb in Hcount.
        destruct (ltb n 3) eqn:E1; first done.
        destruct (ltb 50 n) eqn:E2; first done.
        injection Hcount as <-. apply ltb_ge in E1, E2. by split.
      * injection Hcount as <-. split; vm_compute; discriminate.
    + intros Hm. rewrite Hm in Hcount. by injection Hcount.
    + intros Hm. rewrite Hm in Htone. by injection Htone.
    + intros Hm. rewrite Hm in Haud. by injection Haud.
    + intros Hm. rewrite Hm in Htheme. by injection Htheme.
  - vm_compute. reflexivity.
Qed.

Lemma POST_rejects_invalid_requests_witness :
  exists details,
    POST long_outline_env (JObj too_many_slides) =
      ([], Json400 "Invalid request data" details) /\
    ("slide_count", too_big) ∈ details /\
    status (POST long_outline_env (JObj too_many_slides)).2 = 400.
Proof.
  apply (proj1 POST_rejects_invalid_requests long_outline_env too_many_slides).
  apply (count_too_big too_many_slides 51); [vm_compute; reflexivity | reflexivity].
Defined.

End Validation.

(** ** Rate limiting *)

Section RateLimit.
Import Llm.

Lemma checkRateLimit_other_keys (m : gmap string RateEntry) now ip limit windowMs key :
  key <> ip -> (checkRateLimit m now ip limit windowMs).2 !! key = m !! key.
Proof.
  intros Hne. unfold checkRateLimit.
  destruct (m !! ip) as [current|]; repeat case_match; cbn [snd];
    by rewrite ?lookup_insert_ne.
Qed.

Lemma checkRateLimit_same_entry (m1 m2 : gmap string RateEntry) now ip limit windowMs :
  m1 !! ip = m2 !! ip ->
  (checkRateLimit m1 now ip limit windowMs).1 =
  (checkRateLimit m2 now ip limit windowMs).1.
Proof.
  intros H. unfold checkRateLimit. rewrite H.
  destruct (m2 !! ip); by repeat case_match.
Qed.

(** The entry left by [S k] successive calls at one clock reading. *)
Lemma after_calls_entry (m : gmap string RateEntry) now ip limit windowMs k :
  m !! ip = None ->
  0 <= default 3600000 windowMs ->
  after_calls (S k) m now ip limit windowMs !! ip =
  Some {| count := Z.min (Z.of_nat (S k)) (Z.max 1 (default 20 limit));
          resetTime := now + default 3600000 windowMs |}.
Proof.
  intros Hm Hw. induction k as [|k IH].
  - cbn [after_calls]. unfold checkRateLimit. rewrite Hm. cbn [snd].
    rewrite lookup_insert_eq. do 2 f_equal. lia.
  - change (after_calls (S (S k)) m now ip limit windowMs)
      with (checkRateLimit (after_calls (S k) m now ip limit windowMs)
              now ip limit windowMs).2.
    unfold checkRateLimit at 1. rewrite IH. cbn [resetTime count].
    destruct (Z.gtb_spec now (now + default 3600000 windowMs)); first lia.
    destruct (Z.geb_spec (Z.min (Z.of_nat (S k)) (Z.max 1 (default 20 limit)))
                (default 20 limit)); cbn [snd].
    + rewrite IH. do 2 f_equal. lia.
    + rewrite lookup_insert_eq. do 2 f_equal. lia.
Qed.

(** C7, as the code has it.  [checkRateLimit] keeps a counter per key in a
    map that outlives the call: a call leaves the entries of other keys
    alone, its result depends on the map only through the entry of its own
    key, and from a map without that key, at one clock reading and with a
    non-negative window, the call that follows [k] earlier ones returns
    [true] exactly when [k = 0] or [k] is below the limit. *)
Theorem checkRateLimit_counts_earlier_calls :
  (forall (m : gmap string RateEntry) now ip limit windowMs key,
     key <> ip -> (checkRateLimit m now ip limit windowMs).2 !! key = m !! key) /\
  (forall (m1 m2 : gmap string RateEntry) now ip limit windowMs,
     m1 !! ip = m2 !! ip ->
     (checkRateLimit m1 now ip limit windowMs).1 =
     (checkRateLimit m2 now ip limit windowMs).1) /\
  (forall (m : gmap string RateEntry) now ip limit windowMs k,
     m !! ip = None ->
     0 <= default 3600000 windowMs ->
     (checkRateLimit (after_calls k m now ip limit windowMs)
        now ip limit windowMs).1 =
     bool_decide (k = 0%nat \/ Z.of_nat k < default 20 limit)).
Proof.
  split; [|split].
  - intros. by apply checkRateLimit_other_keys.
  - intros. by apply checkRateLimit_same_entry.
  - intros m now ip limit windowMs k Hm Hw. destruct k as [|k].
    + cbn [after_calls]. unfold checkRateLimit. rewrite Hm. cbn [fst].
      symmetry. apply bool_decide_eq_true. by left.
    + unfold checkRateLimit. rewrite (after_calls_entry m now ip limit windowMs k Hm Hw).
      cbn [resetTime count].
      destruct (Z.gtb_spec now (now + default 3600000 windowMs)); first lia.
      destruct (Z.geb_spec (Z.min (Z.of_nat (S k)) (Z.max 1 (default 20 limit)))
                  (default 20 limit)); cbn [fst]; symmetry.
      * apply bool_decide_eq_false. lia.
      * apply bool_decide_eq_true. lia.
Qed.

Lemma checkRateLimit_counts_earlier_calls_witness :
  (checkRateLimit (after_calls 2 ∅ 0 "10.0.0.1" (Some 2) None)
     0 "10.0.0.1" (Some 2) None).1 =
  bool_decide (2%nat = 0%nat \/ Z.of_nat 2 < default 20 (Some 2)).
Proof.
  apply (proj2 (proj2 checkRateLimit_counts_earlier_calls) ∅ 0 "10.0.0.1"
           (Some 2) None 2%nat); [reflexivity | simpl; lia].
Defined.

(** C7 as stated fails: the same call, with the same arguments and the same
    clock reading, returns [true] on a fresh map and [false] after one
    earlier call. *)
Lemma checkRateLimit_result_depends_on_earlier_calls :
  ~ (forall (n1 n2 : nat) now ip limit windowMs,
       (checkRateLimit (after_calls n1 ∅ now ip limit windowMs)
          now ip limit windowMs).1 =
       (checkRateLimit (after_calls n2 ∅ now ip limit windowMs)
          now ip limit windowMs).1).
Proof.
  intros H. specialize (H 0%nat 1%nat 0 "10.0.0.1" (Some 1) None).
  vm_compute in H. discriminate H.
Qed.

End RateLimit.

(** ** The handler *)

Section Handler.
Import DeckGenerator Props.

(** A successful response carries the slides the loop pushed for the slots
    of the reconciled outline, one per slot and in their order. *)
Lemma POST_deck_slides env body issued response :
  Route.POST env body = (issued, Route.Json200 response) ->
  exists validatedData outline ss docSummary,
    Route.GenerateDeckRequestSchema body = inl validatedData /\
    Route.reconcile (Route.slide_count validatedData) (sections outline) = Ok ss /\
    Forall (fun sec => is_Some (slides sec)) ss /\
    Route.slides (Route.deck response) =
      pushed_from env docSummary (Route.theme validatedData) 0 (slots_of ss).
Proof.
  unfold Route.POST.
  destruct (Route.GenerateDeckRequestSchema body) as [v|issues]; last done.
  unfold Route.generate.
  set (docSummary := match Route.assets v with Some _ => _ | None => _ end).
  destruct (Route.race _ _) as [outline|e]; last done.
  destruct (Route.reconcile _ _) as [ss|e] eqn:Hrec; last done.
  destruct (Route.sum_slides 0 ss); last done.
  pose proof (reconcile_defined _ _ _ Hrec) as Hall.
  destruct (outer_loop env docSummary (Route.theme v) ss loop_start Hall eq_refl)
    as [Hslides Hthrown].
  fold loop_start. rewrite Hthrown. intros [= _ <-].
  exists v, outline, ss, docSummary. by rewrite Hslides.
Qed.

End Handler.

(** * Further properties *)

(** ** The outline and the deck: when the count is exact *)

Section ExactCount.
Import JsString JsNumber DeckGenerator Props Vocabulary.

Lemma length_slots_of ss : Z.of_nat (length (slots_of ss)) = count_slides ss.
Proof.
  induction ss as [|sec ss IH]; first done.
  rewrite slots_of_cons, length_app, count_slides_cons, Nat2Z.inj_add, IH.
  unfold slides_length. by destruct (slides sec).
Qed.

Lemma pushed_from_length env docSummary theme slots : forall n,
  length (pushed_from env docSummary theme n slots) = length slots.
Proof. induction slots as [|s slots IH]; intros n; cbn; [done | by rewrite IH]. Qed.

(** The [try] block brings a fitting reply to the requested count, rounded
    up when slides were missing and down otherwise. *)
Lemma generateOutline_fits p parsed init lastSection l :
  parsed_sections parsed = Some (init ++ [lastSection]) ->
  slides lastSection = Some l ->
  (inject_Z (count_slides (init ++ [lastSection])) - slide_count p
     <= inject_Z (Z.of_nat (length l)))%Q ->
  exists l',
    generateOutline p (Ok (Some parsed)) =
      {| outline_title := parsed_title parsed;
         sections := init ++ [with_slides lastSection l'] |} /\
    count_slides (init ++ [with_slides lastSection l']) =
      (if ltb (inject_Z (count_slides (init ++ [lastSection]))) (slide_count p)
       then Qceiling (slide_count p) else Qfloor (slide_count p)).
Proof.
  intros Hss Hl Hfit.
  unfold generateOutline, generateOutline_try.
  cbn [mbind result_bind defined]. unfold totalSlides. rewrite Hss.
  set (total := count_slides (init ++ [lastSection])) in *.
  destruct (Qeq_bool (inject_Z total) (slide_count p)) eqn:Heq;
    cbn [negb mbind result_bind defined].
  - apply Qeq_bool_iff in Heq.
    exists l. rewrite (with_slides_same _ _ Hl). split; first done.
    rewrite (proj2 (ltb_ge (inject_Z total) (slide_count p))) by lra.
    fold total. symmetry. apply (whole_floor_ceiling (slide_count p) total). lra.
  - destruct (adjust_last_count (slide_count p) init lastSection l Hl)
      as (l' & Hadj & Hpad & Htrunc & _).
    fold total in Hadj, Hpad, Htrunc. rewrite Hadj.
    exists l'. split; first done.
    destruct (ltb (inject_Z total) (slide_count p)) eqn:Hlt.
    + apply ltb_lt in Hlt. by apply Hpad.
    + apply ltb_ge in Hlt. by apply Htrunc.
Qed.

(** The handler's pass, on sections that all have their lists and whose
    total is the count rounded down or up: it succeeds and leaves such
    sections. *)
Lemma reconcile_within slide_count init lastSection l :
  Forall (fun sec => is_Some (slides sec)) init ->
  slides lastSection = Some l ->
  Qfloor slide_count <= count_slides (init ++ [lastSection]) <= Qceiling slide_count ->
  exists ss',
    Route.reconcile slide_count (init ++ [lastSection]) = Ok ss' /\
    Forall (fun sec => is_Some (slides sec)) ss' /\
    Qfloor slide_count <= count_slides ss' <= Qceiling slide_count.
Proof.
  intros Hinit Hl Hcount.
  assert (Forall (fun sec => is_Some (slides sec)) (init ++ [lastSection])) as Hall.
  { apply Forall_app. split; first done. repeat constructor. by eexists. }
  unfold Route.reconcile. rewrite (sum_slides_defined _ 0 Hall), Z.add_0_l.
  cbn [mbind result_bind].
  destruct (Qeq_bool _ slide_count); cbn [negb]; first by eexists.
  destruct (adjust_last_count slide_count init lastSection l Hl)
    as (l' & Hadj & _ & _ & Hnear).
  rewrite Hadj. eexists. split; first done. split.
  - apply Forall_app. split; first done. repeat constructor. by eexists.
  - apply Hnear.
    pose proof (Qceiling_lt slide_count) as Hc. rewrite inject_Z_pred in Hc.
    pose proof (inject_nat_nonneg (length l)).
    assert (inject_Z (count_slides (init ++ [lastSection]))
            <= inject_Z (Qceiling slide_count))%Q as Hz
      by (rewrite <- Zle_Qle; lia).
    lra.
Qed.

(** Whatever the reply, a reconcilable one leaves [generateOutline] with an
    outline whose sections all have their lists, the last one included,
    and whose total is the requested count rounded down or up. *)
Lemma generateOutline_reconcilable p reply :
  (3 <= slide_count p)%Q ->
  reconcilable (slide_count p) reply ->
  exists init lastSection l,
    sections (generateOutline p reply) = init ++ [lastSection] /\
    Forall (fun sec => is_Some (slides sec)) init /\
    slides lastSection = Some l /\
    Qfloor (slide_count p) <= count_slides (init ++ [lastSection])
      <= Qceiling (slide_count p).
Proof.
  intros Hmin Hrec.
  pose proof (floor_le_ceiling (slide_count p)) as Hfc.
  assert (exists init lastSection l,
            sections (fallback_outline p) = init ++ [lastSection] /\
            Forall (fun sec => is_Some (slides sec)) init /\
            slides lastSection = Some l /\
            Qfloor (slide_count p) <= count_slides (init ++ [lastSection])
              <= Qceiling (slide_count p)) as Hfallback.
  { pose proof (fallback_outline_total p Hmin) as Htotal. revert Htotal.
    unfold fallback_outline. cbv zeta. cbn [sections].
    destruct (gtb _ 0); intros Htotal.
    - eexists [_; _], _, _. split; first done.
      split; first (repeat constructor; by eexists). split; first done.
      cbn [app] in *. lia.
    - eexists [_], _, _. split; first done.
      split; first (repeat constructor; by eexists). split; first done.
      cbn [app] in *. lia. }
  destruct Hrec as [e| |parsed init lastSection l Hss Hinit Hl Hfit]; [done..|].
  destruct (generateOutline_fits p parsed init lastSection l Hss Hl Hfit)
    as (l' & -> & Hcount).
  cbn [sections]. exists init, (with_slides lastSection l'), l'.
  split; first done. split; first done. split; first done.
  rewrite Hcount. destruct (ltb _ _); lia.
Qed.

Lemma generate_within env v :
  Route.outline_late env = false ->
  (3 <= Route.slide_count v)%Q ->
  reconcilable (Route.slide_count v) (Route.outline_reply env) ->
  exists issued response,
    Route.generate env v = (issued, Ok response) /\
    Qfloor (Route.slide_count v)
      <= Z.of_nat (length (Route.slides (Route.deck response)))
      <= Qceiling (Route.slide_count v).
Proof.
  intros Hlate Hmin Hrec. unfold Route.generate.
  set (docSummary := match Route.assets v with Some _ => _ | None => _ end).
  set (params := {| slide_count := Route.slide_count v |}).
  rewrite Hlate. cbn [Route.race].
  destruct (generateOutline_reconcilable params (Route.outline_reply env) Hmin Hrec)
    as (init & lastSection & l & -> & Hinit & Hl & Hcount).
  cbn [slide_count params] in Hcount.
  destruct (reconcile_within _ init lastSection l Hinit Hl Hcount)
    as (ss' & -> & Hall & Hcount').
  rewrite (sum_slides_defined _ 0 Hall).
  destruct (outer_loop env docSummary (Route.theme v) _ loop_start Hall eq_refl)
    as [Hslides Hthrown].
  fold loop_start. rewrite Hthrown.
  do 2 eexists. split; first done. cbn [Route.deck Route.slides].
  rewrite Hslides. cbn [Route.loop_slides loop_start app].
  by rewrite pushed_from_length, length_slots_of.
Qed.

(** What an accepted request holds for each member. *)
Lemma accepted_members m v :
  Route.GenerateDeckRequestSchema (Route.JObj m) = inl v ->
  Route.member (Route.z_enum Route.MODES) [] "mode" m = inl (Route.mode v) /\
  Route.member (Route.with_default (Route.z_enum Route.TONES) "professional")
    [] "tone" m = inl (Route.tone v) /\
  Route.member (Route.with_default (Route.z_enum Route.AUDIENCES) "general")
    [] "audience" m = inl (Route.audience v) /\
  Route.member (Route.with_default (Route.z_number 3 50) 10%Q)
    [] "slide_count" m = inl (Route.slide_count v) /\
  Route.member (Route.with_default (Route.z_enum Route.THEMES) "deep_space")
    [] "theme" m = inl (Route.theme v).
Proof.
  unfold Route.GenerateDeckRequestSchema. intros H.
  repeat match type of H with
         | Route.ap _ _ = inl _ =>
             let g := fresh "g" in let x := fresh "x" in let Hx := fresh "Hx" in
             apply ap_inl_inv in H as (g & x & H & Hx & ->)
         end.
  injection H as <-. cbn. by repeat split.
Qed.

Lemma z_number_range lo hi p o n :
  Route.with_default (Route.z_number lo hi) 10%Q p o = inl n ->
  n = 10%Q \/ (lo <= n <= hi)%Q.
Proof.
  unfold Route.with_default, Route.z_number, gtb.
  destruct o as [[| |k| | |]|]; try done.
  - destruct (ltb k lo) eqn:E1; first done.
    destruct (ltb hi k) eqn:E2; first done.
    intros [= <-]. right. apply ltb_ge in E1, E2. by split.
  - intros [= <-]. by left.
Qed.

Lemma accepted_slide_count m v :
  Route.GenerateDeckRequestSchema (Route.JObj m) = inl v ->
  (3 <= Route.slide_count v <= 50)%Q.
Proof.
  intros H. destruct (accepted_members m v H) as (_ & _ & _ & Hcount & _).
  unfold Route.member in Hcount. apply z_number_range in Hcount as [->|Hcount].
  - split; vm_compute; discriminate.
  - done.
Qed.



(** X2. For an accepted request whose outline call does not lose its race,
    a reconcilable reply (the LLM call failed, the reply parsed to [null],
    or the sections all have their slide lists and the excess fits in the
    last one) ends in status 200, whatever the slide and visual calls do,
    with a deck of [slide_count] slides rounded down or up: of exactly
    [slide_count] slides whenever that is a whole number. *)
Theorem POST_deck_count_when_reconcilable env m v :
  Route.GenerateDeckRequestSchema (Route.JObj m) = inl v ->
  Route.outline_late env = false ->
  reconcilable (Route.slide_count v) (Route.outline_reply env) ->
  exists issued response,
    Route.POST env (Route.JObj m) = (issued, Route.Json200 response) /\
    Qfloor (Route.slide_count v)
      <= Z.of_nat (length (Route.slides (Route.deck response)))
      <= Qceiling (Route.slide_count v) /\
    (forall n, (Route.slide_count v == inject_Z n)%Q ->
       Z.of_nat (length (Route.slides (Route.deck response))) = n).
Proof.
  intros Hv Hlate Hrec.
  destruct (generate_within env v Hlate (proj1 (accepted_slide_count m v Hv)) Hrec)
    as (issued & response & Hgen & Hlen).
  exists issued, response. split; [|split; first done].
  - unfold Route.POST. by rewrite Hv, Hgen.
  - intros n Hn. destruct (whole_floor_ceiling _ _ Hn) as [Hf Hc]. lia.
Qed.

Lemma POST_deck_count_when_reconcilable_witness :
  exists issued response,
    Route.POST failing_env (Route.JObj half_slide) = (issued, Route.Json200 response) /\
    Qfloor 3.5 <= Z.of_nat (length (Route.slides (Route.deck response)))
      <= Qceiling 3.5 /\
    (forall n, (3.5 == inject_Z n)%Q ->
       Z.of_nat (length (Route.slides (Route.deck response))) = n).
Proof.
  apply (POST_deck_count_when_reconcilable failing_env half_slide
           {| Route.mode := "quick_prompt"; Route.topic_or_prompt := Some "Solar power";
              Route.instructions := None; Route.tone := "professional";
              Route.audience := "general"; Route.slide_count := 3.5;
              Route.theme := "deep_space"; Route.live_widgets := false;
              Route.assets := None |}).
  - vm_compute. reflexivity.
  - reflexivity.
  - apply reply_failed.
Defined.

End ExactCount.

(** ** The handler: calls, images and the outline timeout *)

Section HandlerTrace.
Import JsString DeckGenerator Props Vocabulary.

Lemma accepted_theme_style m v :
  Route.GenerateDeckRequestSchema (Route.JObj m) = inl v ->
  Route.theme v ∈ Route.THEMES /\ is_Some (Route.image_style (Route.theme v)).
Proof.
  intros H. destruct (accepted_members m v H) as (_ & _ & _ & _ & Htheme).
  unfold Route.member, Route.with_default, Route.z_enum in Htheme.
  assert (Hin : Route.theme v ∈ Route.THEMES).
  { destruct (m !! "theme") as [[| | |s| |]|]; try done.
    - destruct (bool_decide (s ∈ Route.THEMES)) eqn:E; last done.
      injection Htheme as <-. by apply bool_decide_eq_true in E.
    - injection Htheme as <-. by repeat constructor. }
  split; first done.
  unfold Route.THEMES in Hin. rewrite !elem_of_cons, elem_of_nil in Hin.
  destruct Hin as [->|[->|[->|[->|[]]]]]; by eexists.
Qed.

Lemma slide_try_calls env docSummary theme n slot :
  is_Some (Route.image_style theme) ->
  (Route.slide_try env docSummary theme n slot).1 = calls_of_slide env n.
Proof.
  intros [style Hstyle]. unfold Route.slide_try, calls_of_slide, Route.race.
  destruct (Route.slide_late env n); first done.
  by rewrite Hstyle.
Qed.

Lemma inner_loop_calls env docSummary theme l : forall st,
  is_Some (Route.image_style theme) ->
  Route.calls (fold_left (Route.slot_step env docSummary theme) l st) =
  Route.calls st ++
  flat_map (calls_of_slide env) (seq (S (Route.currentSlide st)) (length l)).
Proof.
  induction l as [|slot l IH]; intros st Hstyle; cbn [fold_left length seq flat_map].
  - by rewrite app_nil_r.
  - rewrite (IH _ Hstyle), slot_step_pushed. cbn [Route.calls Route.currentSlide].
    by rewrite slide_try_calls, <- app_assoc.
Qed.

Lemma flat_map_seq_app {A} (f : nat -> list A) a n1 n2 :
  flat_map f (seq a (n1 + n2)) = flat_map f (seq a n1) ++ flat_map f (seq (a + n1) n2).
Proof. by rewrite seq_app, flat_map_app. Qed.

Lemma outer_loop_calls env docSummary theme ss : forall st,
  is_Some (Route.image_style theme) ->
  Forall (fun sec => is_Some (slides sec)) ss ->
  Route.thrown st = None ->
  Route.calls (Route.slide_loop env docSummary theme ss st) =
  Route.calls st ++
  flat_map (calls_of_slide env)
    (seq (S (Route.currentSlide st)) (length (slots_of ss))).
Proof.
  unfold Route.slide_loop.
  induction ss as [|sec ss IH]; intros st Hstyle Hall Hst.
  - cbn. by rewrite app_nil_r.
  - inversion Hall as [|? ? [l Hl] Hall']; subst.
    cbn [fold_left]. rewrite (section_step_defined env docSummary theme st sec l Hst Hl).
    rewrite slots_of_cons, Hl. cbn [default].
    destruct (inner_loop env docSummary theme l st) as (_ & Hcur & Hthrown).
    rewrite (IH _ Hstyle Hall'); last by rewrite Hthrown.
    rewrite (inner_loop_calls env docSummary theme l st Hstyle), Hcur.
    rewrite length_app, flat_map_seq_app, <- app_assoc.
    reflexivity.
Qed.

Lemma slide_try_image env docSummary theme n slot slide :
  (Route.slide_try env docSummary theme n slot).2 = Ok slide ->
  Route.image_source (Route.image slide) = "generated".
Proof.
  unfold Route.slide_try.
  destruct (Route.race _ _) as [draft|e]; last done.
  destruct (defined (Route.image_style theme)) as [style|e]; last done.
  cbn [snd]. destruct (Route.race _ _) as [[v|]|e]; cbn; try done.
  by intros [= <-].
Qed.

Lemma pushed_image env docSummary theme n slot :
  Route.image_source (Route.image (pushed env docSummary theme n slot)) = "generated".
Proof.
  unfold pushed.
  destruct (Route.slide_try env docSummary theme n slot).2 as [slide|e] eqn:E.
  - by apply slide_try_image in E.
  - done.
Qed.

Lemma pushed_from_images env docSummary theme slots : forall n,
  Forall (fun slide => Route.image_source (Route.image slide) = "generated")
    (pushed_from env docSummary theme n slots).
Proof.
  induction slots as [|s slots IH]; intros n; cbn; constructor;
    [apply pushed_image | apply IH].
Qed.

(** What a status-200 answer tells about the run that produced it. *)
Lemma POST_success_inv env body issued response :
  Route.POST env body = (issued, Route.Json200 response) ->
  exists v ss docSummary,
    Route.GenerateDeckRequestSchema body = inl v /\
    Forall (fun sec => is_Some (slides sec)) ss /\
    Route.slides (Route.deck response) =
      pushed_from env docSummary (Route.theme v) 0 (slots_of ss) /\
    Route.deck_theme (Route.deck response) = Route.theme v /\
    issued = Route.calls (Route.slide_loop env docSummary (Route.theme v) ss loop_start).
Proof.
  unfold Route.POST.
  destruct (Route.GenerateDeckRequestSchema body) as [v|issues]; last done.
  unfold Route.generate.
  set (docSummary := match Route.assets v with Some _ => _ | None => _ end).
  destruct (Route.race _ _) as [outline|e]; last done.
  destruct (Route.reconcile _ _) as [ss|e] eqn:Hrec; last done.
  destruct (Route.sum_slides 0 ss); last done.
  pose proof (reconcile_defined _ _ _ Hrec) as Hall.
  destruct (outer_loop env docSummary (Route.theme v) ss loop_start Hall eq_refl)
    as [Hslides Hthrown].
  fold loop_start. rewrite Hthrown. intros [= <- <-].
  exists v, ss, docSummary. by rewrite Hslides.
Qed.

(** X3. When the outline call loses its race, an accepted request is
    answered with status 500 after that single call; the [error] text of
    the answer, computed from the timer's message, is the generic
    ['Generation failed: ...'] and not the ['Request timed out'] advice,
    because the message says 'timed out' where the test looks for
    'timeout'. *)
Theorem POST_outline_timeout env m v :
  Route.GenerateDeckRequestSchema (Route.JObj m) = inl v ->
  Route.outline_late env = true ->
  Route.POST env (Route.JObj m) = ([Route.OutlineCall], Route.Json500 TimedOut) /\
  RouteErrors.userFriendlyError RouteErrors.OUTLINE_TIMEOUT =
    "Generation failed: " +:+ RouteErrors.OUTLINE_TIMEOUT.
Proof.
  intros Hv Hlate. split; last by vm_compute.
  unfold Route.POST, Route.generate. by rewrite Hv, Hlate.
Qed.

Lemma POST_outline_timeout_witness :
  Route.POST slow_outline_env (Route.JObj three_slides) =
    ([Route.OutlineCall], Route.Json500 TimedOut) /\
  RouteErrors.userFriendlyError RouteErrors.OUTLINE_TIMEOUT =
    "Generation failed: " +:+ RouteErrors.OUTLINE_TIMEOUT.
Proof.
  apply (POST_outline_timeout slow_outline_env three_slides
           {| Route.mode := "quick_prompt"; Route.topic_or_prompt := Some "Solar power";
              Route.instructions := None; Route.tone := "professional";
              Route.audience := "general"; Route.slide_count := 3;
              Route.theme := "deep_space"; Route.live_widgets := false;
              Route.assets := None |}).
  - vm_compute. reflexivity.
  - reflexivity.
Defined.

(** X4. The LLM calls behind a status-200 answer with [n] slides are, in
    order: the outline call, then for each slide number from 1 to [n] its
    slide call, followed by its visual call unless the slide call lost its
    race. *)
Theorem POST_issues_calls_in_slide_order env body issued response :
  Route.POST env body = (issued, Route.Json200 response) ->
  issued =
    Route.OutlineCall ::
    flat_map (calls_of_slide env)
      (seq 1 (length (Route.slides (Route.deck response)))).
Proof.
  intros H.
  destruct (POST_success_inv env body issued response H)
    as (v & ss & docSummary & Hv & Hall & Hslides & _ & ->).
  assert (Hstyle : is_Some (Route.image_style (Route.theme v))).
  { unfold Route.GenerateDeckRequestSchema in Hv.
    destruct body as [| | | | |m]; try done.
    by apply (accepted_theme_style m v). }
  rewrite (outer_loop_calls env docSummary _ ss loop_start Hstyle Hall eq_refl).
  by rewrite Hslides, pushed_from_length.
Qed.

Lemma POST_issues_calls_in_slide_order_witness :
  (Route.POST long_outline_env three_slides_body).1 =
    Route.OutlineCall ::
    flat_map (calls_of_slide long_outline_env) (seq 1 10).
Proof.
  destruct (Route.POST long_outline_env three_slides_body) as [issued answer] eqn:E.
  assert (Hanswer : exists response, answer = Route.Json200 response
                    /\ length (Route.slides (Route.deck response)) = 10%nat).
  { assert (answer = (Route.POST long_outline_env three_slides_body).2) as ->
      by (by rewrite E).
    eexists. split; [vm_compute; reflexivity | reflexivity]. }
  destruct Hanswer as (response & -> & Hlen).
  rewrite <- Hlen. exact (POST_issues_calls_in_slide_order _ _ _ _ E).
Defined.

(** X5. In a status-200 answer the deck's theme is the accepted request's
    theme and every slide's image source is the literal ['generated']: the
    image that [generateSlide] attached to the draft, its Unsplash URL
    included, is not what the deck carries. *)
Theorem POST_deck_images_are_generated env body issued response :
  Route.POST env body = (issued, Route.Json200 response) ->
  (exists v, Route.GenerateDeckRequestSchema body = inl v /\
             Route.deck_theme (Route.deck response) = Route.theme v) /\
  Forall (fun slide => Route.image_source (Route.image slide) = "generated")
    (Route.slides (Route.deck response)).
Proof.
  intros H.
  destruct (POST_success_inv env body issued response H)
    as (v & ss & docSummary & Hv & _ & Hslides & Htheme & _).
  split; first by exists v.
  rewrite Hslides. apply pushed_from_images.
Qed.

Lemma POST_deck_images_are_generated_witness :
  exists response,
    (Route.POST long_outline_env three_slides_body).2 = Route.Json200 response /\
    Forall (fun slide => Route.image_source (Route.image slide) = "generated")
      (Route.slides (Route.deck response)).
Proof.
  destruct (Route.POST long_outline_env three_slides_body) as [issued answer] eqn:E.
  assert (Hanswer : exists response, answer = Route.Json200 response).
  { assert (answer = (Route.POST long_outline_env three_slides_body).2) as ->
      by (by rewrite E).
    eexists. vm_compute. reflexivity. }
  destruct Hanswer as (response & ->).
  exists response. split; first done.
  exact (proj2 (POST_deck_images_are_generated _ _ _ _ E)).
Defined.

End HandlerTrace.

(** ** The fallback outline, for every count *)

Section FallbackShape.
Import JsString JsNumber DeckGenerator Props Shapes.

(** X6. Below three slides the fallback outline has more slides than were
    asked for: for a requested count under 3 it has the sections Opening
    and Analysis and one slide more than the whole part of the count (one
    slide for a count below 1), since Analysis always gets one. *)
Theorem fallback_outline_below_three p :
  (slide_count p < 3)%Q ->
  count_slides (sections (fallback_outline p)) = Z.max 0 (Qfloor (slide_count p)) + 1 /\
  (slide_count p < inject_Z (count_slides (sections (fallback_outline p))))%Q /\
  map name (sections (fallback_outline p)) = ["Opening"; "Analysis"].
Proof.
  intros H. set (N := slide_count p) in *.
  pose proof (Qfloor_le N) as HfN. pose proof (Qlt_floor N) as HfN'.
  rewrite inject_Z_succ in HfN'.
  assert (count_slides (sections (fallback_outline p)) = Z.max 0 (Qfloor N) + 1 /\
          map name (sections (fallback_outline p)) = ["Opening"; "Analysis"]) as [Hc Hn].
  { unfold fallback_outline. cbv zeta. cbn [sections]. fold N.
    set (m := Qmin 2 N).
    assert (Qfloor m = Qfloor N /\ (N - m < 1)%Q /\ (m <= N)%Q) as (Hfm & Hm & Hm').
    { destruct (Q.min_spec 2 N) as [[Hlt Hm]|[Hle Hm]]; fold m in Hm.
      - split; [|split; lra]. rewrite (Qfloor_comp _ _ Hm).
        change (Qfloor 2) with 2. symmetry.
        apply Qfloor_unique; change (inject_Z 2) with 2%Q; lra.
      - split; [|split; lra]. by rewrite (Qfloor_comp _ _ Hm). }
    set (a := Qmax 1 (N - m - 2)).
    assert (a == 1)%Q as Ha.
    { destruct (Q.max_spec 1 (N - m - 2)) as [[Hlt _]|[_ Ha]]; [lra | done]. }
    assert (Qfloor a = 1) as Hfa by (by rewrite (Qfloor_comp _ _ Ha)).
    rewrite (proj2 (ltb_ge 0 (N - m - a) : gtb (N - m - a) 0 = false <-> _)) by lra.
    cbn [app map name]. split; last done.
    rewrite !count_slides_cons, !slides_length_array_from, Hfm, Hfa.
    unfold count_slides. cbn [fold_left]. lia. }
  split; [done | split; last done].
  rewrite Hc, inject_Z_succ.
  assert (inject_Z (Qfloor N) <= inject_Z (Z.max 0 (Qfloor N)))%Q
    by (rewrite <- Zle_Qle; lia).
  lra.
Qed.

Lemma fallback_outline_below_three_witness :
  count_slides (sections (fallback_outline (sample_outline_params 2.5))) =
    Z.max 0 (Qfloor (slide_count (sample_outline_params 2.5))) + 1 /\
  (slide_count (sample_outline_params 2.5)
     < inject_Z (count_slides (sections (fallback_outline (sample_outline_params 2.5)))))%Q /\
  map name (sections (fallback_outline (sample_outline_params 2.5))) =
    ["Opening"; "Analysis"].
Proof.
  apply (fallback_outline_below_three (sample_outline_params 2.5)). reflexivity.
Defined.

Lemma no_chart_in_array_from n (f : nat -> Slot) :
  (forall i, slot_layout (f i) <> "chart") ->
  filter (fun slot => slot_layout slot = "chart") (array_from n f) = [].
Proof.
  intros H. unfold array_from.
  induction (seq 0 (ToLength n)) as [|i l IH]; first done.
  cbn [map]. rewrite filter_cons, IH. by destruct (decide _) as [E|]; [destruct (H i)|].
Qed.

Lemma no_chart_from_two (f : nat -> Slot) n : forall start,
  (forall i, (2 <= i)%nat -> slot_layout (f i) <> "chart") ->
  (2 <= start)%nat ->
  filter (fun slot => slot_layout slot = "chart") (map f (seq start n)) = [].
Proof.
  induction n as [|n IH]; intros start H Hstart; first done.
  cbn [seq map]. rewrite filter_cons, (IH (S start) H) by lia.
  destruct (decide _) as [E|]; [by destruct (H start Hstart)|done].
Qed.

(** X7. The fallback outline has a chart exactly from six slides on: for a
    requested count of at least 6 its only chart slot is the second slide of
    Analysis, 'Data-Driven Insights'; below 6 no slot is a chart. *)
Theorem fallback_outline_chart p :
  ((6 <= slide_count p)%Q ->
   chart_slots (sections (fallback_outline p)) = [insights_slot]) /\
  ((slide_count p < 6)%Q ->
   chart_slots (sections (fallback_outline p)) = []).
Proof.
  unfold chart_slots, fallback_outline. cbv zeta. cbn [sections].
  set (N := slide_count p).
  set (opening := array_from _ _).
  set (analysisSlides := Qmax 1 _).
  set (analysis := array_from analysisSlides _).
  set (remaining := (_ - analysisSlides)%Q).
  set (conclusion := array_from remaining _).
  assert (Hopening : filter (fun slot => slot_layout slot = "chart") opening = []).
  { apply no_chart_in_array_from. intros i. cbn. done. }
  assert (Hconclusion : filter (fun slot => slot_layout slot = "chart") conclusion = []).
  { apply no_chart_in_array_from. intros i. cbn. done. }
  assert (Hslots : forall tail_sections tail,
            slots_of tail_sections = tail ->
            filter (fun slot => slot_layout slot = "chart") tail = [] ->
            filter (fun slot => slot_layout slot = "chart")
              (slots_of ([ {| name := "Opening"; slides := Some opening |};
                           {| name := "Analysis"; slides := Some analysis |} ] ++
                         tail_sections)) =
            filter (fun slot => slot_layout slot = "chart") analysis).
  { intros ts tail Hts Htail. cbn [app]. rewrite !slots_of_cons, Hts. cbn [slides default]. unfold id.
    by rewrite !filter_app, Hopening, Htail, app_nil_r. }
  assert (Htail : forall b : bool,
            filter (fun slot => slot_layout slot = "chart")
              (slots_of ([ {| name := "Opening"; slides := Some opening |};
                           {| name := "Analysis"; slides := Some analysis |} ] ++
                         (if b then [ {| name := "Conclusion"; slides := Some conclusion |} ]
                          else []))) =
            filter (fun slot => slot_layout slot = "chart") analysis).
  { intros [|].
    - apply (Hslots _ conclusion); last done. cbn. by rewrite app_nil_r.
    - by apply (Hslots _ []). }
  rewrite Htail. subst analysis. unfold array_from. rewrite ToLength_floor.
  pose proof (Qfloor_le analysisSlides) as Hfa.
  pose proof (Qlt_floor analysisSlides) as Hfa'. rewrite inject_Z_succ in Hfa'.
  assert (Hm : (Qmin 2 N <= 2)%Q /\ (Qmin 2 N <= N)%Q /\
               ((2 <= N)%Q -> (Qmin 2 N == 2)%Q) /\ ((N < 2)%Q -> (Qmin 2 N == N)%Q)).
  { destruct (Q.min_spec 2 N) as [[Hlt Hm]|[Hle Hm]]; repeat split; intros; lra. }
  destruct Hm as (Hm1 & Hm2 & Hm3 & Hm4).
  assert (Ha : (1 <= analysisSlides)%Q /\
               ((1 < N - Qmin 2 N - 2)%Q -> (analysisSlides == N - Qmin 2 N - 2)%Q) /\
               ((N - Qmin 2 N - 2 <= 1)%Q -> (analysisSlides == 1)%Q)).
  { subst analysisSlides.
    destruct (Q.max_spec 1 (N - Qmin 2 N - 2)) as [[Hlt Ha]|[Hle Ha]];
      repeat split; intros; lra. }
  destruct Ha as (Ha1 & Ha2 & Ha3).
  split; intros H.
  - specialize (Hm3 ltac:(lra)).
    assert (analysisSlides == N - 4)%Q as Ha
      by (rewrite Ha2; lra).
    assert (2 <= Qfloor analysisSlides) as H2.
    { assert (inject_Z 2 < inject_Z (Qfloor analysisSlides + 1))%Q as Hz
        by (rewrite inject_Z_succ; change (inject_Z 2) with 2%Q; lra).
      rewrite <- Zlt_Qlt in Hz. lia. }
    assert (Hk : exists k, Z.to_nat (Qfloor analysisSlides) = S (S k)).
    { exists (Z.to_nat (Qfloor analysisSlides) - 2)%nat. lia. }
    destruct Hk as [k ->]. cbn [seq map].
    assert (Hgt : gtb analysisSlides 1 = true) by (apply ltb_lt; lra).
    rewrite !filter_cons, Hgt. cbn.
    rewrite no_chart_from_two; [done | | lia].
    intros i Hi. destruct i as [|[|i]]; try lia. cbn. done.
  - assert (analysisSlides < 2)%Q as Ha.
    { destruct (Qlt_le_dec N 2) as [Hlt|Hge].
      - specialize (Hm4 Hlt). rewrite Ha3; lra.
      - specialize (Hm3 Hge). destruct (Qlt_le_dec 1 (N - Qmin 2 N - 2)) as [Hb|Hb].
        + rewrite (Ha2 Hb). lra.
        + rewrite (Ha3 Hb). lra. }
    assert (Qfloor analysisSlides = 1) as ->
      by (apply Qfloor_unique; change (inject_Z 1) with 1%Q; lra).
    change (Z.to_nat 1) with 1%nat. cbn [seq map].
    rewrite filter_cons. cbn. done.
Qed.

Lemma fallback_outline_chart_witness :
  chart_slots (sections (fallback_outline (sample_outline_params 8))) = [insights_slot].
Proof.
  apply (proj1 (fallback_outline_chart (sample_outline_params 8))). vm_compute. discriminate.
Defined.

End FallbackShape.

(** ** File names and image URLs *)

Section NamesAndUrls.
Import JsString JsText DeckGenerator Props Shapes.

Lemma free_of_app c a b :
  free_of c (a +:+ b) = free_of c a && free_of c b.
Proof.
  induction a as [|x a IH]; first done.
  rewrite append_cons. cbn [free_of]. by rewrite IH, andb_assoc.
Qed.

Lemma last_split_from_free sep s : forall cur,
  free_of sep cur = true ->
  free_of sep (List.last (split_from sep cur s) EmptyString) = true.
Proof.
  induction s as [|c r IH]; intros cur Hcur; cbn [split_from]; first done.
  destruct (Ascii.eqb c sep) eqn:E.
  - destruct (split_from_cons sep EmptyString r) as (x & l & Hx).
    specialize (IH EmptyString eq_refl). rewrite Hx in *. exact IH.
  - apply IH. rewrite free_of_app, Hcur. cbn. by rewrite E.
Qed.

Lemma remove_extension_free c s :
  free_of c s = true -> free_of c (remove_extension s) = true.
Proof.
  induction s as [|x s IH]; first done. cbn [free_of remove_extension].
  intros [Hx Hs]%andb_prop. destruct (_ && _ && _); first done.
  cbn [free_of]. by rewrite Hx, IH.
Qed.

Lemma remove_extension_no_dot s : no_dot s = true -> remove_extension s = s.
Proof.
  induction s as [|x s IH]; first done. cbn [no_dot remove_extension].
  intros [Hx Hs]%andb_prop. apply negb_true_iff in Hx. by rewrite Hx, IH.
Qed.

(** X8. A file name never holds a slash; a URL that ends in a slash (or is
    empty) gives ['document']; and a last path segment without a dot is
    kept whole. *)
Theorem file_name_is_a_path_segment :
  (forall url, free_of "/" (file_name url) = true) /\
  (forall dir, file_name (dir +:+ "/") = "document") /\
  file_name EmptyString = "document" /\
  (forall dir name,
     free_of "/" name = true -> no_dot name = true -> name <> EmptyString ->
     file_name (dir +:+ "/" +:+ name) = name).
Proof.
  split; [|split; [|split]].
  - intros url. unfold file_name. apply remove_extension_free.
    pose proof (last_split_from_free "/" url EmptyString eq_refl) as H.
    unfold split, or_else. by destruct (List.last _ _).
  - intros dir. unfold file_name, split.
    change (dir +:+ "/") with (dir +:+ String "/" EmptyString).
    by rewrite last_split_from.
  - done.
  - intros dir name Hfree Hdot Hne. unfold file_name, split.
    change (dir +:+ "/" +:+ name) with (dir +:+ String "/" name).
    rewrite last_split_from, (split_from_free _ _ _ Hfree). cbn [List.last].
    change (EmptyString +:+ name) with name.
    unfold or_else. destruct name; first done.
    by apply remove_extension_no_dot.
Qed.

Lemma file_name_is_a_path_segment_witness :
  file_name "uploads/2024/README" = "README".
Proof.
  apply (proj2 (proj2 (proj2 file_name_is_a_path_segment)) "uploads/2024" "README");
    [reflexivity | reflexivity | discriminate].
Defined.

Lemma all_chars_app P a b :
  all_chars P (a +:+ b) = all_chars P a && all_chars P b.
Proof.
  induction a as [|x a IH]; first done.
  rewrite append_cons. cbn [all_chars]. by rewrite IH, andb_assoc.
Qed.

Lemma encode_unit_safe c : all_chars url_safe (encode_unit c) = true.
Proof. destruct c as [[] [] [] [] [] [] [] []]; vm_compute; reflexivity. Qed.

Lemma encodeURIComponent_safe s : all_chars url_safe (encodeURIComponent s) = true.
Proof.
  induction s as [|c s IH]; first done.
  cbn [encodeURIComponent]. by rewrite all_chars_app, encode_unit_safe, IH.
Qed.

(** X9. The query of the image URL is always URL-safe: after the fixed
    prefix, [generateUnsplashUrl] yields only unreserved characters and
    percent signs, so no space, comma, ampersand or other reserved
    character reaches the URL, whatever the title. *)
Theorem generateUnsplashUrl_query_is_url_safe topic :
  exists query,
    generateUnsplashUrl topic = UNSPLASH +:+ query /\
    all_chars url_safe query = true /\
    free_of "," query = true /\ free_of " " query = true.
Proof.
  unfold generateUnsplashUrl. eexists. split; first done.
  pose proof (encodeURIComponent_safe
                (or_else (join "," (keywords topic)) FALLBACK_KEYWORDS)) as H.
  split; first done.
  induction (encodeURIComponent _) as [|c q IH]; first done.
  cbn [all_chars] in H. apply andb_prop in H as [Hc Hq].
  destruct (IH Hq) as [H1 H2]. cbn [free_of]. rewrite H1, H2.
  split; [destruct (Ascii.eqb_spec c ",") as [->|]; done
         | destruct (Ascii.eqb_spec c " ") as [->|]; done].
Qed.

End NamesAndUrls.

(** ** [cleanJSONResponse]: fences and conversational prefixes *)

Section Unwrapping.
Import JsString JsText DeckGenerator Props Shapes.

Lemma is_empty_app_r a b : is_empty b = false -> is_empty (a +:+ b) = false.
Proof. by destruct a. Qed.

(** Trailing text that [trimEnd] leaves alone protects what precedes it. *)
Lemma trimEnd_app a b :
  trimEnd b = b -> is_empty b = false -> trimEnd (a +:+ b) = a +:+ b.
Proof.
  intros Hb Hne. induction a as [|c a IH]; first done.
  rewrite append_cons. cbn [trimEnd]. rewrite IH.
  by rewrite (is_empty_app_r a b Hne).
Qed.

Lemma remove_suffix_app p s : remove_suffix p (s +:+ p) = s.
Proof.
  induction s as [|c s IH].
  - change (EmptyString +:+ p) with p.
    destruct p; cbn [remove_suffix]; by rewrite String.eqb_refl.
  - rewrite append_cons. cbn [remove_suffix].
    destruct (String.eqb_spec (String c (s +:+ p)) p) as [E|_]; last by rewrite IH.
    apply (f_equal String.length) in E. cbn in E. rewrite append_length in E. lia.
Qed.

Lemma strip_prefix_refl p s : strip_prefix p (p +:+ s) = Some s.
Proof.
  induction p as [|c p IH]; first done.
  rewrite append_cons. cbn. by rewrite Ascii.eqb_refl.
Qed.

Lemma remove_prefix_app p s : remove_prefix p (p +:+ s) = s.
Proof. unfold remove_prefix. by rewrite strip_prefix_refl. Qed.

Lemma startsWith_app p s : startsWith p (p +:+ s) = true.
Proof.
  unfold startsWith. by rewrite strip_prefix_refl.
Qed.

(** A reply wrapped in a fence, and what the fence handling makes of it. *)
Lemma strip_fences_wrapped opening j :
  (opening = FENCE_JSON \/ opening = FENCE) ->
  Json.json_valid j = true ->
  strip_fences (opening +:+ NL +:+ j +:+ NL +:+ FENCE) = j.
Proof.
  intros Hopening Hvalid. unfold strip_fences.
  assert (Hbody : remove_suffix (NL +:+ FENCE)
                    (remove_prefix (opening +:+ NL)
                       (opening +:+ NL +:+ j +:+ NL +:+ FENCE)) = j).
  { replace (opening +:+ NL +:+ j +:+ NL +:+ FENCE)
      with ((opening +:+ NL) +:+ (j +:+ (NL +:+ FENCE))) by apply append_assoc.
    by rewrite remove_prefix_app, remove_suffix_app. }
  destruct Hopening as [-> | ->].
  - by rewrite startsWith_app.
  - replace (startsWith FENCE_JSON (FENCE +:+ NL +:+ j +:+ NL +:+ FENCE)) with false
      by reflexivity.
    by rewrite startsWith_app.
Qed.

Lemma trim_wrapped opening j :
  (opening = FENCE_JSON \/ opening = FENCE) ->
  trim (opening +:+ NL +:+ j +:+ NL +:+ FENCE) = opening +:+ NL +:+ j +:+ NL +:+ FENCE.
Proof.
  intros Hopening. unfold trim.
  assert (Hstart : trimStart (opening +:+ NL +:+ j +:+ NL +:+ FENCE) =
                   opening +:+ NL +:+ j +:+ NL +:+ FENCE)
    by (destruct Hopening as [-> | ->]; reflexivity).
  rewrite Hstart.
  rewrite <- !append_assoc. apply trimEnd_app; reflexivity.
Qed.

(** X10. A JSON text wrapped in a markdown fence, with or without the
    [json] tag, is unwrapped: for every valid JSON text [j],
    [cleanJSONResponse] of the fence line, [j], and the closing fence line
    is [j] itself. *)
Theorem cleanJSONResponse_unwraps_fenced_json opening j :
  (opening = FENCE_JSON \/ opening = FENCE) ->
  Json.json_valid j = true ->
  cleanJSONResponse (opening +:+ NL +:+ j +:+ NL +:+ FENCE) = j.
Proof.
  intros Hopening Hvalid. unfold cleanJSONResponse.
  rewrite (trim_wrapped opening j Hopening).
  rewrite (strip_fences_wrapped opening j Hopening Hvalid).
  rewrite (json_valid_not_conversational j Hvalid). by rewrite Hvalid.
Qed.

Lemma cleanJSONResponse_unwraps_fenced_json_witness :
  cleanJSONResponse (FENCE_JSON +:+ NL +:+ "{ }" +:+ NL +:+ FENCE) = "{ }".
Proof.
  apply (cleanJSONResponse_unwraps_fenced_json FENCE_JSON "{ }");
    [by left | reflexivity].
Defined.

Lemma strip_prefix_ci_app p q s :
  strip_prefix_ci (p +:+ q) s = strip_prefix_ci p s ≫= strip_prefix_ci q.
Proof.
  revert s. induction p as [|a p IH]; intros s; first done.
  destruct s as [|c s]; first done.
  rewrite append_cons. cbn [strip_prefix_ci].
  destruct (Ascii.eqb a (lower c)); [apply IH | done].
Qed.

(** X11. The alternatives [Here's] and [Here is] of the conversational
    prefix pattern never match: [Here], listed before them, matches first
    and nothing after it can fail.  So only the word is removed and the
    rest of the phrase stays in front of the JSON. *)
Theorem longer_here_alternatives_are_dead :
  (forall s, first_alternative conversational s = first_alternative live_alternatives s) /\
  (forall r, strip_conversational ("Here's" +:+ r) = "'s" +:+ r) /\
  (forall r, strip_conversational ("Here is " +:+ r) = "is " +:+ r).
Proof.
  split; [|split]; try done.
  intros s. unfold conversational, live_alternatives. cbn [first_alternative].
  change "here's" with ("here" +:+ "'s"). change "here is" with ("here" +:+ " is").
  rewrite !strip_prefix_ci_app.
  destruct (strip_prefix_ci "okay" s); first done.
  destruct (strip_prefix_ci "sure" s); first done.
  destruct (strip_prefix_ci "here" s); first done.
  by destruct (strip_prefix_ci "certainly" s).
Qed.

End Unwrapping.

Section Greetings.
Import JsString JsText DeckGenerator Props Shapes.

Lemma trim_fixed_inv j :
  trim j = j -> j <> EmptyString ->
  trimEnd j = j /\ exists c r, j = String c r /\ is_space c = false.
Proof.
  unfold trim. intros Hj Hne.
  destruct (trimStart_head j) as [E|(c & r & E & Hc)]; rewrite E in Hj.
  - by destruct Hne.
  - rewrite (trimEnd_keeps_head _ _ Hc) in Hj. split.
    + rewrite <- Hj at 1. rewrite <- (trimEnd_keeps_head _ _ Hc), trimEnd_idem.
      by rewrite (trimEnd_keeps_head _ _ Hc).
    + by exists c, (trimEnd r).
Qed.

Lemma trimStart_spaces ws s :
  all_chars is_space ws = true -> trimStart (ws +:+ s) = trimStart s.
Proof.
  induction ws as [|c ws IH]; first done. cbn [all_chars].
  intros [Hc Hws]%andb_prop. rewrite append_cons. cbn [trimStart].
  by rewrite Hc, IH.
Qed.

Lemma strip_prefix_ci_exact a w rest :
  strip_prefix_ci a w = Some EmptyString ->
  strip_prefix_ci a (w +:+ rest) = Some rest.
Proof.
  revert w. induction a as [|x a IH]; intros w H.
  - cbn in H. by injection H as ->.
  - destruct w as [|c w]; first done. cbn [strip_prefix_ci] in H.
    rewrite append_cons. cbn [strip_prefix_ci].
    destruct (Ascii.eqb x (lower c)); [by apply IH | done].
Qed.

Lemma conversational_head_facts c :
  conversational_head c = true ->
  is_space c = false /\ Ascii.eqb "`" c = false.
Proof.
  destruct c as [[] [] [] [] [] [] [] []]; vm_compute;
    first [intros; split; reflexivity | discriminate].
Qed.

(** A word that matches a live alternative, in front of any text [rest]. *)
Lemma live_word a w rest :
  a ∈ live_alternatives -> strip_prefix_ci a w = Some EmptyString ->
  first_alternative conversational (w +:+ rest) = Some rest /\
  exists c r, w = String c r /\ is_space c = false /\ Ascii.eqb "`" c = false.
Proof.
  unfold live_alternatives. rewrite !elem_of_cons, elem_of_nil.
  intros Ha H.
  pose proof (strip_prefix_ci_exact a w rest H) as Hexact.
  destruct w as [|c r]; first by destruct Ha as [->|[->|[->|[->|[]]]]].
  assert (Hlower : exists a', a = String (lower c) a').
  { destruct Ha as [->|[->|[->|[->|[]]]]]; cbn [strip_prefix_ci] in H;
      match type of H with
      | (if Ascii.eqb ?x (lower c) then _ else _) = _ =>
          destruct (Ascii.eqb_spec x (lower c)) as [<-|]; last done
      end; by eexists. }
  destruct Hlower as [a' Ea].
  assert (Hhead : conversational_head c = true).
  { unfold conversational_head. cbn [existsb].
    destruct Ha as [->|[->|[->|[->|[]]]]]; injection Ea as <- _;
      by rewrite ?Ascii.eqb_refl, ?orb_true_r. }
  split; last by (exists c, r; split; [done | apply conversational_head_facts]).
  rewrite append_cons in *. unfold conversational. cbn [first_alternative].
  destruct Ha as [->|[->|[->|[->|[]]]]]; injection Ea as Ec _.
  - by rewrite Hexact.
  - rewrite (strip_prefix_ci_head "o") by (by rewrite <- Ec). by rewrite Hexact.
  - rewrite (strip_prefix_ci_head "o") by (by rewrite <- Ec).
    rewrite (strip_prefix_ci_head "s") by (by rewrite <- Ec). by rewrite Hexact.
  - rewrite (strip_prefix_ci_head "o") by (by rewrite <- Ec).
    rewrite (strip_prefix_ci_head "s") by (by rewrite <- Ec).
    rewrite (strip_prefix_ci_head "h") by (by rewrite <- Ec). by rewrite Hexact.
Qed.

Lemma json_head_not_punct j :
  Json.json_valid j = true -> optional_punct j = j.
Proof.
  unfold Json.json_valid. destruct j as [|c r]; first done.
  cbn [Json.run]. destruct (Json.step Json.Value [] c) eqn:E; last done.
  intros _. cbn [optional_punct].
  destruct (Ascii.eqb_spec c ",") as [->|]; first done.
  destruct (Ascii.eqb_spec c ":") as [->|]; done.
Qed.

Lemma optional_punct_spec punct ws j :
  punct ∈ punctuation -> all_chars is_space ws = true ->
  Json.json_valid j = true ->
  trimStart (optional_punct (punct +:+ ws +:+ j)) = trimStart j.
Proof.
  unfold punctuation. rewrite !elem_of_cons, elem_of_nil.
  intros [->|[->|[->|[]]]] Hws Hvalid.
  - change (EmptyString +:+ ws +:+ j) with (ws +:+ j).
    destruct ws as [|c ws].
    + change (EmptyString +:+ j) with j. by rewrite json_head_not_punct.
    + rewrite append_cons. cbn [optional_punct].
      cbn [all_chars] in Hws. apply andb_prop in Hws as [Hc Hws].
      destruct (Ascii.eqb_spec c ",") as [->|]; first done.
      destruct (Ascii.eqb_spec c ":") as [->|]; first done.
      cbn [orb]. rewrite <- append_cons. apply trimStart_spaces.
      cbn [all_chars]. by rewrite Hc, Hws.
  - change ("," +:+ ws +:+ j) with (String "," (ws +:+ j)). cbn [optional_punct].
    replace (Ascii.eqb "," "," || Ascii.eqb "," ":") with true by reflexivity.
    by apply trimStart_spaces.
  - change (":" +:+ ws +:+ j) with (String ":" (ws +:+ j)). cbn [optional_punct].
    replace (Ascii.eqb ":" "," || Ascii.eqb ":" ":") with true by reflexivity.
    by apply trimStart_spaces.
Qed.

(** X12. A conversational word in front of the JSON is removed: when the
    reply is one of Okay, Sure, Here or Certainly in any letter case, then
    an optional comma or colon, then any whitespace, then a trimmed JSON
    text [j], [cleanJSONResponse] returns exactly [j]. *)
Theorem cleanJSONResponse_removes_greeting a w punct ws j :
  a ∈ live_alternatives ->
  strip_prefix_ci a w = Some EmptyString ->
  punct ∈ punctuation ->
  all_chars is_space ws = true ->
  Json.json_valid j = true ->
  trim j = j ->
  cleanJSONResponse (w +:+ punct +:+ ws +:+ j) = j.
Proof.
  intros Ha Hw Hpunct Hws Hvalid Htrim.
  assert (Hne : j <> EmptyString) by (intros ->; done).
  destruct (trim_fixed_inv j Htrim Hne) as (Hend & cj & rj & Hj & Hcj).
  destruct (live_word a w (punct +:+ ws +:+ j) Ha Hw)
    as (Hfirst & c & r & -> & Hc & Htick).
  assert (Hjne : is_empty j = false) by (by rewrite Hj).
  assert (Htrimmed : trim (String c r +:+ punct +:+ ws +:+ j) =
                     String c r +:+ punct +:+ ws +:+ j).
  { unfold trim. rewrite append_cons, (trimStart_fixed _ _ Hc), <- append_cons.
    rewrite <- !append_assoc. by apply trimEnd_app. }
  unfold cleanJSONResponse. rewrite Htrimmed.
  assert (Hfence : startsWith FENCE (String c r +:+ punct +:+ ws +:+ j) = false).
  { rewrite append_cons. unfold startsWith, FENCE. cbn [strip_prefix].
    by rewrite Htick. }
  rewrite (not_fenced _ Hfence).
  unfold strip_conversational. rewrite Hfirst.
  rewrite (optional_punct_spec punct ws j Hpunct Hws Hvalid).
  assert (Hstart : trimStart j = j).
  { rewrite Hj. apply (trimStart_fixed _ _ Hcj). }
  by rewrite Hstart, Hvalid.
Qed.

Lemma cleanJSONResponse_removes_greeting_witness :
  cleanJSONResponse ("CERTAINLY" +:+ ":" +:+ "  " +:+ "[1, 2]") = "[1, 2]".
Proof.
  apply (cleanJSONResponse_removes_greeting "certainly" "CERTAINLY" ":" "  " "[1, 2]");
    [by repeat constructor | reflexivity | by repeat constructor
    | reflexivity | reflexivity | reflexivity].
Defined.

End Greetings.

(** ** The rate limiter over a window *)

Section Window.
Import Llm Runs.

Lemma run_calls_counted (ip : string) limit windowMs : forall times
    (m : gmap string RateEntry) c reset,
  m !! ip = Some {| count := c; resetTime := reset |} ->
  Forall (fun now => now <= reset) times ->
  (run_calls m times ip limit windowMs).1 =
  map (fun k => bool_decide (c + Z.of_nat k < default 20 limit))
    (seq 0 (length times)).
Proof.
  induction times as [|now later IH]; intros m c reset Hm Hall; first done.
  inversion Hall as [|? ? Hnow Hlater]; subst.
  cbn [run_calls length seq map].
  unfold checkRateLimit at 1. rewrite Hm. cbn [resetTime count].
  destruct (Z.gtb_spec now reset); first lia.
  destruct (Z.geb_spec c (default 20 limit)) as [Hge|Hlt].
  - specialize (IH m c reset Hm Hlater).
    destruct (run_calls m later ip limit windowMs) as [rest m'']. cbn [fst] in *.
    rewrite IH, bool_decide_eq_false_2 by lia. f_equal.
    rewrite <- seq_shift, map_map. apply map_ext. intros k.
    rewrite !bool_decide_eq_false_2; [done | lia | lia].
  - specialize (IH (<[ip := {| count := c + 1; resetTime := reset |}]> m)
                  (c + 1) reset (lookup_insert_eq _ _ _) Hlater).
    destruct (run_calls _ later ip limit windowMs) as [rest m'']. cbn [fst] in *.
    rewrite IH, bool_decide_eq_true_2 by lia. f_equal.
    rewrite <- seq_shift, map_map. apply map_ext. intros k.
    apply bool_decide_ext. lia.
Qed.

(** X13. Within one window the limiter admits the first [max 1 limit]
    calls and no more: from a map without the key, a first call at [t0]
    and later calls at any clock readings up to [t0 + windowMs] return, in
    order, [true] for the first call and for those preceded by fewer than
    [limit] calls, and [false] for the rest. *)
Theorem checkRateLimit_admits_limit_per_window
    (m : gmap string RateEntry) t0 later ip limit windowMs :
  m !! ip = None ->
  0 <= default 3600000 windowMs ->
  Forall (fun now => now <= t0 + default 3600000 windowMs) later ->
  (run_calls m (t0 :: later) ip limit windowMs).1 =
  map (fun k => bool_decide (k = 0%nat \/ Z.of_nat k < default 20 limit))
    (seq 0 (S (length later))).
Proof.
  intros Hm Hw Hlater. cbn [run_calls seq map].
  unfold checkRateLimit at 1. rewrite Hm.
  pose proof (run_calls_counted ip limit windowMs later
                (<[ip := {| count := 1; resetTime := t0 + default 3600000 windowMs |}]> m)
                1 _ (lookup_insert_eq _ _ _) Hlater) as Hrun.
  destruct (run_calls _ later ip limit windowMs) as [rest m'']. cbn [fst] in *.
  rewrite Hrun, bool_decide_eq_true_2 by (by left). f_equal.
  rewrite <- seq_shift, map_map. apply map_ext. intros k.
  apply bool_decide_ext. lia.
Qed.

Lemma checkRateLimit_admits_limit_per_window_witness :
  (run_calls ∅ [1000; 1500; 900; 4600] "10.0.0.1" (Some 2) (Some 3600)).1 =
  map (fun k => bool_decide (k = 0%nat \/ Z.of_nat k < default 20 (Some 2)))
    (seq 0 4).
Proof.
  apply (checkRateLimit_admits_limit_per_window ∅ 1000 [1500; 900; 4600]
           "10.0.0.1" (Some 2) (Some 3600)).
  - reflexivity.
  - simpl. lia.
  - repeat constructor; simpl; lia.
Defined.

(** X14. A refused call leaves the map exactly as it was; a call whose
    clock reading is past the stored end of the window is admitted
    whatever the count and restarts the key at count 1 with a new window;
    and no call ever stores a count below 1 if none was there. *)
Theorem checkRateLimit_refusal_and_expiry :
  (forall (m : gmap string RateEntry) now ip limit windowMs,
     (checkRateLimit m now ip limit windowMs).1 = false ->
     (checkRateLimit m now ip limit windowMs).2 = m) /\
  (forall (m : gmap string RateEntry) now ip limit windowMs current,
     m !! ip = Some current ->
     resetTime current < now ->
     checkRateLimit m now ip limit windowMs =
       (true, <[ip := {| count := 1;
                         resetTime := now + default 3600000 windowMs |}]> m)) /\
  (forall (m : gmap string RateEntry) now ip limit windowMs,
     map_Forall (fun _ entry => 1 <= count entry) m ->
     map_Forall (fun _ entry => 1 <= count entry)
       (checkRateLimit m now ip limit windowMs).2).
Proof.
  split; [|split].
  - intros m now ip limit windowMs. unfold checkRateLimit.
    destruct (m !! ip) as [current|]; last done.
    destruct (now >? resetTime current); first done.
    by destruct (count current >=? default 20 limit).
  - intros m now ip limit windowMs current Hm Hpast. unfold checkRateLimit.
    rewrite Hm. by destruct (Z.gtb_spec now (resetTime current)); [|lia].
  - intros m now ip limit windowMs Hall. unfold checkRateLimit.
    destruct (m !! ip) as [current|] eqn:Hm.
    + pose proof (Hall ip current Hm) as Hcur. cbn in Hcur.
      destruct (now >? resetTime current); cbn [snd].
      * apply map_Forall_insert_2; [cbn; lia | done].
      * destruct (count current >=? default 20 limit); cbn [snd]; first done.
        apply map_Forall_insert_2; [cbn; lia | done].
    + cbn [snd]. apply map_Forall_insert_2; [cbn; lia | done].
Qed.

Lemma checkRateLimit_refusal_and_expiry_witness :
  checkRateLimit (<["10.0.0.1" := {| count := 20; resetTime := 5000 |}]> ∅)
    5001 "10.0.0.1" None None =
  (true, <["10.0.0.1" := {| count := 1; resetTime := 5001 + default 3600000 None |}]>
           (<["10.0.0.1" := {| count := 20; resetTime := 5000 |}]> ∅)).
Proof.
  apply (proj1 (proj2 checkRateLimit_refusal_and_expiry) _ 5001 "10.0.0.1" None None
           {| count := 20; resetTime := 5000 |}).
  - apply lookup_insert_eq.
  - simpl. lia.
Defined.

End Window.

(** ** More of the request schema *)

Section Schema.
Import JsString Route Props Runs.

Lemma z_enum_accepts values p o s :
  z_enum values p o = inl s -> s ∈ values.
Proof.
  unfold z_enum. destruct o as [[| | |t| |]|]; try done.
  destruct (bool_decide (t ∈ values)) eqn:E; last done.
  intros [= <-]. by apply bool_decide_eq_true in E.
Qed.

Lemma with_default_enum_accepts values d p o s :
  d ∈ values -> with_default (z_enum values) d p o = inl s -> s ∈ values.
Proof.
  intros Hd. unfold with_default. destruct o; last by intros [= <-].
  apply z_enum_accepts.
Qed.

(** X15. What the schema lets through is inside the enumerations: an
    accepted request has its mode, tone, audience and theme in the declared
    lists, so the theme table always has the image style the slide loop
    looks up. *)
Theorem accepted_request_is_within_enumerations m v :
  GenerateDeckRequestSchema (JObj m) = inl v ->
  mode v ∈ MODES /\ tone v ∈ TONES /\ audience v ∈ AUDIENCES /\
  theme v ∈ THEMES /\ is_Some (image_style (theme v)).
Proof.
  intros H.
  destruct (accepted_members m v H) as (Hmode & Htone & Haud & _ & Htheme).
  unfold member in *.
  apply z_enum_accepts in Hmode.
  apply with_default_enum_accepts in Htone; last by repeat constructor.
  apply with_default_enum_accepts in Haud; last by repeat constructor.
  apply with_default_enum_accepts in Htheme; last by repeat constructor.
  repeat (split; first done).
  unfold THEMES in Htheme. rewrite !elem_of_cons, elem_of_nil in Htheme.
  destruct Htheme as [->|[->|[->|[->|[]]]]]; by eexists.
Qed.

Lemma accepted_request_is_within_enumerations_witness :
  "quick_prompt" ∈ MODES /\ "professional" ∈ TONES /\ "general" ∈ AUDIENCES /\
  "deep_space" ∈ THEMES /\ is_Some (image_style "deep_space").
Proof.
  apply (accepted_request_is_within_enumerations (<["mode" := JStr "quick_prompt"]> ∅)
           {| mode := "quick_prompt"; topic_or_prompt := None; instructions := None;
              tone := "professional"; audience := "general"; slide_count := 10;
              theme := "deep_space"; live_widgets := false; assets := None |}).
  vm_compute. reflexivity.
Defined.

(** X16. Members the schema does not declare are ignored: adding any
    other member to the request object changes neither the outcome of the
    validation nor the handler's answer. *)
Theorem undeclared_members_are_ignored env m key value :
  key ∉ declared_members ->
  GenerateDeckRequestSchema (JObj (<[key := value]> m)) =
    GenerateDeckRequestSchema (JObj m) /\
  POST env (JObj (<[key := value]> m)) = POST env (JObj m).
Proof.
  intros Hkey.
  assert (Hschema : GenerateDeckRequestSchema (JObj (<[key := value]> m)) =
                    GenerateDeckRequestSchema (JObj m)).
  { unfold GenerateDeckRequestSchema, member.
    unfold declared_members in Hkey.
    rewrite !lookup_insert_ne; first done; intros ->; apply Hkey;
      by repeat constructor. }
  split; first done. unfold POST. by rewrite Hschema.
Qed.

Lemma undeclared_members_are_ignored_witness :
  GenerateDeckRequestSchema
    (JObj (<["slideCount" := JNum 99]> (<["mode" := JStr "quick_prompt"]> ∅))) =
  GenerateDeckRequestSchema (JObj (<["mode" := JStr "quick_prompt"]> ∅)).
Proof.
  assert (Hkey : "slideCount" ∉ declared_members).
  { intros H. unfold declared_members in H.
    repeat (apply elem_of_cons in H as [H|H]; first discriminate H).
    by apply elem_of_nil in H. }
  apply (proj1 (undeclared_members_are_ignored long_outline_env
                  (<["mode" := JStr "quick_prompt"]> ∅) "slideCount" (JNum 99)
                  Hkey)).
Defined.

Lemma z_items_rejected p items : forall k i x,
  items !! i = Some x ->
  (forall s, x <> JStr s) ->
  rejected (z_items z_string p k items)
    {| path := p ++ [show_nat (k + i)]; issue_kind := invalid_type |}.
Proof.
  induction items as [|y items IH]; intros k i x Hi Hx; first done.
  cbn [z_items]. destruct i as [|i].
  - injection Hi as ->. rewrite Nat.add_0_r.
    apply rejected_ap_l, rejected_ap_r.
    replace (z_string (p ++ [show_nat k]) (Some x))
      with (@fail string (p ++ [show_nat k]) invalid_type).
    + apply rejected_fail.
    + destruct x; try done. by destruct (Hx s).
  - apply rejected_ap_r. replace (k + S i)%nat with (S k + i)%nat by lia.
    by apply (IH (S k) i x).
Qed.

Lemma optional_rejected {A} (s : schema A) p o i :
  is_Some o -> rejected (s p o) i -> rejected (optional s p o) i.
Proof.
  intros [x ->] (es & Hes & Hi). unfold optional. rewrite Hes. by exists es.
Qed.

(** X17. The mode is required and the body must be an object: a request
    object without [mode], and a body that is [null], a boolean, a number,
    a string or an array, are answered with status 400 before any LLM call,
    the first naming the field [mode], the second the empty path. *)
Theorem POST_requires_mode_and_object env :
  (forall m, m !! "mode" = None ->
     exists details,
       POST env (JObj m) = ([], Json400 "Invalid request data" details) /\
       ("mode", invalid_type) ∈ details) /\
  (forall body, (forall m, body <> JObj m) ->
     POST env body =
       ([], Json400 "Invalid request data" [(EmptyString, invalid_type)])).
Proof.
  split.
  - intros m Hm.
    apply (POST_rejected env (JObj m) {| path := ["mode"]; issue_kind := invalid_type |}).
    unfold GenerateDeckRequestSchema.
    do 8 apply rejected_ap_l. apply rejected_ap_r.
    unfold member. rewrite Hm. apply rejected_fail.
  - intros body Hbody. unfold POST, GenerateDeckRequestSchema.
    destruct body; try done. by destruct (Hbody members).
Qed.

Lemma POST_requires_mode_and_object_witness :
  POST long_outline_env (JArr []) =
    ([], Json400 "Invalid request data" [(EmptyString, invalid_type)]).
Proof.
  apply (proj2 (POST_requires_mode_and_object long_outline_env) (JArr [])).
  discriminate.
Defined.

(** X18. A document URL that is not a string is reported under its full
    path: when [assets.doc_urls] is an array whose element [i] is not a
    string, the answer is status 400 and the details name the field
    [assets.doc_urls.i]. *)
Theorem POST_reports_nested_path env m a items i x :
  m !! "assets" = Some (JObj a) ->
  a !! "doc_urls" = Some (JArr items) ->
  items !! i = Some x ->
  (forall s, x <> JStr s) ->
  exists details,
    POST env (JObj m) = ([], Json400 "Invalid request data" details) /\
    ("assets.doc_urls." +:+ show_nat i, invalid_type) ∈ details.
Proof.
  intros Hm Ha Hi Hx.
  apply (POST_rejected env (JObj m)
           {| path := ["assets"; "doc_urls"; show_nat i]; issue_kind := invalid_type |}).
  unfold GenerateDeckRequestSchema. apply rejected_ap_r.
  unfold member. rewrite Hm. apply optional_rejected; first by eexists.
  unfold AssetsSchema. do 2 apply rejected_ap_l. apply rejected_ap_r.
  unfold member. rewrite Ha. apply optional_rejected; first by eexists.
  unfold z_array.
  exact (z_items_rejected (([] ++ ["assets"]) ++ ["doc_urls"]) items 0 i x Hi Hx).
Qed.

Lemma POST_reports_nested_path_witness :
  exists details,
    POST long_outline_env (JObj bad_assets) =
      ([], Json400 "Invalid request data" details) /\
    ("assets.doc_urls." +:+ show_nat 0, invalid_type) ∈ details.
Proof.
  apply (POST_reports_nested_path long_outline_env bad_assets
           (<["doc_urls" := JArr [JNum 7]]> ∅) [JNum 7] 0%nat (JNum 7));
    [vm_compute; reflexivity | vm_compute; reflexivity | reflexivity | discriminate].
Defined.

End Schema.

(** ** The LLM client: cleaning *)

Section ClientCleaning.
Import JsString JsText LlmClient JsonChars Props.

Lemma client_clean_none s :
  all_chars (fun c => negb (is_control c)) s = true -> cleanJSONResponse s = s.
Proof.
  induction s as [|c s IH]; first done. cbn [all_chars cleanJSONResponse].
  intros [Hc Hs]%andb_prop. apply negb_true_iff in Hc. by rewrite Hc, IH.
Qed.

Lemma client_clean_clean s :
  all_chars (fun c => negb (is_control c)) (cleanJSONResponse s) = true.
Proof.
  induction s as [|c s IH]; first done. cbn [cleanJSONResponse].
  destruct (is_control c) eqn:E; first done.
  cbn [all_chars]. by rewrite E, IH.
Qed.

Lemma client_clean_app a b :
  cleanJSONResponse (a +:+ b) = cleanJSONResponse a +:+ cleanJSONResponse b.
Proof.
  induction a as [|c a IH]; first done.
  rewrite append_cons. cbn [cleanJSONResponse].
  destruct (is_control c); [done | by rewrite append_cons, IH].
Qed.

Lemma client_clean_deletes a c b :
  is_control c = true ->
  cleanJSONResponse (a +:+ String c b) = cleanJSONResponse a +:+ cleanJSONResponse b.
Proof.
  intros Hc. rewrite client_clean_app. cbn [cleanJSONResponse]. by rewrite Hc.
Qed.

(** X19. The client's [cleanJSONResponse] removes exactly the control
    characters of its pattern: a control character is deleted wherever it
    stands, with nothing put in its place; nothing of them is left; a
    string without them is returned as it is; cleaning twice is cleaning
    once; cleaning goes through concatenation; and the whitespace of JSON
    (space, tab, line feed, carriage return) is never removed. *)
Theorem client_cleanJSONResponse_removes_control_characters :
  (forall a c b, is_control c = true ->
     cleanJSONResponse (a +:+ String c b) =
     cleanJSONResponse a +:+ cleanJSONResponse b) /\
  (forall s, all_chars (fun c => negb (is_control c)) (cleanJSONResponse s) = true) /\
  (forall s, all_chars (fun c => negb (is_control c)) s = true ->
             cleanJSONResponse s = s) /\
  (forall s, cleanJSONResponse (cleanJSONResponse s) = cleanJSONResponse s) /\
  (forall a b, cleanJSONResponse (a +:+ b) =
               cleanJSONResponse a +:+ cleanJSONResponse b) /\
  (forall c, Json.json_ws c = true -> is_control c = false).
Proof.
  split; [|split; [|split; [|split; [|split]]]].
  - apply client_clean_deletes.
  - apply client_clean_clean.
  - apply client_clean_none.
  - intros s. apply client_clean_none, client_clean_clean.
  - apply client_clean_app.
  - intros c. destruct c as [[] [] [] [] [] [] [] []]; vm_compute;
      first [reflexivity | discriminate].
Qed.

Lemma client_cleanJSONResponse_removes_control_characters_witness :
  cleanJSONResponse ("{ " +:+ String "001" " }") = "{ " +:+ " }" /\
  cleanJSONResponse "{ }" = "{ }".
Proof.
  split.
  - apply (proj1 client_cleanJSONResponse_removes_control_characters
             "{ " "001"%char " }").
    reflexivity.
  - apply (proj1 (proj2 (proj2 client_cleanJSONResponse_removes_control_characters))
             "{ }").
    reflexivity.
Defined.

Lemma low_control_differs c x :
  low_control c = true -> low_control x = false -> Ascii.eqb c x = false.
Proof.
  intros Hc Hx. destruct (Ascii.eqb_spec c x) as [->|]; [congruence | done].
Qed.

Lemma low_control_tests c :
  low_control c = true ->
  Json.json_ws c = false /\ is_digit c = false /\ Json.is_hex c = false /\
  Json.is_escape c = false /\ Json.is_exp c = false /\ (code c <? 32)%N = true.
Proof.
  destruct c as [[] [] [] [] [] [] [] []]; vm_compute;
    first [discriminate | intros _; repeat split; reflexivity].
Qed.

Lemma start_value_low c stk :
  low_control c = true -> Json.start_value c stk = None.
Proof.
  intros H. destruct (low_control_tests c H) as (_ & Hd & _).
  unfold Json.start_value.
  rewrite !(low_control_differs c _ H) by reflexivity. by rewrite Hd.
Qed.

Lemma after_value_low c stk :
  low_control c = true -> Json.after_value c stk = None.
Proof.
  intros H. destruct (low_control_tests c H) as (Hws & _).
  unfold Json.after_value.
  rewrite !(low_control_differs c _ H) by reflexivity. by rewrite Hws.
Qed.

(** No mode of a run accepts a control character below 32. *)
Lemma step_low c m stk :
  low_control c = true -> clean_mode m = true -> Json.step m stk c = None.
Proof.
  intros H Hm.
  destruct (low_control_tests c H) as (Hws & Hd & Hhex & Hesc & Hexp & Hlt).
  pose proof (start_value_low c stk H) as Hstart.
  pose proof (after_value_low c stk H) as Hafter.
  destruct m as [ | | | | | |k|k|k n| | | | | | | | |rest]; cbn [Json.step];
    rewrite ?Hws, ?Hd, ?Hhex, ?Hesc, ?Hexp, ?Hlt, ?Hstart, ?Hafter;
    rewrite ?(low_control_differs c _ H) by reflexivity;
    rewrite ?Hws, ?Hd, ?Hhex, ?Hesc, ?Hexp, ?Hlt, ?Hstart, ?Hafter;
    try reflexivity.
  destruct rest as [|x rest]; first done.
  cbn [clean_mode all_chars] in Hm. apply andb_prop in Hm as [Hx _].
  apply negb_true_iff in Hx.
  rewrite (low_control_differs c x H); first done.
  unfold low_control. by rewrite Hx.
Qed.

Lemma start_value_clean c stk m' stk' :
  Json.start_value c stk = Some (m', stk') -> clean_mode m' = true.
Proof.
  unfold Json.start_value. repeat case_match; intros [= <- <-]; reflexivity.
Qed.

Lemma after_value_clean c stk m' stk' :
  Json.after_value c stk = Some (m', stk') -> clean_mode m' = true.
Proof.
  unfold Json.after_value, Json.close.
  repeat case_match; try discriminate; intros [= <- <-]; reflexivity.
Qed.

Lemma step_clean_mode m stk c m' stk' :
  Json.step m stk c = Some (m', stk') -> clean_mode m = true -> clean_mode m' = true.
Proof.
  intros H Hm.
  destruct m as [ | | | | | |k|k|k n| | | | | | | | |rest]; cbn [Json.step] in H.
  18: { destruct rest as [|x rest]; first done.
        destruct (Ascii.eqb c x); last done. injection H as <- <-.
        cbn [clean_mode all_chars] in Hm. apply andb_prop in Hm as [_ Hrest].
        by destruct (is_empty rest). }
  all: repeat case_match; try discriminate;
    first [ by eapply start_value_clean
          | by eapply after_value_clean
          | (unfold Json.close in H; repeat case_match; try discriminate;
             by injection H as <- <-)
          | (injection H as <- <-; first [reflexivity | by destruct k]) ].
Qed.

Lemma run_no_low_control s : forall m stk,
  Json.run m stk s = true -> clean_mode m = true ->
  all_chars (fun c => negb (low_control c)) s = true.
Proof.
  induction s as [|c s IH]; intros m stk Hrun Hm; first done.
  cbn [Json.run] in Hrun. cbn [all_chars].
  destruct (Json.step m stk c) as [[m' stk']|] eqn:Hstep; last done.
  destruct (low_control c) eqn:Hlow.
  - by rewrite (step_low c m stk Hlow Hm) in Hstep.
  - cbn. apply (IH m' stk' Hrun). by apply (step_clean_mode m stk c m' stk').
Qed.

(** X20. The client's cleaning leaves a JSON text alone unless it holds a
    DEL: a valid JSON text has no control character below 32 other than
    tab, line feed and carriage return, so if it has no code unit 127
    either, [cleanJSONResponse] returns it unchanged. *)
Theorem client_cleanJSONResponse_keeps_valid_json s :
  Json.json_valid s = true ->
  free_of DEL s = true ->
  cleanJSONResponse s = s.
Proof.
  intros Hvalid Hdel. apply client_clean_none.
  pose proof (run_no_low_control s Json.Value [] Hvalid eq_refl) as Hlow.
  clear Hvalid. induction s as [|c s IH]; first done.
  cbn [all_chars free_of] in *.
  apply andb_prop in Hlow as [Hc Hlow]. apply andb_prop in Hdel as [Hd Hdel].
  rewrite (IH Hdel Hlow), andb_true_r.
  unfold low_control in Hc. destruct (is_control c); last done.
  cbn in Hc. by rewrite Hd in Hc.
Qed.

Lemma client_cleanJSONResponse_keeps_valid_json_witness :
  cleanJSONResponse "[1, 2.5e3, true]" = "[1, 2.5e3, true]".
Proof.
  apply (client_cleanJSONResponse_keeps_valid_json "[1, 2.5e3, true]"); reflexivity.
Defined.

End ClientCleaning.

(** ** The LLM client: extraction and configuration *)

Section ClientExtraction.
Import JsString JsText LlmClient Props.

Lemma from_first_brace_app pre rest :
  free_of "{" pre = true ->
  from_first_brace (pre +:+ String "{" rest) = Some (String "{" rest).
Proof.
  induction pre as [|c pre IH]; first done. cbn [free_of].
  intros [Hc Hpre]%andb_prop. apply negb_true_iff in Hc.
  rewrite append_cons. cbn [from_first_brace]. by rewrite Hc, IH.
Qed.

Lemma from_first_brace_none s :
  free_of "{" s = true -> from_first_brace s = None.
Proof.
  induction s as [|c s IH]; first done. cbn [free_of from_first_brace].
  intros [Hc Hs]%andb_prop. apply negb_true_iff in Hc. by rewrite Hc, IH.
Qed.

Lemma upto_last_brace_none s :
  free_of "}" s = true -> upto_last_brace s = None.
Proof.
  induction s as [|c s IH]; first done. cbn [free_of upto_last_brace].
  intros [Hc Hs]%andb_prop. apply negb_true_iff in Hc. by rewrite IH, Hc.
Qed.

Lemma upto_last_brace_app body post :
  free_of "}" post = true ->
  upto_last_brace (body +:+ String "}" post) = Some (body +:+ String "}" EmptyString).
Proof.
  intros Hpost. induction body as [|c body IH].
  - change (EmptyString +:+ String "}" post) with (String "}" post).
    cbn [upto_last_brace]. by rewrite (upto_last_brace_none post Hpost).
  - rewrite !append_cons. cbn [upto_last_brace]. by rewrite IH.
Qed.

Lemma from_first_brace_suffix s t :
  from_first_brace s = Some t -> exists pre, s = pre +:+ t /\ free_of "{" pre = true.
Proof.
  induction s as [|c s IH]; first done. cbn [from_first_brace].
  destruct (Ascii.eqb c "{") eqn:E.
  - intros [= <-]. by exists EmptyString.
  - intros H. destruct (IH H) as (pre & -> & Hpre).
    exists (String c pre). split; first done. cbn [free_of]. by rewrite E, Hpre.
Qed.

(** X21. [parseOutline] and [parseSlide] take the text from the first
    opening brace to the last closing brace: a reply made of brace-free
    text, an opening brace, anything, a closing brace and closing-brace-free
    text is parsed from the braces and what lies between them, as JSON when
    that is a JSON text and as the 'Failed to parse' error otherwise; a
    reply with no opening brace, or no closing brace after the first
    opening one, gets the basic outline or slide and never an error. *)
Theorem parse_braced_takes_first_to_last_brace :
  (forall pre mid post,
     free_of "{" pre = true -> free_of "}" post = true ->
     parseOutline (pre +:+ "{" +:+ mid +:+ "}" +:+ post) =
       (if Json.json_valid ("{" +:+ mid +:+ "}")
        then FromJson ("{" +:+ mid +:+ "}") else FailedToParse) /\
     parseSlide (pre +:+ "{" +:+ mid +:+ "}" +:+ post) =
       parseOutline (pre +:+ "{" +:+ mid +:+ "}" +:+ post)) /\
  (forall content, free_of "{" content = true -> parseOutline content = Basic) /\
  (forall pre rest,
     free_of "{" pre = true -> free_of "}" rest = true ->
     parseOutline (pre +:+ "{" +:+ rest) = Basic).
Proof.
  split; [|split].
  - intros pre mid post Hpre Hpost. split; last done.
    unfold parseOutline, parse_braced, match_braces.
    change (pre +:+ "{" +:+ mid +:+ "}" +:+ post)
      with (pre +:+ String "{" (mid +:+ String "}" post)).
    rewrite (from_first_brace_app pre _ Hpre). cbn [mbind option_bind].
    rewrite <- append_cons, (upto_last_brace_app (String "{" mid) post Hpost).
    done.
  - intros content H. unfold parseOutline, parse_braced, match_braces.
    by rewrite (from_first_brace_none content H).
  - intros pre rest Hpre Hrest. unfold parseOutline, parse_braced, match_braces.
    change (pre +:+ "{" +:+ rest) with (pre +:+ String "{" rest).
    rewrite (from_first_brace_app pre _ Hpre). cbn [mbind option_bind].
    cbn [upto_last_brace]. by rewrite (upto_last_brace_none rest Hrest).
Qed.

Lemma parse_braced_takes_first_to_last_brace_witness :
  parseOutline ("Here you go: " +:+ "{" +:+ " " +:+ "}" +:+ " Enjoy!") =
    (if Json.json_valid ("{" +:+ " " +:+ "}")
     then FromJson ("{" +:+ " " +:+ "}") else FailedToParse).
Proof.
  apply (proj1 parse_braced_takes_first_to_last_brace "Here you go: " " " " Enjoy!");
    reflexivity.
Defined.

(** X22. [createLLMClient] runs in demo mode unless both a provider and a
    usable key are set: it returns the demo configuration whenever
    [LLM_PROVIDER] is unset, empty or ['demo'], or [LLM_API_KEY] is unset,
    empty or one of the two placeholder keys (so also for Ollama without a
    key); otherwise it keeps the provider and the key and fills the base
    URL and the model with the provider's defaults where unset. *)
Theorem createLLMClient_demo_unless_provider_and_key env :
  let provider := env_or (LLM_PROVIDER env) "demo" in
  let apiKey := env_or (LLM_API_KEY env) EmptyString in
  (provider = "demo" \/ apiKey = EmptyString \/
   apiKey = "your_openai_api_key_here" \/
   apiKey = "your_actual_openai_api_key_here" ->
   createLLMClient env = DEMO_CONFIG) /\
  (provider <> "demo" -> apiKey <> EmptyString ->
   apiKey <> "your_openai_api_key_here" ->
   apiKey <> "your_actual_openai_api_key_here" ->
   LLM_PROVIDER env = Some provider /\ LLM_API_KEY env = Some apiKey /\
   createLLMClient env =
     {| LlmClient.provider := provider;
        LlmClient.apiKey := apiKey;
        baseUrl := env_or (LLM_BASE_URL env)
                     (if String.eqb provider "openai" then "https://api.openai.com"
                      else "http://localhost:11434");
        model := env_or (LLM_MODEL env)
                   (if String.eqb provider "openai" then "gpt-4" else "llama2") |}).
Proof.
  intros provider apiKey. unfold createLLMClient. fold provider. fold apiKey.
  split.
  - intros [H|[H|[H|H]]]; rewrite H; cbn; by rewrite ?orb_true_r.
  - intros Hp Hk Hk1 Hk2.
    assert (Hset : forall x d, env_or x d <> d -> x = Some (env_or x d)).
    { intros [s|] d; last done. unfold env_or. by destruct (is_empty s). }
    split; first by apply Hset. split; first by apply Hset.
    apply String.eqb_neq in Hp, Hk1, Hk2. rewrite Hp, Hk1, Hk2.
    by destruct apiKey.
Qed.

Lemma createLLMClient_demo_unless_provider_and_key_witness :
  createLLMClient {| LLM_PROVIDER := Some "ollama"; LLM_API_KEY := None;
                     LLM_BASE_URL := None; LLM_MODEL := None |} = DEMO_CONFIG.
Proof.
  apply (proj1 (createLLMClient_demo_unless_provider_and_key
                  {| LLM_PROVIDER := Some "ollama"; LLM_API_KEY := None;
                     LLM_BASE_URL := None; LLM_MODEL := None |})).
  right. left. reflexivity.
Defined.

(** X23. The pipeline's own configuration never falls back to demo mode:
    with [getLLMConfig] the calls go to the demo branch only when
    [LLM_PROVIDER] is ['demo'], to Ollama when it is unset or empty, key or
    no key, and a provider that is none of openai, ollama and demo makes
    [callLLM] throw its 'Unsupported LLM provider' error. *)
Theorem getLLMConfig_backend env :
  (callLLM_backend (getLLMConfig env) = Some Demo <->
   LLM_PROVIDER env = Some "demo") /\
  (LLM_PROVIDER env = None \/ LLM_PROVIDER env = Some EmptyString ->
   callLLM_backend (getLLMConfig env) = Some Ollama) /\
  (forall p, LLM_PROVIDER env = Some p -> p <> EmptyString ->
     p <> "openai" -> p <> "ollama" -> p <> "demo" ->
     callLLM_backend (getLLMConfig env) = None) /\
  apiKey (getLLMConfig env) <> EmptyString.
Proof.
  unfold callLLM_backend, getLLMConfig. cbn [provider apiKey].
  split; [|split; [|split]].
  - destruct (LLM_PROVIDER env) as [p|]; last done. unfold env_or.
    destruct p as [|c p]; first done. cbn [is_empty].
    destruct (String.eqb_spec (String c p) "openai") as [E|_].
    { rewrite E. split; [done | by intros [=]]. }
    destruct (String.eqb_spec (String c p) "ollama") as [E|_].
    { rewrite E. split; [done | by intros [=]]. }
    destruct (String.eqb_spec (String c p) "demo") as [E|Hne].
    { by rewrite E. }
    split; [done | intros E; destruct Hne; congruence].
  - by intros [-> | ->].
  - intros p -> Hne H1 H2 H3. unfold env_or.
    destruct p as [|c p]; first done. cbn [is_empty].
    apply String.eqb_neq in H1, H2, H3. by rewrite H1, H2, H3.
  - unfold env_or. destruct (LLM_API_KEY env) as [[|c k]|]; done.
Qed.

Lemma getLLMConfig_backend_witness :
  callLLM_backend (getLLMConfig {| LLM_PROVIDER := None; LLM_API_KEY := None;
                                   LLM_BASE_URL := None; LLM_MODEL := None |}) =
  Some Ollama.
Proof.
  apply (proj1 (proj2 (getLLMConfig_backend
                         {| LLM_PROVIDER := None; LLM_API_KEY := None;
                            LLM_BASE_URL := None; LLM_MODEL := None |}))).
  by left.
Defined.

End ClientExtraction.

(** ** The studio page: markdown stripping *)

Section Markdown.
Import JsString JsText Studio Props.

Lemma strip_prefix_head_differs x d' c r :
  Ascii.eqb c x = false -> strip_prefix (String x d') (String c r) = None.
Proof. intros H. cbn [strip_prefix]. by rewrite Ascii.eqb_sym, H. Qed.

(** Text without the delimiter's character goes through a pass as it is,
    also in front of more text. *)
Lemma unwrap_plain_prefix x d' a w :
  free_of x a = true ->
  unwrap (String x d') 0 (a +:+ w) = a +:+ unwrap (String x d') 0 w.
Proof.
  induction a as [|c a IH]; first done. cbn [free_of].
  intros [Hc Ha]%andb_prop. apply negb_true_iff in Hc.
  rewrite !append_cons. cbn [unwrap].
  by rewrite (strip_prefix_head_differs x d' c _ Hc), (IH Ha).
Qed.

Lemma unwrap_plain x d' s :
  free_of x s = true -> unwrap (String x d') 0 s = s.
Proof.
  intros H. rewrite <- (append_nil_r s) at 1.
  rewrite (unwrap_plain_prefix x d' s EmptyString H). by rewrite append_nil_r.
Qed.

Lemma unwrap_skip d u v :
  unwrap d (String.length u) (u +:+ v) = unwrap d 0 v.
Proof. induction u as [|c u IH]; first done. rewrite append_cons. exact IH. Qed.

Lemma find_close_found x d' t b :
  free_of x t = true ->
  all_chars (fun c => negb (is_line_terminator c)) t = true ->
  find_close (String x d') (t +:+ String x d' +:+ b) = Some t.
Proof.
  induction t as [|c t IH]; intros Hfree Hline.
  - change (EmptyString +:+ String x d' +:+ b) with (String x d' +:+ b).
    assert (H : startsWith (String x d') (String x d' +:+ b) = true).
    { unfold startsWith. by rewrite strip_prefix_refl. }
    rewrite append_cons in *. cbn [find_close]. by rewrite H.
  - cbn [free_of all_chars] in *.
    apply andb_prop in Hfree as [Hc Hfree]. apply andb_prop in Hline as [Hl Hline].
    apply negb_true_iff in Hc, Hl.
    rewrite append_cons. cbn [find_close]. unfold startsWith.
    rewrite (strip_prefix_head_differs x d' c _ Hc), Hl, (IH Hfree Hline). done.
Qed.

(** One pass over a delimited stretch between plain text. *)
Lemma unwrap_pair x d' a t b :
  free_of x a = true -> free_of x t = true -> free_of x b = true ->
  all_chars (fun c => negb (is_line_terminator c)) t = true ->
  unwrap (String x d') 0 (a +:+ String x d' +:+ t +:+ String x d' +:+ b) =
  a +:+ t +:+ b.
Proof.
  intros Ha Ht Hb Hline. rewrite (unwrap_plain_prefix x d' a _ Ha). f_equal.
  rewrite append_cons. cbn [unwrap].
  rewrite <- append_cons, strip_prefix_refl. cbn [mbind option_bind].
  rewrite (find_close_found x d' t b Ht Hline). f_equal.
  replace (String.length (String x d') + String.length t +
           String.length (String x d') - 1)%nat
    with (String.length (d' +:+ t +:+ String x d')).
  - rewrite <- (unwrap_plain x d' b Hb) at 2.
    rewrite <- (unwrap_skip (String x d') (d' +:+ t +:+ String x d') b).
    by rewrite !append_assoc.
  - rewrite !append_length. cbn [String.length]. lia.
Qed.

(** X24. Text without asterisks and underscores is only trimmed by
    [stripMarkdown]. *)
Theorem stripMarkdown_plain_text text :
  free_of "*" text = true -> free_of "_" text = true ->
  stripMarkdown text = trim text.
Proof.
  intros Hstar Hunder. unfold stripMarkdown.
  by rewrite (unwrap_plain "*" "*" text Hstar), (unwrap_plain "*" EmptyString text Hstar),
    (unwrap_plain "_" "_" text Hunder), (unwrap_plain "_" EmptyString text Hunder).
Qed.

Lemma stripMarkdown_plain_text_witness :
  stripMarkdown "  Solar power  " = trim "  Solar power  ".
Proof. apply (stripMarkdown_plain_text "  Solar power  "); reflexivity. Defined.

Lemma strip_prefix_cons x d' c r :
  strip_prefix (String x d') (String c r) =
  if Ascii.eqb x c then strip_prefix d' r else None.
Proof. reflexivity. Qed.

Lemma unwrap_here_none d c r :
  strip_prefix d (String c r) = None ->
  unwrap d 0 (String c r) = String c (unwrap d 0 r).
Proof. intros H. cbn [unwrap]. by rewrite H. Qed.

Lemma lone_underscore r :
  free_of "_" r = true -> strip_prefix "__" (String "_" r) = None.
Proof.
  intros Hr. rewrite strip_prefix_cons, Ascii.eqb_refl.
  destruct r as [|y r]; first done.
  cbn [free_of] in Hr. apply andb_prop in Hr as [Hy _]. apply negb_true_iff in Hy.
  by rewrite (strip_prefix_head_differs "_" EmptyString y r Hy).
Qed.

Lemma lone_underscore_before t w :
  free_of "_" t = true -> t <> EmptyString ->
  strip_prefix "__" (String "_" (t +:+ w)) = None.
Proof.
  intros Ht Hne. rewrite strip_prefix_cons, Ascii.eqb_refl.
  destruct t as [|y t]; first done.
  cbn [free_of] in Ht. apply andb_prop in Ht as [Hy _]. apply negb_true_iff in Hy.
  rewrite append_cons. by rewrite (strip_prefix_head_differs "_" EmptyString y _ Hy).
Qed.

Lemma unwrap_double_underscore a t b :
  free_of "_" a = true -> free_of "_" t = true -> free_of "_" b = true ->
  t <> EmptyString ->
  unwrap "__" 0 (a +:+ "_" +:+ t +:+ "_" +:+ b) = a +:+ "_" +:+ t +:+ "_" +:+ b.
Proof.
  intros Ha Ht Hb Hne. rewrite (unwrap_plain_prefix "_" "_" a _ Ha). f_equal.
  change ("_" +:+ t +:+ "_" +:+ b) with (String "_" (t +:+ String "_" b)).
  rewrite (unwrap_here_none "__" "_" _ (lone_underscore_before t _ Ht Hne)). f_equal.
  rewrite (unwrap_plain_prefix "_" "_" t _ Ht). f_equal.
  rewrite (unwrap_here_none "__" "_" _ (lone_underscore b Hb)). f_equal.
  by apply unwrap_plain.
Qed.

(** X25. A pair of delimiters on one line is removed and its content kept:
    between texts [a] and [b], with [a], [t] and [b] free of asterisks and
    underscores and [t] free of line terminators, [**t**] becomes [t]; and
    so does [_t_] for a non-empty [t], so the underscores of a name such as
    [a_t_b] are lost. *)
Theorem stripMarkdown_removes_pairs a t b :
  free_of "*" (a +:+ t +:+ b) = true ->
  free_of "_" (a +:+ t +:+ b) = true ->
  all_chars (fun c => negb (is_line_terminator c)) t = true ->
  stripMarkdown (a +:+ "**" +:+ t +:+ "**" +:+ b) = trim (a +:+ t +:+ b) /\
  (t <> EmptyString ->
   stripMarkdown (a +:+ "_" +:+ t +:+ "_" +:+ b) = trim (a +:+ t +:+ b)).
Proof.
  intros Hstar Hunder Hline.
  pose proof Hstar as Hstar'. pose proof Hunder as Hunder'.
  rewrite !free_of_app in Hstar', Hunder'.
  apply andb_prop in Hstar' as [Hsa [Hst Hsb]%andb_prop].
  apply andb_prop in Hunder' as [Hua [Hut Hub]%andb_prop].
  split.
  - unfold stripMarkdown.
    rewrite (unwrap_pair "*" "*" a t b Hsa Hst Hsb Hline).
    by rewrite (unwrap_plain "*" EmptyString _ Hstar),
      (unwrap_plain "_" "_" _ Hunder), (unwrap_plain "_" EmptyString _ Hunder).
  - intros Hne. unfold stripMarkdown.
    assert (Hs : free_of "*" (a +:+ "_" +:+ t +:+ "_" +:+ b) = true).
    { rewrite !free_of_app. by rewrite Hsa, Hst, Hsb. }
    rewrite (unwrap_plain "*" "*" _ Hs), (unwrap_plain "*" EmptyString _ Hs).
    rewrite (unwrap_double_underscore a t b Hua Hut Hub Hne).
    by rewrite (unwrap_pair "_" EmptyString a t b Hua Hut Hub Hline).
Qed.

Lemma stripMarkdown_removes_pairs_witness :
  stripMarkdown ("deep" +:+ "_" +:+ "space" +:+ "_" +:+ "theme") =
    trim ("deep" +:+ "space" +:+ "theme").
Proof.
  apply (proj2 (stripMarkdown_removes_pairs "deep" "space" "theme"
                  eq_refl eq_refl eq_refl)).
  discriminate.
Defined.

End Markdown.

(** ** The studio page: the export deck *)

Section DeckExport.
Import JsString JsText Studio Props.

Lemma show_nat_inj : Inj (=) (=) show_nat.
Proof.
  intros a b H. unfold show_nat in H.
  apply (f_equal NilEmpty.uint_of_string) in H. rewrite !NilEmpty.usu in H.
  injection H as H. apply (f_equal Nat.of_uint) in H.
  by rewrite !DecimalNat.Unsigned.of_to in H.
Qed.

Lemma export_ids l : forall k,
  map export_id (imap (fun i => export_slide (k + i)) l) =
  map (fun i => "slide-" +:+ show_nat i) (seq k (length l)).
Proof.
  induction l as [|slide l IH]; intros k; first done.
  cbn [imap map length seq]. rewrite Nat.add_0_r. f_equal.
  rewrite <- (IH (S k)). f_equal. apply imap_ext. intros i x _. cbn.
  do 3 f_equal. lia.
Qed.

Lemma blocks_in_order slide :
  sublist (map kind_of (blocks_of slide)) [KHeading; KBullets; KChart; KImage].
Proof.
  unfold blocks_of.
  destruct (is_empty (title slide)), (bullets slide) as [[|b bs]|],
    (chart_spec slide), (image slide); cbn;
    repeat first [apply sublist_nil | apply sublist_skip | apply sublist_cons].
Qed.

(** X26. [convertDeckForExport] keeps the slides and their order: the
    export deck has as many slides as the deck, slide [i] of the export is
    made from slide [i] of the deck and has the id [slide-i], the ids are
    pairwise different, and the blocks of a slide come in the order heading,
    bullets, chart, image, each at most once. *)
Theorem convertDeckForExport_keeps_slides now deck :
  length (export_slides (convertDeckForExport now deck)) = length (deck_slides deck) /\
  (forall i slide,
     deck_slides deck !! i = Some slide ->
     export_slides (convertDeckForExport now deck) !! i = Some (export_slide i slide) /\
     export_id (export_slide i slide) = "slide-" +:+ show_nat i) /\
  NoDup (map export_id (export_slides (convertDeckForExport now deck))) /\
  Forall (fun e => sublist (map kind_of (blocks e))
                     [KHeading; KBullets; KChart; KImage])
    (export_slides (convertDeckForExport now deck)).
Proof.
  cbn [convertDeckForExport export_slides].
  split; [|split; [|split]].
  - apply length_imap.
  - intros i slide Hi. split; last done. by rewrite list_lookup_imap, Hi.
  - rewrite (export_ids (deck_slides deck) 0
               : map export_id (imap export_slide (deck_slides deck)) = _).
    assert (Hinj : Inj (=) (=) (fun i => "slide-" +:+ show_nat i)).
    { intros a b H. apply show_nat_inj. by apply (String.app_inj "slide-") in H. }
    apply (NoDup_fmap_2 _). apply NoDup_seq.
  - apply Forall_forall. intros e He.
    apply list_elem_of_lookup in He as [i Hi].
    rewrite list_lookup_imap in Hi.
    destruct (deck_slides deck !! i) as [slide|]; last done.
    injection Hi as <-. apply blocks_in_order.
Qed.

Lemma convertDeckForExport_keeps_slides_witness :
  export_slides (convertDeckForExport 5 sample_deck) !! 1%nat =
    Some (export_slide 1
            {| layout := EmptyString; title := EmptyString;
               bullets := Some []; notes := Some "n"; chart_spec := None;
               image := Some {| prompt := "p"; alt := "a"; source := "generated" |};
               citations := None |}) /\
  export_id (export_slide 1
               {| layout := EmptyString; title := EmptyString;
                  bullets := Some []; notes := Some "n"; chart_spec := None;
                  image := Some {| prompt := "p"; alt := "a"; source := "generated" |};
                  citations := None |}) = "slide-" +:+ show_nat 1.
Proof.
  apply (proj1 (proj2 (convertDeckForExport_keeps_slides 5 sample_deck)) 1%nat).
  reflexivity.
Defined.

(** X27. Exporting a generated deck: for the deck of a status-200 answer,
    every slide of the export deck ends with an image block whose URL is
    the literal ['generated'], and the export has as many slides as the
    answer. *)
Theorem export_of_generated_deck env body issued response now :
  Route.POST env body = (issued, Route.Json200 response) ->
  length (export_slides (convertDeckForExport now (received (Route.deck response)))) =
    length (Route.slides (Route.deck response)) /\
  Forall (fun e => exists rest alt caption,
                     blocks e = rest ++ [ImageBlock "generated" alt caption])
    (export_slides (convertDeckForExport now (received (Route.deck response)))).
Proof.
  intros H.
  destruct (POST_success_inv env body issued response H)
    as (v & ss & docSummary & _ & _ & Hslides & _ & _).
  pose proof (pushed_from_images env docSummary (Route.theme v) (slots_of ss) 0) as Himg.
  rewrite <- Hslides in Himg.
  cbn [convertDeckForExport export_slides received deck_slides].
  split; first by rewrite length_imap, length_map.
  apply Forall_forall. intros e He.
  apply list_elem_of_lookup in He as [i Hi].
  rewrite list_lookup_imap, list_lookup_fmap in Hi.
  destruct (Route.slides (Route.deck response) !! i) as [slide|] eqn:Hslide; last done.
  injection Hi as <-.
  assert (Hsource : Route.image_source (Route.image slide) = "generated").
  { rewrite Forall_forall in Himg. apply Himg. by eapply list_elem_of_lookup_2. }
  cbn [export_slide blocks]. unfold blocks_of, received_slide.
  cbn [title bullets chart_spec image source alt prompt].
  rewrite Hsource. rewrite !app_assoc. by eexists _, _, _.
Qed.

Lemma export_of_generated_deck_witness :
  exists response,
    (Route.POST long_outline_env three_slides_body).2 = Route.Json200 response /\
    length (export_slides (convertDeckForExport 5 (received (Route.deck response)))) =
      length (Route.slides (Route.deck response)).
Proof.
  destruct (Route.POST long_outline_env three_slides_body) as [issued answer] eqn:E.
  assert (Hanswer : exists response, answer = Route.Json200 response).
  { assert (answer = (Route.POST long_outline_env three_slides_body).2) as ->
      by (by rewrite E).
    eexists. vm_compute. reflexivity. }
  destruct Hanswer as (response & ->).
  exists response. split; first done.
  exact (proj1 (export_of_generated_deck _ _ _ _ 5 E)).
Defined.

End DeckExport.

(** ** The slide loop and the handler: failures *)

Section Failures.
Import JsString DeckGenerator Props Vocabulary Gaps.

(** X28. Under a theme of the table, the [try] block of an iteration
    throws, and the placeholder is pushed, exactly when the slide call
    loses its race, the visual call loses its race, or the visual reply
    parses to [null]; an LLM call that merely fails is covered by the
    fallbacks of [generateSlide] and [generateVisual]. *)
Theorem slide_try_throws_exactly_on_timeout_or_null env docSummary theme n slot :
  is_Some (Route.image_style theme) ->
  (exists e, (Route.slide_try env docSummary theme n slot).2 = Throw e) <->
  Route.slide_late env n = true \/ Route.visual_late env n = true \/
  Route.visual_reply env n = Ok None.
Proof.
  intros [style Hstyle]. split; last by apply slide_try_fails.
  unfold Route.slide_try, Route.race.
  destruct (Route.slide_late env n); first by (intros _; left).
  rewrite Hstyle. cbn [defined snd].
  destruct (Route.visual_late env n); first by (intros _; right; left).
  unfold generateVisual.
  destruct (Route.visual_reply env n) as [[visual|]|e]; cbn.
  - by intros [e He].
  - intros _. by right; right.
  - by intros [e' He].
Qed.

Lemma slide_try_throws_exactly_on_timeout_or_null_witness :
  (exists e, (Route.slide_try slow_second_env EmptyString "deep_space" 2
                (sample_slot "b2")).2 = Throw e) <->
  Route.slide_late slow_second_env 2 = true \/
  Route.visual_late slow_second_env 2 = true \/
  Route.visual_reply slow_second_env 2 = Ok None.
Proof.
  apply (slide_try_throws_exactly_on_timeout_or_null slow_second_env EmptyString
           "deep_space" 2 (sample_slot "b2")).
  by eexists.
Defined.

(** X29. With the LLM down but answering in time, the deck is built from
    the fallbacks: when the slide call and the visual call of an iteration
    both throw, the slide pushed has the slot's layout, the title and the
    three bullets of [generateSlide]'s fallback, its two citations, and the
    image prompt and alt of [generateVisual]'s fallback, made from that
    title. *)
Theorem pushed_slide_when_llm_fails env docSummary theme style n slot e1 e2 :
  Route.image_style theme = Some style ->
  Route.slide_late env n = false ->
  Route.visual_late env n = false ->
  Route.slide_reply env n = Throw e1 ->
  Route.visual_reply env n = Throw e2 ->
  let topic := or_else (slot_title slot) "Key Concepts" in
  let slide_title := "**" +:+ topic +:+ "**: Overview" in
  pushed env docSummary theme n slot =
    {| Route.layout := slot_layout slot;
       Route.title := slide_title;
       Route.bullets := [ "**Core Concept**: " +:+ topic +:+ " fundamentals";
                          "**Key Metrics**: Measurable outcomes";
                          "**Innovation**: Latest developments" ];
       Route.notes := EmptyString;
       Route.chart_spec := None;
       Route.image :=
         {| Route.image_prompt := "Minimalist illustration of " +:+ slide_title;
            Route.image_alt := "Visual representation of " +:+ slide_title;
            Route.image_source := "generated" |};
       Route.citations := generateCitations (Route.year env) topic |}.
Proof.
  intros Hstyle Hslide Hvisual Hsr Hvr topic slide_title.
  unfold pushed, Route.slide_try, Route.race.
  rewrite Hslide, Hstyle, Hsr. cbn [defined snd].
  by rewrite Hvisual, Hvr.
Qed.

Lemma pushed_slide_when_llm_fails_witness :
  Route.title (pushed failing_env EmptyString "deep_space" 1 (sample_slot "b1")) =
    "**b1**: Overview".
Proof.
  rewrite (pushed_slide_when_llm_fails failing_env EmptyString "deep_space"
             "dark, subtle starfield, soft glow, high contrast" 1 (sample_slot "b1")
             LlmError LlmError eq_refl eq_refl eq_refl eq_refl eq_refl).
  reflexivity.
Defined.

Lemma sum_slides_gap ss : forall a,
  ~ Forall (fun sec => is_Some (slides sec)) ss ->
  Route.sum_slides a ss = Throw TypeError.
Proof.
  induction ss as [|sec ss IH]; intros a Hgap.
  - destruct Hgap. constructor.
  - cbn [Route.sum_slides]. destruct (slides sec) as [l|] eqn:Hl; last done.
    cbn. apply IH. intros Hall. apply Hgap. constructor; [by rewrite Hl | done].
Qed.

(** X30. What [generateOutline] tolerates the handler does not: when the
    parsed outline counts the requested number of slides but one of its
    sections has no slide list, [generateOutline] returns it as it is and
    the handler, reading [section.slides.length], answers an accepted
    request with status 500 after the outline call alone. *)
Theorem POST_fails_on_section_without_slides env m v parsed ss :
  Route.GenerateDeckRequestSchema (Route.JObj m) = inl v ->
  Route.outline_late env = false ->
  Route.outline_reply env = Ok (Some parsed) ->
  parsed_sections parsed = Some ss ->
  (inject_Z (count_slides ss) == Route.slide_count v)%Q ->
  ~ Forall (fun sec => is_Some (slides sec)) ss ->
  Route.POST env (Route.JObj m) = ([Route.OutlineCall], Route.Json500 TypeError).
Proof.
  intros Hv Hlate Hreply Hss Hcount Hgap.
  unfold Route.POST, Route.generate. rewrite Hv, Hlate, Hreply.
  cbn [Route.race]. unfold generateOutline, generateOutline_try.
  cbn [mbind result_bind defined]. unfold totalSlides. rewrite Hss.
  cbn [slide_count]. rewrite (Qeq_bool_true _ _ Hcount).
  cbn [negb mbind result_bind defined sections].
  unfold Route.reconcile. by rewrite (sum_slides_gap ss 0 Hgap).
Qed.

Lemma POST_fails_on_section_without_slides_witness :
  Route.POST gap_env (Route.JObj three_slides) =
    ([Route.OutlineCall], Route.Json500 TypeError).
Proof.
  apply (POST_fails_on_section_without_slides gap_env three_slides three_slides_request
           gap_outline
           [ {| name := "Intro"; slides := None |};
             {| name := "Body"; slides := Some (map sample_slot ["b1"; "b2"; "b3"]) |} ]).
  - vm_compute. reflexivity.
  - reflexivity.
  - reflexivity.
  - reflexivity.
  - reflexivity.
  - intros H. inversion H as [|? ? [l Hl] _]. discriminate Hl.
Defined.

End Failures.
